(** * Receipt and sales-report parsing: a shallow embedding of the Python sources

    The development embeds the deterministic (non-AI) parts of
    - [services/receipt_parser.py]      (class [EnhancedReceiptParser], and the
      [ProfessionalReceiptParser] class that the file also contains),
    - [services/sales_report_parser.py] (class [AdvancedSalesReportParser]),
    - [python/food_validator.py],
    - [services/menu_parser.py],
    and proves properties of them.

    Modelling decisions, fixed once for the whole file:
    - A Python [str] is a [string], the text in UTF-8.  The embedding is
      that of 7-bit text ([seven_bit]), where a byte is a character: the
      character classes below are Python's Unicode classes restricted to code
      points below 128.  The signs above code point 127 that the patterns of
      the sources name (rupee, euro, pound, en dash) are written as their
      encodings, except inside a repeated class.
    - A Python [float] is a primitive binary64 [float]; [float(text)],
      [round(x, n)] and the conversion of an [int] are written out with the
      correctly rounding functions of [SpecFloat].
    - A Python [int] is a [Z]; [int(text)] raises beyond 4300 digits, the
      default limit of CPython.
    - A compiled regular expression is a term of [regex], interpreted by a
      backtracking matcher with Python's priorities (leftmost, first
      alternative first, greedy before lazy as written).
    - An exception that the source lets escape is a [None] result. *)

From Stdlib Require Import String Ascii List ZArith NArith Bool Lia Floats DecimalString.
From Stdlib Require Import Sorted Permutation.

#[local] Set Warnings "-inexact-float,-comment-terminator-in-string".
Import ListNotations.
Local Open Scope list_scope.
Local Open Scope string_scope.

(** ** Characters *)

Definition code (c : ascii) : N := N_of_ascii c.

Definition in_range (lo hi : N) (c : ascii) : bool :=
  ((lo <=? code c) && (code c <=? hi))%N.

Definition is_digit (c : ascii) : bool := in_range 48 57 c.
Definition is_upper (c : ascii) : bool := in_range 65 90 c.
Definition is_lower (c : ascii) : bool := in_range 97 122 c.
Definition is_alpha (c : ascii) : bool := is_upper c || is_lower c.
Definition is_alnum (c : ascii) : bool := is_alpha c || is_digit c.

(** [\w] *)
Definition is_word (c : ascii) : bool := is_alnum c || (code c =? 95)%N.

(** [\s], and the characters removed by [str.strip()] *)
Definition is_space (c : ascii) : bool := in_range 9 13 c || in_range 28 32 c.

(** the line boundaries of [str.splitlines()] *)
Definition is_linebreak (c : ascii) : bool := in_range 10 13 c || in_range 28 30 c.

Definition to_lower (c : ascii) : ascii :=
  if is_upper c then ascii_of_N (code c + 32) else c.

Definition to_upper (c : ascii) : ascii :=
  if is_lower c then ascii_of_N (code c - 32) else c.

Definition chr (n : N) : ascii := ascii_of_N n.
Definition LF : ascii := chr 10.
Definition CR : ascii := chr 13.
Definition TAB : ascii := chr 9.

(** a character of 7-bit text *)
Definition ascii7 (c : ascii) : bool := (code c <? 128)%N.

(** membership of a character in the characters of a string: [c in chars] *)
Fixpoint char_in (chars : string) (c : ascii) : bool :=
  match chars with
  | EmptyString => false
  | String d rest => Ascii.eqb c d || char_in rest c
  end.

(** ** Strings *)

Definition is_empty (s : string) : bool :=
  match s with EmptyString => true | String _ _ => false end.

Fixpoint smap (f : ascii -> ascii) (s : string) : string :=
  match s with
  | EmptyString => EmptyString
  | String c rest => String (f c) (smap f rest)
  end.

Fixpoint sforall (p : ascii -> bool) (s : string) : bool :=
  match s with
  | EmptyString => true
  | String c rest => p c && sforall p rest
  end.

Fixpoint sexists (p : ascii -> bool) (s : string) : bool :=
  match s with
  | EmptyString => false
  | String c rest => p c || sexists p rest
  end.

Fixpoint scount (p : ascii -> bool) (s : string) : nat :=
  match s with
  | EmptyString => O
  | String c rest => (if p c then 1 else 0) + scount p rest
  end.

Fixpoint sfilter (p : ascii -> bool) (s : string) : string :=
  match s with
  | EmptyString => EmptyString
  | String c rest => if p c then String c (sfilter p rest) else sfilter p rest
  end.

(** a text whose characters are below code point 128 *)
Definition seven_bit (s : string) : bool := sforall ascii7 s.

(** the signs above code point 127 that the sources name, in UTF-8 *)
Definition rupee_sign : string :=
  String (chr 226) (String (chr 130) (String (chr 185) EmptyString)).
Definition euro_sign : string :=
  String (chr 226) (String (chr 130) (String (chr 172) EmptyString)).
Definition pound_sign : string := String (chr 194) (String (chr 163) EmptyString).
Definition en_dash : string :=
  String (chr 226) (String (chr 128) (String (chr 147) EmptyString)).

(** the last character of [s], or [d] when [s] is empty *)
Fixpoint last_char (s : string) (d : option ascii) : option ascii :=
  match s with
  | EmptyString => d
  | String c rest => last_char rest (Some c)
  end.

(** [s.lower()] *)
Definition lower (s : string) : string := smap to_lower s.

(** [s.lstrip(chars)], [s.rstrip(chars)], [s.strip(chars)] with the set of
    characters given as a predicate *)
Fixpoint lstrip_by (p : ascii -> bool) (s : string) : string :=
  match s with
  | EmptyString => EmptyString
  | String c rest => if p c then lstrip_by p rest else s
  end.

Fixpoint rstrip_by (p : ascii -> bool) (s : string) : string :=
  match s with
  | EmptyString => EmptyString
  | String c rest =>
      let t := rstrip_by p rest in
      if is_empty t && p c then EmptyString else String c t
  end.

Definition strip_by (p : ascii -> bool) (s : string) : string :=
  lstrip_by p (rstrip_by p s).

(** [s.strip()] *)
Definition strip (s : string) : string := strip_by is_space s.

(** [s.startswith(p)] *)
Fixpoint startswith (p s : string) : bool :=
  match p, s with
  | EmptyString, _ => true
  | String a p', String b s' => Ascii.eqb a b && startswith p' s'
  | String _ _, EmptyString => false
  end.

(** [needle in hay] *)
Fixpoint contains (needle hay : string) : bool :=
  startswith needle hay ||
  match hay with
  | EmptyString => false
  | String _ rest => contains needle rest
  end.

(** [s[n:]] for [0 <= n], and [s[-n:]] *)
Fixpoint drop (n : nat) (s : string) : string :=
  match n, s with
  | O, _ => s
  | S n', String _ rest => drop n' rest
  | S _, EmptyString => EmptyString
  end.

Definition last_n (n : nat) (s : string) : string :=
  drop (String.length s - n) s.

(** [s.replace(old, new)] for a non-empty [old]: occurrences are replaced
    from the left and do not overlap ([skip] counts the characters of the
    occurrence just replaced that are still to be passed over) *)
Fixpoint replace_aux (old new : string) (skip : nat) (s : string) : string :=
  match s with
  | EmptyString => EmptyString
  | String c rest =>
      match skip with
      | S k => replace_aux old new k rest
      | O =>
          if startswith old s
          then new ++ replace_aux old new (String.length old - 1) rest
          else String c (replace_aux old new 0 rest)
      end
  end.

Definition replace (old new s : string) : string := replace_aux old new 0 s.

(** [s.splitlines()] *)
Fixpoint splitlines_aux (cur s : string) : list string :=
  match s with
  | EmptyString => if is_empty cur then [] else [cur]
  | String c rest =>
      if is_linebreak c then
        match rest with
        | String d rest' =>
            if Ascii.eqb c CR && Ascii.eqb d LF
            then cur :: splitlines_aux EmptyString rest'
            else cur :: splitlines_aux EmptyString rest
        | EmptyString => [cur]
        end
      else splitlines_aux (cur ++ String c EmptyString) rest
  end.

Definition splitlines (s : string) : list string := splitlines_aux EmptyString s.

(** [s.split(sep)] for a one-character separator *)
Fixpoint split_on_aux (sep : ascii) (cur s : string) : list string :=
  match s with
  | EmptyString => [cur]
  | String c rest =>
      if Ascii.eqb c sep
      then cur :: split_on_aux sep EmptyString rest
      else split_on_aux sep (cur ++ String c EmptyString) rest
  end.

Definition split_on (sep : ascii) (s : string) : list string :=
  split_on_aux sep EmptyString s.

(** [s.split()] *)
Fixpoint split_ws_aux (cur s : string) : list string :=
  match s with
  | EmptyString => if is_empty cur then [] else [cur]
  | String c rest =>
      if is_space c then
        if is_empty cur then split_ws_aux EmptyString rest
        else cur :: split_ws_aux EmptyString rest
      else split_ws_aux (cur ++ String c EmptyString) rest
  end.

Definition split_ws (s : string) : list string := split_ws_aux EmptyString s.

(** [s.title()]: [cased] tells whether the previous character was a letter *)
Fixpoint title_aux (cased : bool) (s : string) : string :=
  match s with
  | EmptyString => EmptyString
  | String c rest =>
      if is_lower c then String (if cased then c else to_upper c) (title_aux true rest)
      else if is_upper c then String (if cased then to_lower c else c) (title_aux true rest)
      else String c (title_aux false rest)
  end.

Definition title (s : string) : string := title_aux false s.

(** [s.isupper()] *)
Definition isupper (s : string) : bool :=
  sexists is_upper s && negb (sexists is_lower s).

(** ** Regular expressions

    Only a character class is ever repeated without bound in the patterns of
    the sources, so [Rep] repeats a class; a counted group such as
    [(...){3}] is written as a sequence. *)

Inductive regex : Type :=
| Eps : regex
| Cls : (ascii -> bool) -> regex
| Seq : regex -> regex -> regex
| Alt : regex -> regex -> regex
| Rep : bool -> nat -> option nat -> (ascii -> bool) -> regex
| Grp : nat -> regex -> regex
| Bol : regex
| Eol : regex
| Wordb : regex
| Ahead : regex -> regex.

(** the groups that took part in a match, the most recent capture first *)
Definition caps : Type := list (nat * string).

(** [m.group(n)]: [None] when the group did not take part *)
Fixpoint group (n : nat) (c : caps) : option string :=
  match c with
  | [] => None
  | (i, t) :: rest => if Nat.eqb i n then Some t else group n rest
  end.

(** A continuation receives the text matched so far by the enclosing
    expression, the character before the current position, the rest of the
    subject and the captures. *)
Definition cont (R : Type) : Type :=
  string -> option ascii -> string -> caps -> option R.

Definition or_else {R : Type} (x y : option R) : option R :=
  match x with Some _ => x | None => y end.

Definition may_repeat (hi : option nat) : bool :=
  match hi with Some O => false | _ => true end.

(** [p{lo,hi}] : as many as possible first *)
Fixpoint rep_greedy {R : Type} (p : ascii -> bool) (lo : nat) (hi : option nat)
  (k : cont R) (acc : string) (pv : option ascii) (s : string) (c : caps)
  {struct s} : option R :=
  let stop := match lo with O => k acc pv s c | S _ => None end in
  match s with
  | String a rest =>
      if p a && may_repeat hi
      then or_else
             (rep_greedy p (pred lo) (option_map pred hi) k
                (acc ++ String a EmptyString) (Some a) rest c)
             stop
      else stop
  | EmptyString => stop
  end.

(** [p{lo,hi}?] : as few as possible first *)
Fixpoint rep_lazy {R : Type} (p : ascii -> bool) (lo : nat) (hi : option nat)
  (k : cont R) (acc : string) (pv : option ascii) (s : string) (c : caps)
  {struct s} : option R :=
  let stop := match lo with O => k acc pv s c | S _ => None end in
  match s with
  | String a rest =>
      if p a && may_repeat hi
      then or_else stop
             (rep_lazy p (pred lo) (option_map pred hi) k
                (acc ++ String a EmptyString) (Some a) rest c)
      else stop
  | EmptyString => stop
  end.

Definition is_word_opt (o : option ascii) : bool :=
  match o with Some a => is_word a | None => false end.

Definition first_char (s : string) : option ascii :=
  match s with String a _ => Some a | EmptyString => None end.

Fixpoint rmatch (R : Type) (r : regex) (k : cont R) (pv : option ascii)
  (s : string) (c : caps) {struct r} : option R :=
  match r with
  | Eps => k EmptyString pv s c
  | Cls p =>
      match s with
      | String a rest => if p a then k (String a EmptyString) (Some a) rest c else None
      | EmptyString => None
      end
  | Seq r1 r2 =>
      rmatch R r1
        (fun t1 pv1 s1 c1 =>
           rmatch R r2 (fun t2 pv2 s2 c2 => k (t1 ++ t2) pv2 s2 c2) pv1 s1 c1)
        pv s c
  | Alt r1 r2 => or_else (rmatch R r1 k pv s c) (rmatch R r2 k pv s c)
  | Rep greedy lo hi p =>
      if greedy then rep_greedy p lo hi k EmptyString pv s c
      else rep_lazy p lo hi k EmptyString pv s c
  | Grp n r1 => rmatch R r1 (fun t pv1 s1 c1 => k t pv1 s1 ((n, t) :: c1)) pv s c
  | Bol => match pv with None => k EmptyString pv s c | Some _ => None end
  | Eol =>
      if is_empty s || String.eqb s (String LF EmptyString)
      then k EmptyString pv s c else None
  | Wordb =>
      if xorb (is_word_opt pv) (is_word_opt (first_char s))
      then k EmptyString pv s c else None
  | Ahead r1 =>
      match rmatch caps r1 (fun _ _ _ c1 => Some c1) pv s c with
      | Some c1 => k EmptyString pv s c1
      | None => None
      end
  end.

(** the match object: the matched text [m.group(0)], the groups, and what
    follows the match in the subject *)
Record mobj : Type := { m_text : string; m_caps : caps; m_rest : string }.

Definition k_done : cont mobj :=
  fun t _ s c => Some {| m_text := t; m_caps := c; m_rest := s |}.

(** the attempt at one position, [pv] being the character before it *)
Definition match_here (r : regex) (pv : option ascii) (s : string) : option mobj :=
  rmatch mobj r k_done pv s [].

(** [pattern.match(s)] *)
Definition re_match (r : regex) (s : string) : option mobj := match_here r None s.

(** [pattern.search(s)] *)
Fixpoint search_at (r : regex) (pv : option ascii) (s : string) : option mobj :=
  or_else (match_here r pv s)
    match s with
    | EmptyString => None
    | String a rest => search_at r (Some a) rest
    end.

Definition re_search (r : regex) (s : string) : option mobj := search_at r None s.

Definition is_some {A : Type} (o : option A) : bool :=
  match o with Some _ => true | None => false end.

(** [pattern.sub(repl, s)], [pattern.findall(s)] and [pattern.split(s)] for a
    pattern that matches no empty text (every pattern they are used with
    here): the subject is scanned from the left, [skip] counts the characters
    of the last match still to be passed over. *)
Fixpoint sub_aux (r : regex) (repl : mobj -> string) (skip : nat)
  (pv : option ascii) (s : string) : string :=
  match s with
  | EmptyString => EmptyString
  | String a rest =>
      match skip with
      | S n => sub_aux r repl n (Some a) rest
      | O =>
          match match_here r pv s with
          | Some m =>
              if is_empty (m_text m)
              then String a (sub_aux r repl 0 (Some a) rest)
              else repl m ++ sub_aux r repl (String.length (m_text m) - 1) (Some a) rest
          | None => String a (sub_aux r repl 0 (Some a) rest)
          end
      end
  end.

Definition re_sub (r : regex) (repl : mobj -> string) (s : string) : string :=
  sub_aux r repl 0 None s.

Fixpoint findall_aux (r : regex) (skip : nat) (pv : option ascii) (s : string)
  : list mobj :=
  match s with
  | EmptyString => []
  | String a rest =>
      match skip with
      | S n => findall_aux r n (Some a) rest
      | O =>
          match match_here r pv s with
          | Some m =>
              if is_empty (m_text m)
              then findall_aux r 0 (Some a) rest
              else m :: findall_aux r (String.length (m_text m) - 1) (Some a) rest
          | None => findall_aux r 0 (Some a) rest
          end
      end
  end.

Definition re_findall (r : regex) (s : string) : list mobj := findall_aux r 0 None s.

Fixpoint split_aux (r : regex) (skip : nat) (cur : string) (pv : option ascii)
  (s : string) : list string :=
  match s with
  | EmptyString => [cur]
  | String a rest =>
      match skip with
      | S n => split_aux r n cur (Some a) rest
      | O =>
          match match_here r pv s with
          | Some m =>
              if is_empty (m_text m)
              then split_aux r 0 (cur ++ String a EmptyString) (Some a) rest
              else cur :: split_aux r (String.length (m_text m) - 1) EmptyString (Some a) rest
          | None => split_aux r 0 (cur ++ String a EmptyString) (Some a) rest
          end
      end
  end.

Definition re_split (r : regex) (s : string) : list string :=
  split_aux r 0 EmptyString None s.

(** *** Pattern syntax *)

Definition never : regex := Cls (fun _ => false).

(** a literal, and a literal under [re.IGNORECASE] *)
Fixpoint lit (s : string) : regex :=
  match s with
  | EmptyString => Eps
  | String c rest => Seq (Cls (Ascii.eqb c)) (lit rest)
  end.

Definition same_letter (c a : ascii) : bool := Ascii.eqb (to_lower a) (to_lower c).

Fixpoint liti (s : string) : regex :=
  match s with
  | EmptyString => Eps
  | String c rest => Seq (Cls (same_letter c)) (liti rest)
  end.

Fixpoint seqs (l : list regex) : regex :=
  match l with
  | [] => Eps
  | [r] => r
  | r :: rest => Seq r (seqs rest)
  end.

Fixpoint alts (l : list regex) : regex :=
  match l with
  | [] => never
  | [r] => r
  | r :: rest => Alt r (alts rest)
  end.

(** [r?], [p*], [p+], [p*?], [p+?], [p{n,}] *)
Definition opt (r : regex) : regex := Alt r Eps.
Definition star (p : ascii -> bool) : regex := Rep true 0 None p.
Definition plus (p : ascii -> bool) : regex := Rep true 1 None p.
Definition star_lazy (p : ascii -> bool) : regex := Rep false 0 None p.
Definition plus_lazy (p : ascii -> bool) : regex := Rep false 1 None p.
Definition at_least (n : nat) (p : ascii -> bool) : regex := Rep true n None p.

(** [.] *)
Definition any_char (c : ascii) : bool := negb (Ascii.eqb c LF).

Definition one_of (chars : string) : ascii -> bool := char_in chars.

Definition cls_or (p q : ascii -> bool) : ascii -> bool := fun c => p c || q c.
Definition cls_not (p : ascii -> bool) : ascii -> bool := fun c => negb (p c).

(** [\d+(?:\.\d+)?], the numeric token of most patterns *)
Definition number : regex :=
  Seq (plus is_digit) (opt (Seq (lit ".") (plus is_digit))).

(** ** Numbers *)

(** the binary64 number nearest to [n / d] (ties to even), for [0 <= n] and
    [0 < d]: the quotient is taken with 1200 extra binary digits, below the
    last place of every binary64 number, and rounded once *)
Definition float_of_ratio (n d : Z) : float :=
  let (q, r) := Z.div_eucl (n * 2 ^ 1200) d in
  SF2Prim (binary_round_aux prec emax false q (-1200) (new_location d r)).

Fixpoint digits_value (acc : Z) (s : string) : Z :=
  match s with
  | EmptyString => acc
  | String c rest => digits_value (acc * 10 + (Z.of_N (code c) - 48)) rest
  end.

(** [int(s)] for a string of digits: a [ValueError] beyond 4300 digits *)
Definition py_int (s : string) : option Z :=
  if (4300 <? String.length s)%nat then None else Some (digits_value 0 s).

(** the longest prefix of [s] in the class [p], and the rest *)
Fixpoint span (p : ascii -> bool) (s : string) : string * string :=
  match s with
  | String c rest =>
      if p c then let (a, b) := span p rest in (String c a, b)
      else (EmptyString, s)
  | EmptyString => (EmptyString, EmptyString)
  end.

(** [float(s)] for the strings the sources pass to it, made of digits and
    dots: digits with at most one dot and at least one digit give the
    correctly rounded value, anything else raises ([None]) *)
Definition py_float (s : string) : option float :=
  let (ip, rest) := span is_digit s in
  match rest with
  | EmptyString =>
      if is_empty ip then None else Some (float_of_ratio (digits_value 0 ip) 1)
  | String c fp =>
      if Ascii.eqb c "." && sforall is_digit fp && negb (is_empty (ip ++ fp))
      then Some (float_of_ratio (digits_value 0 (ip ++ fp))
                   (10 ^ Z.of_nat (String.length fp)))
      else None
  end.

(** [float(s)] where the pattern that produced [s] guarantees a number *)
Definition to_float (s : string) : float :=
  match py_float s with Some x => x | None => nan end.

(** [round(x, ndigits)] for [0 <= ndigits]: the exact binary value is rounded
    to [ndigits] decimals, ties to even, and the decimal converted back *)
Definition py_round (x : float) (ndigits : nat) : float :=
  match Prim2SF x with
  | S754_finite sgn m e =>
      let p10 := (10 ^ Z.of_nat ndigits)%Z in
      let num := (if 0 <=? e then Zpos m * 2 ^ e * p10 else Zpos m * p10)%Z in
      let den := (if 0 <=? e then 1 else 2 ^ (- e))%Z in
      let (q, r) := Z.div_eucl num den in
      let k := match (2 * r ?= den)%Z with
               | Lt => q
               | Gt => (q + 1)%Z
               | Eq => if Z.even q then q else (q + 1)%Z
               end in
      let y := float_of_ratio k p10 in
      if sgn then (- y)%float else y
  | _ => x
  end.

(** the conversion of an [int] to [float]: [OverflowError] when it is too
    large *)
Definition float_of_int (z : Z) : option float :=
  let y := float_of_ratio (Z.abs z) 1 in
  if (y =? infinity)%float then None
  else Some (if (z <? 0)%Z then (- y)%float else y).

(** [max(x, y)] and [min(x, y)]: the first argument unless the second is
    strictly beyond it *)
Definition py_max (x y : float) : float := if (x <? y)%float then y else x.
Definition py_min (x y : float) : float := if (y <? x)%float then y else x.

(** [int(x)] for a float: the exact value truncated; infinities and NaN
    raise *)
Definition int_of_float (x : float) : option Z :=
  match Prim2SF x with
  | S754_zero _ => Some 0%Z
  | S754_finite sgn m e =>
      let n := (if 0 <=? e then Zpos m * 2 ^ e else Zpos m / 2 ^ (- e))%Z in
      Some (if sgn then (- n)%Z else n)
  | _ => None
  end.

(** [str(n)] for an [int] *)
Definition str_of_int (n : Z) : string :=
  let d := NilZero.string_of_uint (N.to_uint (Z.to_N (Z.abs n))) in
  if (n <? 0)%Z then "-" ++ d else d.

(** [x if o is None else o] for optional values *)
Definition default {A : Type} (d : A) (o : option A) : A :=
  match o with Some x => x | None => d end.

Definition is_empty_list {A : Type} (l : list A) : bool :=
  match l with [] => true | _ :: _ => false end.

(** [d.get(k, dflt)] on a table with string keys *)
Fixpoint lookup {A : Type} (k : string) (d : list (string * A)) : option A :=
  match d with
  | [] => None
  | (k', v) :: rest => if String.eqb k k' then Some v else lookup k rest
  end.

(** [m.group(n)] of a group that took part in the match *)
Definition grp (n : nat) (m : mobj) : string := default "" (group n (m_caps m)).

(** the results of [f] on the elements of [l] that have one *)
Fixpoint filter_map {A B : Type} (f : A -> option B) (l : list A) : list B :=
  match l with
  | [] => []
  | x :: rest =>
      match f x with
      | Some y => y :: filter_map f rest
      | None => filter_map f rest
      end
  end.

(** the same for an [f] that may raise: [None] when it raises on an element
    of [l] *)
Fixpoint try_filter_map {A B : Type} (f : A -> option (option B)) (l : list A)
  : option (list B) :=
  match l with
  | [] => Some []
  | x :: rest =>
      match f x with
      | None => None
      | Some o =>
          match try_filter_map f rest with
          | None => None
          | Some ys => Some match o with Some y => y :: ys | None => ys end
          end
      end
  end.

(** * [services/receipt_parser.py], class [EnhancedReceiptParser] *)

Module EnhancedReceiptParser.

(** [self.unit_mappings] *)
Definition unit_mappings : list (string * string) :=
  [ ("kg", "kg"); ("kilogram", "kg"); ("kilo", "kg"); ("kilos", "kg");
    ("g", "gram"); ("gm", "gram"); ("gram", "gram"); ("grams", "gram");
    ("l", "liter"); ("ltr", "liter"); ("liter", "liter"); ("litre", "liter");
    ("litres", "liter");
    ("ml", "ml"); ("milliliter", "ml"); ("millilitre", "ml");
    ("pcs", "pieces"); ("pc", "pieces"); ("piece", "pieces"); ("pieces", "pieces");
    ("dozen", "dozen"); ("dz", "dozen");
    ("packet", "packet"); ("pack", "packet"); ("pkt", "packet");
    ("box", "box"); ("boxes", "box");
    ("bottle", "bottle"); ("btl", "bottle");
    ("can", "can"); ("cans", "can") ].

(** [self.categories], in the order of the dictionary.  The head of the class
    is cut off in [receipt_parser.py]; the table is the one of the same class
    in [receipt_parser copy.py]. *)
Definition categories : list (string * list string) :=
  [ ("meat_seafood",
     ["chicken"; "beef"; "pork"; "mutton"; "fish"; "lamb"; "turkey";
      "prawns"; "shrimp"; "crab"; "salmon"; "tuna"; "cod"; "meat"]);
    ("vegetables",
     ["tomato"; "onion"; "potato"; "carrot"; "cabbage"; "spinach";
      "broccoli"; "cauliflower"; "cucumber"; "pepper"; "lettuce";
      "garlic"; "ginger"; "beetroot"; "radish"; "capsicum"]);
    ("fruits",
     ["apple"; "banana"; "orange"; "mango"; "grape"; "strawberry";
      "pineapple"; "watermelon"; "melon"; "kiwi"; "peach"; "plum"]);
    ("dairy_eggs",
     ["milk"; "cheese"; "butter"; "yogurt"; "cream"; "eggs";
      "paneer"; "curd"; "ghee"]);
    ("grains_bakery",
     ["rice"; "wheat"; "flour"; "bread"; "pasta"; "noodles";
      "oats"; "quinoa"; "barley"; "cereal"]);
    ("spices_condiments",
     ["salt"; "pepper"; "turmeric"; "chili"; "cumin"; "coriander";
      "garam masala"; "sauce"; "ketchup"; "vinegar"; "oil"]);
    ("beverages",
     ["juice"; "soda"; "water"; "tea"; "coffee"; "beer"; "wine"]);
    ("household",
     ["soap"; "detergent"; "shampoo"; "toothpaste"; "tissue";
      "toilet paper"; "cleaning"; "dishwash"; "scrubs"; "sponge"]);
    ("snacks",
     ["chips"; "biscuits"; "cookies"; "nuts"; "chocolate"; "candy"]);
    ("kitchen_items",
     ["spoons"; "cups"; "plates"; "bowls"; "containers"; "sheet"; "foil"]) ].

(** An item is a dictionary; the keys that a dictionary may lack (or hold
    [None] under) are optional.  [estimated_expiry] is the number of days that
    [_get_default_expiry] adds to the current date before formatting it. *)
Record item : Type := {
  item_name : string;
  quantity : float;
  unit : string;
  unit_price : float;
  total_price : option float;
  category : option string;
  confidence : option float;
  estimated_expiry : option Z
}.

(** [abs(a - b) <= max(abs(a), abs(b)) * rel or abs(a - b) <= abs_tol] *)
Definition _approx_equal_tol (a b rel abs_tol : float) : bool :=
  if (a =? 0)%float || (b =? 0)%float
  then (abs (a - b) <=? abs_tol)%float
  else (abs (a - b) <=? py_max (abs a) (abs b) * rel)%float
       || (abs (a - b) <=? abs_tol)%float.

Definition _approx_equal (a b : float) : bool :=
  _approx_equal_tol a b 0.02%float 0.5%float.

(** [_clean_item_name] *)
Definition ocr_corrections : list (string * string) :=
  [ ("Loos", "Loose"); ("L005", "Loose"); ("L00S", "Loose"); ("Loo5", "Loose");
    ("Lo0", "Loose"); ("Toor", "Tur"); ("T00R", "Tur"); ("T0OR", "Tur");
    ("Ajinomato", "Ajinomoto") ].

(** [r'\b' + re.escape(wrong) + r'\b'] under [re.IGNORECASE] *)
Definition whole_word (wrong : string) : regex := seqs [Wordb; liti wrong; Wordb].

Definition apply_corrections (name : string) : string :=
  fold_left (fun n wc => re_sub (whole_word (fst wc)) (fun _ => snd wc) n)
    ocr_corrections name.

Definition _clean_item_name (name : string) : string :=
  (* [^\w\s\-\.] *)
  let name := re_sub (Cls (cls_not (cls_or is_word (cls_or is_space (one_of "-.")))))
                (fun _ => "") name in
  (* \s+ *)
  let name := re_sub (plus is_space) (fun _ => " ") name in
  let name := title (strip name) in
  let name := apply_corrections name in
  let name := replace "Ltr" "" (replace "Gm" "" (replace "Kg" "" name)) in
  strip (replace "Pack" "" (replace "Pcs" "" name)).

Definition _standardize_unit (u : string) : string :=
  let unit_lower := strip (lower u) in
  default unit_lower (lookup unit_lower unit_mappings).

(** [any(... for part in ...)] and the two passes of [_categorize_item] *)
Definition direct_hit (item_lower keyword : string) : bool :=
  contains keyword item_lower || contains item_lower keyword.

Definition fuzzy_hit (item_lower keyword : string) : bool :=
  existsb (fun part => contains part item_lower) (split_ws keyword)
  || existsb (fun part => contains part keyword) (split_ws item_lower).

(** the first category, in the order of the table, one of whose keywords hits *)
Fixpoint first_category (hit : string -> bool) (table : list (string * list string))
  : option string :=
  match table with
  | [] => None
  | (cat, keywords) :: rest =>
      if existsb hit keywords then Some cat else first_category hit rest
  end.

Definition _categorize_item_in (table : list (string * list string))
  (item_name : string) : string :=
  let item_lower := lower item_name in
  match first_category (direct_hit item_lower) table with
  | Some cat => cat
  | None =>
      match first_category (fuzzy_hit item_lower) table with
      | Some cat => cat
      | None => "other"
      end
  end.

Definition _categorize_item (item_name : string) : string :=
  _categorize_item_in categories item_name.

(** [_get_default_expiry]: the days added to [datetime.now()] *)
Definition days_map : list (string * Z) :=
  [ ("meat_seafood", 3); ("dairy_eggs", 7); ("vegetables", 5); ("fruits", 7);
    ("grains_bakery", 30); ("spices_condiments", 365); ("beverages", 60);
    ("household", 730); ("snacks", 90); ("kitchen_items", 3650); ("other", 30) ]%Z.

Definition _get_default_expiry (cat : string) : Z :=
  default 30%Z (lookup cat days_map).

Definition _enhance_item (it : item) : item :=
  let name := _clean_item_name (item_name it) in
  let cat := match category it with
             | Some c => c
             | None => _categorize_item name
             end in
  {| item_name := name;
     quantity := quantity it;
     unit_price := unit_price it;
     total_price := Some match total_price it with
                         | Some t => t
                         | None => (quantity it * unit_price it)%float
                         end;
     unit := _standardize_unit (unit it);
     category := Some cat;
     confidence := Some (default 0.8%float (confidence it));
     estimated_expiry := Some (_get_default_expiry cat) |}.

(** *** [_deterministic_parse_items] *)

(** the named groups of the patterns *)
Definition g_name : nat := 1.
Definition g_q : nat := 2.
Definition g_p : nat := 3.
Definition g_t : nat := 4.
Definition g_a : nat := 5.
Definition g_b : nat := 6.
Definition g_price : nat := 7.
Definition g_qty : nat := 8.
Definition g_unit : nat := 9.

(** class "[A-Za-z0-9 /&\-\(\)]" *)
Definition name_char (c : ascii) : bool := is_alnum c || one_of " /&-()" c.

(** pattern "[A-Za-z][A-Za-z0-9 /&\-\(\)]*?" *)
Definition name_pattern : regex := Seq (Cls is_alpha) (star_lazy name_char).

(** pattern "^(?:(?P<name>[A-Za-z][A-Za-z0-9 /&\-\(\)]*?)\s*[-:])?\s*(?P<q>\d+(?:\.\d+)?)\s*[xX*]\s*(?P<p>\d+(?:\.\d+)?)\s*=\s*(?P<t>\d+(?:\.\d+)?)(?:\s|$)" *)
Definition mult_pattern : regex :=
  seqs [ Bol;
         opt (seqs [Grp g_name name_pattern; star is_space; Cls (one_of "-:")]);
         star is_space; Grp g_q number; star is_space; Cls (one_of "xX*");
         star is_space; Grp g_p number; star is_space; lit "=";
         star is_space; Grp g_t number; Alt (Cls is_space) Eol ].

(** pattern "^(?P<q>\d+(?:\.\d+)?)\s*[xX*]\s*(?P<p>\d+(?:\.\d+)?)\s*=\s*(?P<t>\d+(?:\.\d+)?)(?:\s|$)" *)
Definition bare_mult_pattern : regex :=
  seqs [ Bol;
         Grp g_q number; star is_space; Cls (one_of "xX*");
         star is_space; Grp g_p number; star is_space; lit "=";
         star is_space; Grp g_t number; Alt (Cls is_space) Eol ].

(** pattern "^(?P<a>\d+)\s*[xX]\s*(?P<b>\d+)\s*[-: ]+?(?P<name>[A-Za-z][A-Za-z0-9 /&\-\(\)]*?)\s*[-: ]+?(?P<price>\d+(?:\.\d+)?)$" *)
Definition dimension_pattern : regex :=
  seqs [ Bol;
         Grp g_a (plus is_digit); star is_space; Cls (one_of "xX");
         star is_space; Grp g_b (plus is_digit); star is_space;
         plus_lazy (one_of "-: "); Grp g_name name_pattern; star is_space;
         plus_lazy (one_of "-: "); Grp g_price number; Eol ].

(** pattern "^(?P<name>[A-Za-z][A-Za-z0-9 /&\-\(\)]*?)\s+(?P<qty>\d+(?:\.\d+)?)(?P<unit>kg|kgs?|g|gm|grams?|ml|l|ltr)\b.*?(?P<price>\d+(?:\.\d+)?)(?:\s|$)"
    under [re.IGNORECASE] *)
Definition weight_pattern : regex :=
  seqs [ Bol;
         Grp g_name name_pattern; plus is_space; Grp g_qty number;
         Grp g_unit
           (alts [ liti "kg"; Seq (liti "kg") (opt (liti "s")); liti "g"; liti "gm";
                   Seq (liti "gram") (opt (liti "s")); liti "ml"; liti "l";
                   liti "ltr" ]);
         Wordb; star_lazy any_char; Grp g_price number; Alt (Cls is_space) Eol ].

(** pattern "^(total|subtotal|tax|cash|change|thank|balance|date|time|invoice|bill)\b"
    under [re.IGNORECASE] *)
Definition skip_line : regex :=
  seqs [ Bol;
         Grp 1 (alts (map liti [ "total"; "subtotal"; "tax"; "cash"; "change";
                                 "thank"; "balance"; "date"; "time"; "invoice";
                                 "bill" ]));
         Wordb ].

(** class "[R$EP]", where R, E and P stand for the rupee, euro and pound
    signs *)
Definition currency_cleanup : regex :=
  alts [lit rupee_sign; Cls (one_of "$"); lit euro_sign; lit pound_sign].

(** pattern "(\d+)\.(?=\s|$)", replaced by its group 1 *)
Definition trailing_dot : regex :=
  seqs [Grp 1 (plus is_digit); lit "."; Ahead (Alt (Cls is_space) Eol)].

(** pattern "\d+\s*[xX*]\s*\d+" *)
Definition looks_like_mult : regex :=
  seqs [plus is_digit; star is_space; Cls (one_of "xX*"); star is_space; plus is_digit].

(** the pattern that removes the trailing numbers: the group
    "(\d+(?:\.\d+)?\s...)" (a number, then spaces) three times, then the end *)
Definition trailing_numbers : regex :=
  let tok := Grp 1 (Seq number (star is_space)) in
  seqs [tok; tok; tok; Eol].

(** the deduplication key: [(name.lower(), quantity, unit_price)] *)
Definition key : Type := (string * float * float)%type.

(** equality of two keys as tuples: floats are compared with [==] *)
Definition key_eqb (k1 k2 : key) : bool :=
  let '(n1, q1, u1) := k1 in
  let '(n2, q2, u2) := k2 in
  String.eqb n1 n2 && (q1 =? q2)%float && (u1 =? u2)%float.

(** [k in added_keys] *)
Definition key_in (k : key) (ks : list key) : bool := existsb (key_eqb k) ks.

(** the variables the loop updates *)
Record pstate : Type := {
  items : list item;
  added_keys : list key;
  prev_non_empty : option string
}.

Definition init_state : pstate :=
  {| items := []; added_keys := []; prev_non_empty := None |}.

(** [if key not in added_keys (and extra): items.append(self._enhance_item(item));
    added_keys.add(key)] *)
Definition emit (st : pstate) (extra : bool) (it : item) (k : key) : pstate :=
  if negb (key_in k (added_keys st)) && extra
  then {| items := (items st ++ [_enhance_item it])%list;
          added_keys := (added_keys st ++ [k])%list;
          prev_non_empty := prev_non_empty st |}
  else st.

Definition set_prev (raw_line : string) (st : pstate) : pstate :=
  {| items := items st; added_keys := added_keys st;
     prev_non_empty := Some raw_line |}.

(** the dictionary literal of a branch: it has no category and no expiry *)
Definition mk_item (name : string) (q : float) (u : string) (up total conf : float)
  : item :=
  {| item_name := name; quantity := q; unit := u; unit_price := up;
     total_price := Some total; category := None; confidence := Some conf;
     estimated_expiry := None |}.

Definition item_key (it : item) : key :=
  (lower (item_name it), quantity it, unit_price it).

(** [nums[-3:]] when [len(nums) >= 3] *)
Fixpoint last3 {A : Type} (l : list A) : option (A * A * A) :=
  match l with
  | [a; b; c] => Some (a, b, c)
  | _ :: rest => last3 rest
  | [] => None
  end.

(** the line as the loop prepares it *)
Definition prepare_line (raw_line : string) : string :=
  let line := strip (re_sub currency_cleanup (fun _ => "") raw_line) in
  re_sub trailing_dot (fun m => grp 1 m) line.

(** the branch of the straight multiplication pattern *)
Definition mult_branch (st : pstate) (raw_line : string) (m : mobj) : pstate :=
  let name := match group g_name (m_caps m) with
              | Some n => if is_empty n then "Unknown Item" else n
              | None => "Unknown Item"
              end in
  let it := mk_item (strip name) (to_float (grp g_q m)) "pieces"
              (to_float (grp g_p m)) (to_float (grp g_t m)) 0.95%float in
  set_prev raw_line (emit st true it (item_key it)).

(** the condition and the branch of the bare multiplication line *)
Definition bare_applies (st : pstate) (m : option mobj) : option (mobj * string) :=
  match m, prev_non_empty st with
  | Some mo, Some prev =>
      if negb (is_empty prev)
         && is_some (re_search (Cls is_alpha) prev)
         && negb (is_some (re_search looks_like_mult prev))
      then Some (mo, prev) else None
  | _, _ => None
  end.

Definition bare_branch (st : pstate) (raw_line : string) (m : mobj) (prev : string)
  : pstate :=
  let name := strip_by (one_of "-:") (strip prev) in
  let it := mk_item name (to_float (grp g_q m)) "pieces"
              (to_float (grp g_p m)) (to_float (grp g_t m)) 0.9%float in
  set_prev raw_line (emit st true it (item_key it)).

(** the dimension branch; [int(a)] and [int(b)] raise on an infinite value *)
Definition dimension_branch (st : pstate) (raw_line : string) (m : mobj)
  : option pstate :=
  let a := to_float (grp g_a m) in
  let b := to_float (grp g_b m) in
  let q := (a * b)%float in
  let price := to_float (grp g_price m) in
  match int_of_float a, int_of_float b with
  | Some ia, Some ib =>
      let it := mk_item (strip (grp g_name m) ++ " (" ++ str_of_int ia ++ "x"
                          ++ str_of_int ib ++ ")")
                  q "pieces" (if (0 <? q)%float then (price / q)%float else price)
                  price 0.9%float in
      Some (set_prev raw_line (emit st true it (item_key it)))
  | _, _ => None
  end.

(** the weight branch; its key rounds the unit price *)
Definition weight_branch (st : pstate) (raw_line : string) (m : mobj) : pstate :=
  let qty := to_float (grp g_qty m) in
  let unit_raw := rstrip_by (one_of "s") (lower (grp g_unit m)) in
  let unit_norm := default unit_raw (lookup unit_raw unit_mappings) in
  let price := to_float (grp g_price m) in
  let it := mk_item (strip (grp g_name m)) qty unit_norm
              (if (0 <? qty)%float then (price / qty)%float else price)
              price 0.85%float in
  set_prev raw_line
    (emit st true it
       (lower (item_name it), quantity it, py_round (unit_price it) 4)).

(** the quantity and the unit price among the first two of three numbers *)
Definition disambiguate (a b : float) : float * float :=
  if (a <=? 20)%float && ((a <? b)%float || negb (b <=? 20)%float) then (a, b)
  else if (b <=? 20)%float then (b, a)
  else (a, b).

(** the last branch: the last three numbers of the line *)
Definition triplet_branch (st : pstate) (line : string) : pstate :=
  let nums := map m_text (re_findall number line) in
  match last3 nums with
  | Some (ta, tb, tc) =>
      let a := to_float ta in
      let b := to_float tb in
      let c := to_float tc in
      if _approx_equal (a * b)%float c then
        let desc := strip_by (one_of "-: ")
                      (re_sub trailing_numbers (fun _ => "") line) in
        if is_empty desc || is_some (re_search skip_line (lower desc)) then st
        else
          let (q, up) := disambiguate a b in
          let it := mk_item desc q "pieces" up c 0.8%float in
          emit st ((0 <? q)%float && (0 <? up)%float) it (item_key it)
      else st
  | None => st
  end.

(** one turn of the loop over the lines; [None] when the turn raises *)
Definition parse_line (st : pstate) (raw_line : string) : option pstate :=
  let line := prepare_line raw_line in
  if is_empty line || (String.length line <? 3)%nat then Some st
  else if is_some (re_search skip_line line) then Some st
  else
    match re_match mult_pattern line with
    | Some m => Some (mult_branch st raw_line m)
    | None =>
        match bare_applies st (re_match bare_mult_pattern line) with
        | Some (m, prev) => Some (bare_branch st raw_line m prev)
        | None =>
            match re_match dimension_pattern line with
            | Some m => dimension_branch st raw_line m
            | None =>
                match re_match weight_pattern line with
                | Some m => Some (weight_branch st raw_line m)
                | None => Some (triplet_branch st line)
                end
            end
        end
    end.

Fixpoint parse_lines (st : pstate) (lines : list string) : option pstate :=
  match lines with
  | [] => Some st
  | raw_line :: rest =>
      match parse_line st raw_line with
      | Some st' => parse_lines st' rest
      | None => None
      end
  end.

(** [[l.strip() for l in raw_lines if l and l.strip()]] *)
Definition stripped_lines (ocr_text : string) : list string :=
  map strip
    (filter (fun l => negb (is_empty l) && negb (is_empty (strip l)))
       (splitlines ocr_text)).

(** The function.  The source also computes [header_index] from the first ten
    lines and never reads it; that computation cannot raise and is left out.
    [None] stands for the exception that escapes the function. *)
Definition _deterministic_parse_items (ocr_text : string) : option (list item) :=
  option_map items (parse_lines init_state (stripped_lines ocr_text)).

(** *** [_enhanced_fallback_parse] and [_try_parse_line] *)

(** pattern "\d+\.?\d*" *)
Definition loose_number : regex :=
  seqs [plus is_digit; opt (lit "."); star is_digit].

(** class "[A-Za-z\s]" *)
Definition alpha_space (c : ascii) : bool := is_alpha c || is_space c.

(** the dash class of the fallback patterns, written "[-D]" below: the hyphen
    or the en dash *)
Definition dash : regex := Alt (Cls (one_of "-")) (lit en_dash).

(** the patterns of [skip_patterns], matched at the start of the line under
    [re.IGNORECASE]:
    "^(total|tax|bill|date|store|thank|subtotal)", "^\d{1,2}/\d{1,2}/\d{2,4}",
    "^[_\-=]{3,}", "^\$?\d+\.?\d*$" *)
Definition skip_patterns : list regex :=
  [ seqs [Bol; Grp 1 (alts (map liti ["total"; "tax"; "bill"; "date"; "store";
                                      "thank"; "subtotal"]))];
    seqs [Bol; Rep true 1 (Some 2) is_digit; lit "/"; Rep true 1 (Some 2) is_digit;
          lit "/"; Rep true 2 (Some 4) is_digit];
    seqs [Bol; at_least 3 (one_of "_-=")];
    seqs [Bol; opt (lit "$"); loose_number; Eol] ].

(** Pattern 1 "([A-Za-z\s]+?)\s*[-D]\s*(\d+\.?\d*)\s*x\s*(\d+\.?\d*)\s*=\s*(\d+\.?\d*)" *)
Definition fb_mult : regex :=
  seqs [ Grp 1 (plus_lazy alpha_space); star is_space; dash; star is_space;
         Grp 2 loose_number; star is_space; liti "x"; star is_space;
         Grp 3 loose_number; star is_space; lit "="; star is_space;
         Grp 4 loose_number ].

(** Pattern 2 "([A-Za-z\s]+?)\s*[-D]\s*(\d+\.?\d*)\s*(kg|g|gm|l|ltr|ml)\s*[-D]\s*(\d+\.?\d*)" *)
Definition fb_weight : regex :=
  seqs [ Grp 1 (plus_lazy alpha_space); star is_space; dash; star is_space;
         Grp 2 loose_number; star is_space;
         Grp 3 (alts (map liti ["kg"; "g"; "gm"; "l"; "ltr"; "ml"]));
         star is_space; dash; star is_space; Grp 4 loose_number ].

(** Pattern 3 "([A-Za-z\s]+?)\s*[-D]\s*(\d+\.?\d*)\s*[-D]\s*(\d+\.?\d*)" *)
Definition fb_simple : regex :=
  seqs [ Grp 1 (plus_lazy alpha_space); star is_space; dash; star is_space;
         Grp 2 loose_number; star is_space; dash; star is_space;
         Grp 3 loose_number ].

(** Pattern 4 "(\d+)\s*x\s*(\d+)\s*[-D]\s*([A-Za-z\s]+?)\s*[-D]\s*(\d+\.?\d*)" *)
Definition fb_dimension : regex :=
  seqs [ Grp 1 (plus is_digit); star is_space; liti "x"; star is_space;
         Grp 2 (plus is_digit); star is_space; dash; star is_space;
         Grp 3 (plus_lazy alpha_space); star is_space; dash; star is_space;
         Grp 4 loose_number ].

Definition _try_parse_line (line : string) : option item :=
  match re_search fb_mult line with
  | Some m =>
      Some (mk_item (strip (grp 1 m)) (to_float (grp 2 m)) "pieces"
              (to_float (grp 3 m)) (to_float (grp 4 m)) 0.9%float)
  | None =>
  match re_search fb_weight line with
  | Some m =>
      Some (mk_item (strip (grp 1 m)) (to_float (grp 2 m)) (lower (grp 3 m))
              (to_float (grp 4 m))
              (to_float (grp 2 m) * to_float (grp 4 m))%float 0.85%float)
  | None =>
  match re_search fb_simple line with
  | Some m =>
      Some (mk_item (strip (grp 1 m)) (to_float (grp 2 m)) "pieces"
              (to_float (grp 3 m))
              (to_float (grp 2 m) * to_float (grp 3 m))%float 0.7%float)
  | None =>
  match re_search fb_dimension line with
  | Some m =>
      let q := (to_float (grp 1 m) * to_float (grp 2 m))%float in
      Some (mk_item (strip (grp 3 m) ++ " (" ++ grp 1 m ++ "x" ++ grp 2 m ++ ")")
              q "pieces"
              (if (0 <? q)%float then (to_float (grp 4 m) / q)%float
               else to_float (grp 4 m))
              (to_float (grp 4 m)) 0.8%float)
  | None => None
  end end end end.

Definition fallback_line (line : string) : option item :=
  let line := strip line in
  if is_empty line || (String.length line <? 3)%nat then None
  else if existsb (fun r => is_some (re_match r line)) skip_patterns then None
  else _try_parse_line line.

Definition _enhanced_fallback_parse (ocr_text : string) : list item :=
  filter_map fallback_line (split_on LF ocr_text).

(** *** [_extract_phone_number] *)

(** pattern "(phone|ph|tel|mobile|mob|contact|whatsapp)[:\s\-]*([+()\d][\d\s()\-+]{6,})"
    under [re.IGNORECASE] *)
Definition label_pattern : regex :=
  seqs [ Grp 1 (alts (map liti ["phone"; "ph"; "tel"; "mobile"; "mob"; "contact";
                                "whatsapp"]));
         star (cls_or (one_of ":-") is_space);
         Grp 2 (Seq (Cls (cls_or (one_of "+()") is_digit))
                  (at_least 6 (cls_or is_digit (cls_or is_space (one_of "()-+"))))) ].

(** pattern "(\+?\d[\d\s\-()]{9,})" *)
Definition generic_pattern : regex :=
  Grp 1 (seqs [ opt (lit "+"); Cls is_digit;
                at_least 9 (cls_or is_digit (cls_or is_space (one_of "-()"))) ]).

(** [re.sub(r"\D", "", raw)] *)
Definition digits_of (raw : string) : string :=
  re_sub (Cls (cls_not is_digit)) (fun _ => "") raw.

(** the candidate the function settles on *)
Definition phone_candidate (text : string) : option string :=
  match re_search label_pattern text with
  | Some m => Some (grp 2 m)
  | None =>
      find (fun cand =>
              let n := String.length (digits_of cand) in
              (10 <=? n)%nat && (n <=? 13)%nat)
        (map (grp 1) (re_findall generic_pattern text))
  end.

(** the normalisation that ends the function, on the digits of the candidate *)
Definition normalize_digits (digits : string) : string :=
  let n := String.length digits in
  if (n =? 10)%nat then digits
  else if (n =? 11)%nat && startswith "0" digits then drop 1 digits
  else if (12 <=? n)%nat then
    if startswith "91" digits && (12 <=? n)%nat then "+91" ++ last_n 10 digits
    else if startswith "1" digits && (n =? 11)%nat then "+1" ++ last_n 10 digits
    else "+" ++ digits
  else digits.

Definition _extract_phone_number (text : string) : option string :=
  match phone_candidate text with
  | Some raw => if is_empty raw then None else Some (normalize_digits (digits_of raw))
  | None => None
  end.

(** *** [detect_regional_language] and [parse_receipt] *)

(** [self.regional_scripts] is defined in the part of the class that
    [receipt_parser.py] lacks: a table from a script name to a range of code
    points, taken as a parameter. *)
Definition script_table : Type := list (string * (N * N)).

Fixpoint script_of (scripts : script_table) (c : ascii) : option string :=
  match scripts with
  | [] => None
  | (name, (lo, hi)) :: rest =>
      if ((lo <=? code c) && (code c <=? hi))%N then Some name
      else script_of rest c
  end.

(** [script_counts[name] = script_counts.get(name, 0) + 1], keeping the order
    in which the names were first seen *)
Fixpoint bump (name : string) (counts : list (string * nat)) : list (string * nat) :=
  match counts with
  | [] => [(name, 1)]
  | (n, k) :: rest =>
      if String.eqb n name then (n, S k) :: rest else (n, k) :: bump name rest
  end.

Fixpoint count_scripts (scripts : script_table) (text : string)
  (counts : list (string * nat)) : list (string * nat) :=
  match text with
  | EmptyString => counts
  | String c rest =>
      count_scripts scripts rest
        match script_of scripts c with
        | Some name => bump name counts
        | None => counts
        end
  end.

Definition float_of_nat (n : nat) : float := float_of_ratio (Z.of_nat n) 1.

(** the second definition of the method, the one in force.  Counts are
    compared with the threshold as floats, which is exact below 2^53. *)
Definition detect_regional_language (scripts : script_table) (text : string)
  : string :=
  if is_empty text then "english"
  else
    let total_chars := String.length text in
    let threshold := py_max 1 (float_of_nat total_chars * 0.1)%float in
    match find (fun nc => (threshold <=? float_of_nat (snd nc))%float)
            (count_scripts scripts text []) with
    | Some (name, _) => name
    | None => "english"
    end.

(** The result of [parse_receipt], restricted to the keys [success], [items]
    and [parsing_method] (of the summary); the other keys are computed by
    code that cannot raise and does not change these three. *)
Record parse_result : Type := {
  success : bool;
  result_items : list item;
  parsing_method : string
}.

(** [self.model] is [None], or the AI suggester is configured and
    [parse_with_gemini] returns the list it is given here. *)
Definition parse_receipt (scripts : script_table)
  (model : option (string -> list item)) (ocr_text : string) : parse_result :=
  if negb (String.eqb (detect_regional_language scripts ocr_text) "english") then
    {| success := true; result_items := []; parsing_method := "text_preservation" |}
  else
    match _deterministic_parse_items ocr_text with
    | None =>
        {| success := false; result_items := []; parsing_method := "failed" |}
    | Some its =>
        let '(its, method) :=
          if is_empty_list its
          then (_enhanced_fallback_parse ocr_text, "regex_fallback")
          else (its, "deterministic") in
        let '(its, method) :=
          match its, model with
          | [], Some parse_with_gemini =>
              match parse_with_gemini ocr_text with
              | [] => (its, method)
              | ai_items => (ai_items, "gemini_ai")
              end
          | _, _ => (its, method)
          end in
        {| success := true; result_items := its; parsing_method := method |}
    end.

(** *** [_extract_total_amount] *)

(** the patterns "total[:\s]*R?(\d+\.?\d*)", "grand\s*total[:\s]*R?(\d+\.?\d*)",
    "net\s*total[:\s]*R?(\d+\.?\d*)" and "amount[:\s]*R?(\d+\.?\d*)" under
    [re.IGNORECASE], where R stands for the rupee sign *)
Definition amount_after (label : regex) : regex :=
  seqs [label; star (cls_or (one_of ":") is_space); opt (lit rupee_sign);
        Grp 1 loose_number].

Definition total_patterns : list regex :=
  [ amount_after (liti "total");
    amount_after (seqs [liti "grand"; star is_space; liti "total"]);
    amount_after (seqs [liti "net"; star is_space; liti "total"]);
    amount_after (liti "amount") ].

(** the match of the first pattern, in the order of the list, that is found
    somewhere in the text *)
Fixpoint first_search (patterns : list regex) (text : string) : option mobj :=
  match patterns with
  | [] => None
  | r :: rest =>
      match re_search r text with
      | Some m => Some m
      | None => first_search rest text
      end
  end.

(** an exception of [float] is caught and gives [None] *)
Definition _extract_total_amount (text : string) : option float :=
  match first_search total_patterns text with
  | Some m => py_float (grp 1 m)
  | None => None
  end.

(** *** [_preprocess_text] *)

Definition preprocess_corrections : list (string * string) :=
  [ ("lOg", "10g"); ("l0g", "10g"); ("O", "0"); ("S", "5");
    ("B", "8"); ("G", "6"); ("I", "1"); ("Z", "2") ].

Definition _preprocess_text (text : string) : string :=
  let text := re_sub (plus is_space) (fun _ => " ") text in
  strip (fold_left (fun t wr => replace (fst wr) (snd wr) t)
           preprocess_corrections text).

End EnhancedReceiptParser.

(** * [services/receipt_parser.py], class [ProfessionalReceiptParser] *)

Module ProfessionalReceiptParser.

(** the result dictionary, restricted to [success] and [items] *)
Record parse_result : Type := {
  success : bool;
  result_items : list EnhancedReceiptParser.item
}.

Definition failure : parse_result := {| success := false; result_items := [] |}.

(** [_clean_text] *)
Definition _clean_text (text : string) : string :=
  if is_empty text then ""
  else
    let lines := filter (fun l => negb (is_empty l)) (map strip (split_on LF text)) in
    let cleaned := String.concat (String LF "") lines in
    if (8000 <? Z.of_nat (String.length cleaned))%Z
    then substring 0 (Z.to_nat 8000) cleaned ++ "...[TRUNCATED]"
    else cleaned.

(** [parse_receipt]: [gemini] stands for [_parse_with_gemini_pro], the call of
    the remote model, which returns a result dictionary, or nothing *)
Definition parse_receipt (gemini : string -> option parse_result)
  (ocr_text : string) : parse_result :=
  if is_empty ocr_text || is_empty (strip ocr_text) then failure
  else
    match gemini (_clean_text ocr_text) with
    | Some r => if success r then r else failure
    | None => failure
    end.

(** the table of [_standardize_unit] *)
Definition unit_mappings : list (string * string) :=
  [ ("kg", "kg"); ("kilogram", "kg"); ("kilo", "kg");
    ("gm", "gm"); ("gram", "gm"); ("g", "gm");
    ("ltr", "ltr"); ("litre", "ltr"); ("liter", "ltr"); ("l", "ltr");
    ("pc", "pc"); ("piece", "pc"); ("pieces", "pc"); ("pcs", "pc");
    ("box", "box"); ("packet", "packet"); ("pack", "packet") ].

Definition _standardize_unit (u : string) : string :=
  let unit_lower := strip (lower u) in
  default unit_lower (lookup unit_lower unit_mappings).

(** [self.categories], in the order of the dictionary *)
Definition categories : list (string * list string) :=
  [ ("grains_flour", ["maida"; "flour"; "wheat"; "rice"; "rava"; "sooji"; "atta"]);
    ("spices_condiments",
     ["haldi"; "turmeric"; "chilli"; "powder"; "garam"; "masala"; "jeera"; "cumin"]);
    ("pulses_dals", ["dal"; "chana"; "toor"; "besan"; "gram"]);
    ("oils_fats", ["palm oil"; "cooking oil"; "ghee"]);
    ("dairy_products", ["milk"; "butter"; "paneer"; "cheese"]);
    ("sweeteners", ["sugar"; "jaggery"; "gur"]);
    ("snacks_ready", ["namkeen"; "mixture"; "palli"; "nuts"]);
    ("beverages", ["tea"; "coffee"; "drinks"]);
    ("household_items", ["soap"; "detergent"; "cleaning"]);
    ("vegetables", ["onion"; "potato"; "tomato"; "garlic"; "ginger"]);
    ("other", ["transport"; "delivery"; "service"]) ].

(** [keyword in item_lower] *)
Definition keyword_hit (item_lower keyword : string) : bool :=
  contains keyword item_lower.

Definition _categorize_item (item_name : string) : string :=
  default "other"
    (EnhancedReceiptParser.first_category (keyword_hit (lower item_name)) categories).

End ProfessionalReceiptParser.

(** * [services/sales_report_parser.py], class [AdvancedSalesReportParser] *)

Module AdvancedSalesReportParser.

(** A number that is an [int] or a [float]: an amount is the float read from
    the text, or the integer literal [0]. *)
Inductive pynum : Type :=
| PInt : Z -> pynum
| PFloat : float -> pynum.

Definition to_f (a : pynum) : option float :=
  match a with
  | PInt z => float_of_int z
  | PFloat x => Some x
  end.

(** [a + b] *)
Definition num_add (a b : pynum) : option pynum :=
  match a, b with
  | PInt x, PInt y => Some (PInt (x + y))
  | _, _ =>
      match to_f a, to_f b with
      | Some x, Some y => Some (PFloat (x + y))
      | _, _ => None
      end
  end.

(** [a / q] for an [int] [q > 0]: the quotient of two integers is rounded
    once, and is an [OverflowError] when it is too large for a float *)
Definition num_div (a : pynum) (q : Z) : option pynum :=
  match a with
  | PFloat x =>
      match float_of_int q with
      | Some fq => Some (PFloat (x / fq))
      | None => None
      end
  | PInt z =>
      let y := float_of_ratio (Z.abs z) q in
      if (y =? infinity)%float then None
      else Some (PFloat (if (z <? 0)%Z then (- y)%float else y))
  end.

(** [round(a, n)] *)
Definition num_round (a : pynum) (n : nat) : pynum :=
  match a with
  | PInt z => PInt z
  | PFloat x => PFloat (py_round x n)
  end.

(** the exact comparison of an [int] with a [float] *)
Definition int_float_compare (z : Z) (y : float) : option comparison :=
  match Prim2SF y with
  | S754_nan => None
  | S754_infinity sgn => Some (if sgn then Gt else Lt)
  | S754_zero _ => Some (z ?= 0)%Z
  | S754_finite sgn m e =>
      let v := (if sgn then Zneg m else Zpos m) in
      Some (if (0 <=? e)%Z then (z ?= v * 2 ^ e)%Z else (z * 2 ^ (- e) ?= v)%Z)
  end.

(** [a < b] *)
Definition num_ltb (a b : pynum) : bool :=
  match a, b with
  | PInt x, PInt y => (x <? y)%Z
  | PFloat x, PFloat y => (x <? y)%float
  | PInt x, PFloat y =>
      match int_float_compare x y with Some Lt => true | _ => false end
  | PFloat x, PInt y =>
      match int_float_compare y x with Some Gt => true | _ => false end
  end.

(** one parsed line of the report *)
Record row : Type := {
  row_item : string;
  row_quantity : Z;
  row_unit : string;
  row_amount : pynum
}.

(** an entry of [item_aggregation] *)
Record agg : Type := {
  agg_quantity : Z;
  agg_unit : string;
  agg_amount : pynum
}.

(** an entry of the output list *)
Record report_item : Type := {
  item_name : string;
  total_quantity : Z;
  unit : string;
  unit_price : pynum;
  total_amount : pynum
}.

(** the result, restricted to the summary and the items *)
Record report : Type := {
  total_revenue : pynum;
  total_items_sold : Z;
  unique_items_count : nat;
  items : list report_item
}.

(** pattern "\s{2,}|\t+" *)
Definition cell_sep : regex := Alt (at_least 2 is_space) (plus (Ascii.eqb TAB)).

(** pattern "(\d+)\s*(\w+)" *)
Definition qty_unit : regex :=
  seqs [Grp 1 (plus is_digit); star is_space; Grp 2 (plus is_word)].

Definition parse_quantity (qstr : string) : option (Z * string) :=
  match re_match qty_unit qstr with
  | Some m => option_map (fun q => (q, lower (grp 2 m))) (py_int (grp 1 m))
  | None =>
      match re_search (Grp 1 (plus is_digit)) qstr with
      | Some m => option_map (fun q => (q, "units")) (py_int (grp 1 m))
      | None => Some (1%Z, "units")
      end
  end.

(** [float(clean_amount) if clean_amount else 0], and [0] when [float]
    raises *)
Definition parse_amount (amount_str : string) : pynum :=
  let clean_amount :=
    re_sub (Cls (cls_not (cls_or is_digit (one_of ".")))) (fun _ => "") amount_str in
  if is_empty clean_amount then PInt 0
  else match py_float clean_amount with
       | Some x => PFloat x
       | None => PInt 0
       end.

(** [re.split(r'\s{2,}|\t+', line.strip())] *)
Definition row_cells (line : string) : list string :=
  re_split cell_sep (strip line).

(** the test of the two [continue]s: a header, or too few cells *)
Definition passed_over (is_summary_format : bool) (cells : list string) : bool :=
  existsb (fun header => contains header (lower (nth 0 cells "")))
    ["customer"; "item"]
  || (List.length cells <? 3)%nat
  || negb is_summary_format && (List.length cells <? 4)%nat.

(** the cells of the item, of the quantity and of the amount: the first
    three of a summary, the three after the customer otherwise *)
Definition column (is_summary_format : bool) (n : nat) (cells : list string)
  : string :=
  nth (if is_summary_format then n else S n) cells "".

Definition item_cell (is_summary_format : bool) (cells : list string) : string :=
  strip (column is_summary_format 0 cells).

Definition quantity_cell (is_summary_format : bool) (cells : list string) : string :=
  strip (column is_summary_format 1 cells).

Definition amount_cell (is_summary_format : bool) (cells : list string) : string :=
  strip (replace "," "" (replace rupee_sign "" (column is_summary_format 2 cells))).

(** the body of the loop up to the aggregation: the row of a line, or no row
    when the line is passed over; [None] when [int] raises *)
Definition parse_row (is_summary_format : bool) (line : string)
  : option (option row) :=
  let cells := row_cells line in
  if passed_over is_summary_format cells then Some None
  else
    match parse_quantity (quantity_cell is_summary_format cells) with
    | Some (quantity, unit) =>
        Some (Some {| row_item := item_cell is_summary_format cells;
                      row_quantity := quantity;
                      row_unit := unit;
                      row_amount :=
                        parse_amount (amount_cell is_summary_format cells) |})
    | None => None
    end.

(** [item_aggregation], a dictionary in insertion order *)
Definition aggregation : Type := list (string * agg).

(** the aggregation of one row *)
Fixpoint add_row (r : row) (d : aggregation) : option aggregation :=
  match d with
  | [] =>
      Some [(row_item r,
             {| agg_quantity := row_quantity r; agg_unit := row_unit r;
                agg_amount := row_amount r |})]
  | (name, a) :: rest =>
      if String.eqb name (row_item r) then
        match num_add (agg_amount a) (row_amount r) with
        | Some total =>
            Some ((name, {| agg_quantity := (agg_quantity a + row_quantity r)%Z;
                            agg_unit := agg_unit a;
                            agg_amount := total |}) :: rest)
        | None => None
        end
      else option_map (cons (name, a)) (add_row r rest)
  end.

Fixpoint aggregate (rows : list row) (d : aggregation) : option aggregation :=
  match rows with
  | [] => Some d
  | r :: rest =>
      match add_row r d with
      | Some d' => aggregate rest d'
      | None => None
      end
  end.

(** the entry of the output for one aggregated item *)
Definition item_entry (name : string) (a : agg) : option report_item :=
  let up := if (0 <? agg_quantity a)%Z then num_div (agg_amount a) (agg_quantity a)
            else Some (PInt 0) in
  match up with
  | Some unit_price =>
      Some {| item_name := name;
              total_quantity := agg_quantity a;
              unit := agg_unit a;
              unit_price := num_round unit_price 2;
              total_amount := num_round (agg_amount a) 2 |}
  | None => None
  end.

Fixpoint item_entries (d : aggregation) : option (list report_item) :=
  match d with
  | [] => Some []
  | (name, a) :: rest =>
      match item_entry name a, item_entries rest with
      | Some e, Some es => Some (e :: es)
      | _, _ => None
      end
  end.

(** [items.sort(key=lambda x: x['total_amount'], reverse=True)]: the stable
    sort by descending key.  An item goes after the items that are not below
    it. *)
Fixpoint insert_desc (x : report_item) (l : list report_item) : list report_item :=
  match l with
  | [] => [x]
  | h :: t =>
      if num_ltb (total_amount h) (total_amount x) then x :: l
      else h :: insert_desc x t
  end.

Definition sort_desc (l : list report_item) : list report_item :=
  fold_left (fun acc x => insert_desc x acc) l [].

Fixpoint num_sum (start : pynum) (l : list pynum) : option pynum :=
  match l with
  | [] => Some start
  | x :: rest =>
      match num_add start x with
      | Some s => num_sum s rest
      | None => None
      end
  end.

(** the non-blank lines and the rows read from them *)
Definition report_lines (ocr_text : string) : list string :=
  filter (fun line => negb (is_empty (strip line))) (split_on LF ocr_text).

Definition is_summary (lines : list string) : bool :=
  let header_line := lower (nth 0 lines "") in
  contains "item" header_line && negb (contains "customer" header_line).

Definition rows_of (ocr_text : string) : option (list row) :=
  let lines := report_lines ocr_text in
  try_filter_map (parse_row (is_summary lines)) lines.

(** the dictionary of the aggregation turned into the result *)
Definition report_of (d : aggregation) : option report :=
  match item_entries d with
  | None => None
  | Some entries =>
      match num_sum (PInt 0) (map (fun na => agg_amount (snd na)) d) with
      | None => None
      | Some revenue =>
          Some {| total_revenue := num_round revenue 2;
                  total_items_sold :=
                    fold_left Z.add (map (fun na => agg_quantity (snd na)) d) 0%Z;
                  unique_items_count := List.length entries;
                  items := sort_desc entries |}
      end
  end.

(** [fallback_parsing]; [None] stands for an exception that escapes *)
Definition fallback_parsing (ocr_text : string) : option report :=
  match rows_of ocr_text with
  | None => None
  | Some rows =>
      match aggregate rows [] with
      | None => None
      | Some d => report_of d
      end
  end.

(** *** [_calculate_complementary_from_items] and
    [_breakfast_breakdown_from_items], on the items of [fallback_parsing]: the
    name of an item is a string and its quantity an [int] *)

Definition breakfast_keywords : list string :=
  [ "dosa"; "idli"; "vada"; "uttapam"; "utappam"; "rava"; "masala dosa";
    "plain dosa"; "set dosa"; "onion dosa"; "pesarattu"; "upma"; "poha";
    "pongal"; "poori"; "puri"; "paratha"; "bhatura"; "bhature"; "chole bhature" ].

Record complementary : Type := {
  groundnut_chutney : Z;
  tomato_chutney : Z;
  karam_podi : Z;
  sambar : Z
}.

(** [{n.lower() for n in (ai_breakfast_names or set())}] *)
Definition ai_set_of (ai_breakfast_names : option (list string)) : list string :=
  map lower (default [] ai_breakfast_names).

(** the test of the loop on the lowercased name of an item *)
Definition is_breakfast (use_ai : bool) (ai_set : list string) (lname : string) : bool :=
  if use_ai then existsb (String.eqb lname) ai_set
  else existsb (fun k => contains k lname) breakfast_keywords.

Definition _calculate_complementary_from_items (its : list report_item)
  (ai_breakfast_names : option (list string)) : complementary :=
  let use_ai := negb (is_empty_list (default [] ai_breakfast_names)) in
  let ai_set := ai_set_of ai_breakfast_names in
  let total_breakfast_qty :=
    fold_left
      (fun total it =>
         if is_breakfast use_ai ai_set (lower (item_name it))
         then (total + total_quantity it)%Z else total)
      its 0%Z in
  {| groundnut_chutney := total_breakfast_qty;
     tomato_chutney := total_breakfast_qty;
     karam_podi := total_breakfast_qty;
     sambar := total_breakfast_qty |}.

(** [breakdown[name] = breakdown.get(name, 0) + qty], in insertion order *)
Fixpoint add_quantity (name : string) (qty : Z) (d : list (string * Z))
  : list (string * Z) :=
  match d with
  | [] => [(name, qty)]
  | (n, q) :: rest =>
      if String.eqb n name then (n, (q + qty)%Z) :: rest
      else (n, q) :: add_quantity name qty rest
  end.

Definition _breakfast_breakdown_from_items (its : list report_item)
  (ai_breakfast_names : option (list string)) : list (string * Z) :=
  let ai_set := ai_set_of ai_breakfast_names in
  let use_ai := negb (is_empty_list ai_set) in
  fold_left
    (fun breakdown it =>
       if is_breakfast use_ai ai_set (lower (item_name it))
       then add_quantity (item_name it) (total_quantity it) breakdown
       else breakdown)
    its [].

End AdvancedSalesReportParser.

(** * [python/food_validator.py] *)

Module food_validator.

Definition ALLOWED_CATEGORIES : list string :=
  [ "meat"; "seafood"; "vegetables"; "dairy"; "spices"; "grains"; "beverages";
    "oils"; "fruits"; "herbs"; "pulses"; "nuts"; "condiments"; "bakery"; "eggs";
    "frozen"; "cereals" ].

Definition FOOD_KEYWORDS : list string :=
  [ "tomato"; "tomatoes"; "potato"; "potatoes"; "onion"; "onions"; "garlic";
    "ginger"; "chili"; "chilli"; "capsicum"; "pepper";
    "cabbage"; "carrot"; "beans"; "pea"; "peas"; "spinach"; "lettuce";
    "coriander"; "cilantro"; "mint"; "basil"; "parsley"; "dill";
    "chicken"; "mutton"; "beef"; "pork"; "fish"; "prawn"; "prawns"; "shrimp";
    "salmon"; "tuna"; "egg"; "eggs";
    "milk"; "curd"; "yogurt"; "paneer"; "cheese"; "butter"; "ghee"; "cream";
    "rice"; "wheat"; "flour"; "maida"; "atta"; "rava"; "suji"; "semolina";
    "corn"; "oats"; "barley";
    "sugar"; "salt"; "turmeric"; "cumin"; "coriander powder"; "chilli powder";
    "cardamom"; "cinnamon"; "clove"; "mustard"; "fenugreek";
    "oil"; "sunflower oil"; "groundnut oil"; "coconut oil"; "olive oil";
    "apple"; "banana"; "orange"; "mango"; "grape"; "grapes"; "pineapple";
    "papaya"; "lemon"; "lime";
    "almond"; "cashew"; "raisins"; "walnut"; "peanut"; "pistachio"; "dates";
    "water"; "soda"; "juice"; "tea"; "coffee"; "milkshake"; "buttermilk" ].

Definition BLACKLIST_TERMS : list string :=
  [ "invoice"; "gst"; "sgst"; "cgst"; "igst"; "bill"; "token"; "delivery";
    "charge"; "charges"; "tips"; "tip"; "discount";
    "room"; "table"; "service"; "pvt"; "ltd"; "private"; "limited"; "street";
    "road"; "lane"; "nagar"; "colony"; "area"; "landmark";
    "gstin"; "pan"; "hsn"; "sac"; "qty"; "mrp"; "rate"; "amount"; "total";
    "subtotal"; "roundoff"; "round off" ].

Definition PERSON_OR_PLACE : list string :=
  [ "ram"; "shyam"; "raju"; "rahul"; "ramesh"; "suresh"; "anita"; "sunita";
    "priya"; "amit"; "rohit"; "arun"; "kumar";
    "shiva"; "shankar"; "shankar"; "ganesh"; "krishna"; "alak"; "anshul";
    "suraj"; "vikram"; "vijay";
    "bangalore"; "bengaluru"; "mumbai"; "delhi"; "chennai"; "kolkata";
    "hyderabad"; "pune"; "ahmedabad"; "kochi"; "cochin" ].

Definition MONTHS : list string :=
  [ "january"; "february"; "march"; "april"; "may"; "june"; "july"; "august";
    "september"; "october"; "november"; "december";
    "jan"; "feb"; "mar"; "apr"; "jun"; "jul"; "aug"; "sep"; "sept"; "oct";
    "nov"; "dec" ].

(** [x in set] *)
Definition mem (x : string) (l : list string) : bool := existsb (String.eqb x) l.

(** [bool(tokens & words)] *)
Definition meets (tokens words : list string) : bool :=
  existsb (fun t => mem t words) tokens.

Definition is_mostly_digits_or_codes (s : string) : bool :=
  let s2 := re_sub (Cls (cls_not is_alnum)) (fun _ => "") s in
  if is_empty s2 then true
  else
    let digits := scount is_digit s2 in
    let letters := scount is_alpha s2 in
    (letters <? digits)%nat || (letters =? 0)%nat.

(** [any(w in n for w in words)] *)
Definition any_in (words : list string) (n : string) : bool :=
  existsb (fun w => contains w n) words.

Definition guess_category (name : string) : string :=
  let n := lower name in
  if any_in ["chicken"; "mutton"; "beef"; "pork"] n then "Meat"
  else if any_in ["fish"; "prawn"; "shrimp"; "salmon"; "tuna"] n then "Seafood"
  else if any_in ["milk"; "curd"; "yogurt"; "paneer"; "cheese"; "butter"; "ghee";
                  "cream"] n then "Dairy"
  else if any_in ["oil"; "sunflower"; "groundnut"; "coconut"; "olive"] n then "Oils"
  else if any_in ["turmeric"; "cumin"; "coriander"; "cardamom"; "cinnamon"; "clove";
                  "mustard"; "fenugreek"; "spice"; "masala"] n then "Spices"
  else if any_in ["rice"; "wheat"; "flour"; "maida"; "atta"; "rava"; "suji";
                  "semolina"; "oats"; "barley"; "corn"] n then "Grains"
  else if any_in ["tea"; "coffee"; "juice"; "soda"; "water"; "milkshake";
                  "buttermilk"] n then "Beverages"
  else if any_in ["apple"; "banana"; "orange"; "mango"; "grape"; "pineapple";
                  "papaya"] n then "Fruits"
  else if any_in ["coriander"; "cilantro"; "mint"; "basil"; "parsley"; "dill"] n
  then "Herbs"
  else if any_in ["tomato"; "potato"; "onion"; "garlic"; "ginger"; "cabbage";
                  "carrot"; "beans"; "pea"; "spinach"; "lettuce"; "capsicum";
                  "pepper"] n then "Vegetables"
  else "".

(** the result dictionary *)
Record validation : Type := {
  valid : bool;
  confidence : float;
  reason : string;
  suggested_category : string;
  normalized_name : string
}.

(** the tokens of the name: pattern "[a-zA-Z]+" *)
Definition tokens_of (lower_name : string) : list string :=
  map m_text (re_findall (plus is_alpha) lower_name).

(** the confidence before it is clamped, from the six tests of the function *)
Definition raw_confidence (allowed blacklisted person month code food : bool)
  : float :=
  let c := 0.50%float in
  let c := if allowed then (c + 0.25)%float else c in
  let c := if blacklisted then (c - 0.4)%float else c in
  let c := if person then (c - 0.3)%float else c in
  let c := if month then (c - 0.2)%float else c in
  let c := if code then (c - 0.5)%float else c in
  if food then (c + 0.25)%float else c.

(** [max(0.0, min(1.0, confidence))] *)
Definition clamp (c : float) : float := py_max 0 (py_min 1 c).

Definition add_part (b : bool) (part : string) (parts : list string) : list string :=
  if b then (parts ++ [part])%list else parts.

(** [validate_item]; an argument that is [None] is the empty string *)
Definition validate_item (name category : string) : validation :=
  let n := strip name in
  let c := strip category in
  let lower_name := lower n in
  let tokens := tokens_of lower_name in
  if is_empty n then
    {| valid := false; confidence := 0; reason := "Empty item name";
       suggested_category := ""; normalized_name := "" |}
  else
    let allowed := mem (lower c) ALLOWED_CATEGORIES in
    let blacklisted := meets tokens BLACKLIST_TERMS in
    let person := meets tokens PERSON_OR_PLACE in
    let month := meets tokens MONTHS in
    let flagged_code := is_mostly_digits_or_codes lower_name in
    let has_food_keyword := meets tokens FOOD_KEYWORDS in
    let suggested := guess_category n in
    let parts := add_part (negb allowed) ("Category '" ++ c ++ "' is not allowed") [] in
    let parts := add_part blacklisted "Contains billing/vendor terms" parts in
    let parts := add_part person "Contains name/place terms" parts in
    let parts := add_part month "Contains month name (likely date)" parts in
    let parts := add_part flagged_code "Looks like a code/number, not a food item" parts in
    let parts := add_part (negb (is_empty suggested)
                           && negb (String.eqb (lower suggested) (lower c)))
                   ("Suggested category: " ++ suggested) parts in
    let conf := clamp (raw_confidence allowed blacklisted person month flagged_code
                         has_food_keyword) in
    {| valid := (0.6 <=? conf)%float && negb flagged_code && has_food_keyword;
       confidence := py_round conf 2;
       reason := String.concat "; " parts;
       suggested_category := suggested;
       normalized_name := lower_name |}.

End food_validator.

(** * [services/menu_parser.py] *)

Module menu_parser.

(** an entry of the menu: the keys [id] and [name] of its dictionary *)
Record menu_item : Type := { id : Z; name : string }.

(** the result dictionary; a failure has no [count] *)
Record result : Type := {
  success : bool;
  items : list menu_item;
  count : option nat
}.

(** pattern "^[\d\sR\-\.]+$", where R stands for the rupee sign: the class
    is repeated, and is written for 7-bit text, where the sign does not
    occur *)
Definition only_numbers : regex :=
  seqs [Bol; plus (cls_or is_digit (cls_or is_space (one_of "-."))); Eol].

(** pattern "[R\d\-\.\s]+$", the class written for 7-bit text as above *)
Definition trailing_price : regex :=
  Seq (plus (cls_or is_digit (cls_or (one_of "-.") is_space))) Eol.

(** pattern "[^\w\s]" *)
Definition punctuation : regex := Cls (cls_not (cls_or is_word is_space)).

Definition clean_line_of (line : string) : string :=
  let clean_line := strip (re_sub trailing_price (fun _ => "") line) in
  strip (re_sub punctuation (fun _ => " ") clean_line).

(** [len(set(line_words) & set(item_words))] *)
Definition common_words (line_words item_words : list string) : nat :=
  List.length
    (nodup string_dec (filter (fun w => existsb (String.eqb w) item_words) line_words)).

Section Extract.

(** [load_menu_items()] reads the menu from [data/menuItems.js], outside the
    sources, and [similarity] is the ratio of [difflib.SequenceMatcher] on the
    lowercased strings: the menu and the ratio are parameters. *)
Variable menu_items : list menu_item.
Variable similarity : string -> string -> float.

(** [any(item['id'] == menu_item['id'] for item in found_items)] *)
Definition known (found_items : list menu_item) (it : menu_item) : bool :=
  existsb (fun item => Z.eqb (id item) (id it)) found_items.

(** the body of the loop over the menu, for one line *)
Definition consider (clean_line : string) (found_items : list menu_item)
  (it : menu_item) : list menu_item :=
  let item_name := name it in
  if String.eqb (lower clean_line) (lower item_name) && negb (known found_items it)
  then (found_items ++ [it])%list
  else if (0.7 <? similarity clean_line item_name)%float && negb (known found_items it)
  then (found_items ++ [it])%list
  else
    let line_words := split_ws (lower clean_line) in
    let item_words := split_ws (lower item_name) in
    if (2 <=? List.length line_words)%nat && (2 <=? List.length item_words)%nat
       && (Nat.min 2 (List.length item_words) <=? common_words line_words item_words)%nat
       && negb (known found_items it)
    then (found_items ++ [it])%list
    else found_items.

(** the body of the loop over the lines *)
Definition scan_line (found_items : list menu_item) (line : string)
  : list menu_item :=
  let line := strip line in
  if is_empty line || (String.length line <? 3)%nat then found_items
  else if is_some (re_match only_numbers line) then found_items
  else
    let clean_line := clean_line_of line in
    if (String.length clean_line <? 3)%nat then found_items
    else fold_left (consider clean_line) menu_items found_items.

Definition extract_menu_items_from_text (ocr_text : string) : result :=
  if is_empty_list menu_items
  then {| success := false; items := []; count := None |}
  else
    let found_items := fold_left scan_line (split_on LF ocr_text) [] in
    {| success := true; items := found_items;
       count := Some (List.length found_items) |}.

End Extract.

End menu_parser.

(** * Vocabulary of the properties *)

(** [cat] is the first category of [table] with a keyword that hits *)
Definition wins (hit : string -> bool) (table : list (string * list string))
  (cat : string) : Prop :=
  exists before keywords after,
    table = (before ++ (cat, keywords) :: after)%list
    /\ existsb hit keywords = true
    /\ Forall (fun ck => existsb hit (snd ck) = false) before.

(** the closed vocabulary of categories *)
Definition vocabulary : list string :=
  (map fst EnhancedReceiptParser.categories ++ ["other"])%list.

(** The normalisation as the specification words it: ten digits as they are;
    eleven digits with a leading 0, the last ten; twelve or more digits
    starting with 91, "+91" and the last ten; eleven digits starting with 1,
    "+1" and the last ten; otherwise the digits after a "+". *)
Definition claimed_normalize (digits : string) : string :=
  let n := String.length digits in
  if (n =? 10)%nat then digits
  else if (n =? 11)%nat && startswith "0" digits then last_n 10 digits
  else if (12 <=? n)%nat && startswith "91" digits then "+91" ++ last_n 10 digits
  else if (n =? 11)%nat && startswith "1" digits then "+1" ++ last_n 10 digits
  else "+" ++ digits.

Definition is_nan (x : float) : Prop := Prim2SF x = S754_nan.

(** the key of the weight branch *)
Definition weight_key (it : EnhancedReceiptParser.item) : EnhancedReceiptParser.key :=
  (lower (EnhancedReceiptParser.item_name it), EnhancedReceiptParser.quantity it,
   py_round (EnhancedReceiptParser.unit_price it) 4).

(** an item of the weight branch: the branch of confidence 0.85 *)
Definition of_weight_branch (raw : EnhancedReceiptParser.item) : bool :=
  match EnhancedReceiptParser.confidence raw with
  | Some c => (c =? 0.85)%float
  | None => false
  end.

(** the key under which the loop records the dictionary [raw] of a branch:
    its name as matched, in lower case, its quantity and its unit price, the
    unit price being rounded to four decimals in the weight branch *)
Definition recorded_key (raw : EnhancedReceiptParser.item) : EnhancedReceiptParser.key :=
  if of_weight_branch raw then weight_key raw else EnhancedReceiptParser.item_key raw.

(** a key recorded later differs from every key recorded before it *)
Definition distinct_keys (ks : list EnhancedReceiptParser.key) : Prop :=
  ForallOrdPairs (fun earlier later => EnhancedReceiptParser.key_eqb later earlier = false) ks.

(** between the states [st] and [st'] of the loop the dictionaries [raws]
    were appended, each one enhanced, and their keys recorded; none of the
    keys was recorded in [st], and no two of them are equal *)
Definition appended (st st' : EnhancedReceiptParser.pstate)
  (raws : list EnhancedReceiptParser.item) : Prop :=
  EnhancedReceiptParser.items st'
  = (EnhancedReceiptParser.items st
     ++ map EnhancedReceiptParser._enhance_item raws)%list
  /\ EnhancedReceiptParser.added_keys st'
     = (EnhancedReceiptParser.added_keys st ++ map recorded_key raws)%list
  /\ Forall (fun raw => EnhancedReceiptParser.key_in (recorded_key raw)
                          (EnhancedReceiptParser.added_keys st) = false) raws
  /\ distinct_keys (map recorded_key raws).

(** the key the specification names: the name of the item as emitted, in
    lower case, the quantity, and the unit price rounded to four decimals *)
Definition claimed_key (it : EnhancedReceiptParser.item) : EnhancedReceiptParser.key :=
  (lower (EnhancedReceiptParser.item_name it), EnhancedReceiptParser.quantity it,
   py_round (EnhancedReceiptParser.unit_price it) 4).

Module SR := AdvancedSalesReportParser.

(** the rows of an item, in the order of the report *)
Definition group_of (name : string) (rows : list SR.row) : list SR.row :=
  filter (fun r => String.eqb name (SR.row_item r)) rows.

Definition zsum (l : list Z) : Z := fold_right Z.add 0%Z l.

(** not below: the order of the output *)
Definition not_below (x y : SR.report_item) : Prop :=
  SR.num_ltb (SR.total_amount x) (SR.total_amount y) = false.

(** the entry [a] of the dictionary sums the rows of [name] among [rows] *)
Definition agg_ok (rows : list SR.row) (name : string) (a : SR.agg) : Prop :=
  exists first rest,
    group_of name rows = first :: rest
    /\ SR.agg_quantity a = zsum (map SR.row_quantity (first :: rest))
    /\ SR.agg_unit a = SR.row_unit first
    /\ SR.num_sum (SR.row_amount first) (map SR.row_amount rest) = Some (SR.agg_amount a).

Definition agg_inv (rows : list SR.row) (d : SR.aggregation) : Prop :=
  NoDup (map fst d)
  /\ (forall name, In name (map fst d) <-> In name (map SR.row_item rows))
  /\ Forall (fun na => agg_ok rows (fst na) (snd na)) d.

(** the report of the counterexample: a header and one row *)
Definition one_row_report : string :=
  "Item  Qty  Amount" ++ String LF "Dosa  3 plates  10".

(** [rest] does not begin with a character of the class [p] *)
Definition starts_out (p : ascii -> bool) (rest : string) : bool :=
  match rest with
  | EmptyString => true
  | String a _ => negb (p a)
  end.

(** a numeric token: digits, or digits, a dot and digits *)
Definition is_number (s : string) : bool :=
  let (ip, rest) := span is_digit s in
  negb (is_empty ip)
  && match rest with
     | EmptyString => true
     | String c fp => Ascii.eqb c "." && negb (is_empty fp) && sforall is_digit fp
     end.

Definition digit_or_dot (c : ascii) : bool := is_digit c || Ascii.eqb c ".".

(** the class of the name group without the hyphen *)
Definition plain_char (c : ascii) : bool := is_alnum c || one_of " /&()" c.

(** a name: a letter, then plain characters, the last of which is no blank *)
Definition well_formed_name (name : string) : bool :=
  match name with
  | String c0 rest =>
      is_alpha c0 && sforall plain_char rest
      && negb match last_char name None with
              | Some c => Ascii.eqb c " "
              | None => true
              end
  | EmptyString => false
  end.

(** the line "Name - Q x P = T" *)
Definition mult_line (name q p t : string) : string :=
  name ++ " - " ++ q ++ " x " ++ p ++ " = " ++ t.

(** evaluates the closed test of the conditional at the head of the goal *)
Ltac decide_test :=
  match goal with
  | |- (if ?b then _ else _) = _ =>
      let v := eval vm_compute in b in change b with v; cbv iota
  end.

(** every dot of the string is followed by a digit *)
Fixpoint dots_inside (s : string) : bool :=
  match s with
  | EmptyString => true
  | String c rest =>
      (if Ascii.eqb c "." then negb (starts_out is_digit rest) else true)
      && dots_inside rest
  end.

(** the characters of a line "Name - Q x P = T" *)
Definition line_char (c : ascii) : bool :=
  plain_char c || digit_or_dot c || one_of "-x=" c.

(** the texts a pattern can match, the anchors and the lookahead taken as
    matching the empty text *)
Fixpoint lang (r : regex) (t : string) : Prop :=
  match r with
  | Eps | Bol | Eol | Wordb | Ahead _ => t = ""
  | Cls p => exists a, t = String a "" /\ p a = true
  | Seq r1 r2 => exists t1 t2, t = t1 ++ t2 /\ lang r1 t1 /\ lang r2 t2
  | Alt r1 r2 => lang r1 t \/ lang r2 t
  | Rep _ lo hi p =>
      sforall p t = true /\ (lo <= String.length t)%nat
      /\ match hi with Some h => (String.length t <= h)%nat | None => True end
  | Grp _ r1 => lang r1 t
  end.

(** every capture satisfies the property [G] of its group *)
Definition caps_ok (G : nat -> string -> Prop) (c : caps) : Prop :=
  Forall (fun nt => G (fst nt) (snd nt)) c.

(** the property [G] holds of every text a group of the pattern can capture *)
Fixpoint grp_ok (G : nat -> string -> Prop) (r : regex) : Prop :=
  match r with
  | Seq r1 r2 | Alt r1 r2 => grp_ok G r1 /\ grp_ok G r2
  | Grp n r1 => (forall t, lang r1 t -> G n t) /\ grp_ok G r1
  | Ahead r1 => grp_ok G r1
  | _ => True
  end.

(** the groups that take part in every match of the pattern *)
Fixpoint sure (r : regex) : list nat :=
  match r with
  | Seq r1 r2 => sure r1 ++ sure r2
  | Grp n r1 => n :: sure r1
  | _ => []
  end.

(** the groups captured in [c] are captured in [c'], and so are those of
    [groups] *)
Definition caps_grow (groups : list nat) (c c' : caps) : Prop :=
  forall n, In n groups \/ is_some (group n c) = true -> is_some (group n c') = true.

(** white space, one character or more *)
Definition blanks (s : string) : bool := negb (is_empty s) && sforall is_space s.

(** [s] is empty, or ends in a character that is neither a digit nor a dot *)
Definition ends_outside_number (s : string) : bool :=
  match last_char s None with
  | Some c => negb (digit_or_dot c)
  | None => true
  end.

(** a line that ends in three numbers: what precedes them, and the numbers
    with the blanks between them *)
Definition triplet_line (before ta s1 tb s2 tc : string) : string :=
  before ++ ta ++ s1 ++ tb ++ s2 ++ tc.

(** the tolerance written out: [x] and [y] differ by 0.5 at most, or, when
    neither is zero, by 2% at most of the larger of their absolute values *)
Definition within_tolerance (x y : float) : bool :=
  if (x =? 0)%float || (y =? 0)%float
  then (abs (x - y) <=? 0.5)%float
  else (abs (x - y) <=? py_max (abs x) (abs y) * 0.02)%float
       || (abs (x - y) <=? 0.5)%float.

(** the number of digits of [s] that follow a blank, [b] telling whether a
    blank precedes [s] *)
Fixpoint heads (b : bool) (s : string) : nat :=
  match s with
  | EmptyString => O
  | String a rest => (if b && is_digit a then 1 else 0) + heads (is_space a) rest
  end.

(** whether [s] ends in a blank, [b] telling whether a blank precedes [s] *)
Definition ends_blank (b : bool) (s : string) : bool :=
  match last_char s None with
  | Some c => is_space c
  | None => b
  end.

(** the quantity cell of a row as the report writes it: the digits at its
    start, and the unit token that follows them, blanks apart *)
Definition written_digits (cell : string) : string := fst (span is_digit cell).

Definition written_unit_token (cell : string) : string :=
  fst (span is_word (snd (span is_space (snd (span is_digit cell))))).

Definition written_quantity (cell : string) : Z :=
  digits_value 0 (written_digits cell).

Definition written_unit (cell : string) : string := lower (written_unit_token cell).

(** a quantity cell holds a number and a unit token *)
Definition proper_quantity (cell : string) : bool :=
  negb (is_empty (written_digits cell)) && negb (is_empty (written_unit_token cell)).

(** the cells of the lines that hold a row: the lines the loop does not pass
    over *)
Definition row_lines (ocr_text : string) : list (list string) :=
  let lines := SR.report_lines ocr_text in
  filter (fun cells => negb (SR.passed_over (SR.is_summary lines) cells))
    (map SR.row_cells lines).

(** the row that a line writes: the item, the number and the unit token of
    the quantity cell, and the number of the amount cell *)
Definition written_row (is_summary_format : bool) (cells : list string) : SR.row :=
  {| SR.row_item := SR.item_cell is_summary_format cells;
     SR.row_quantity := written_quantity (SR.quantity_cell is_summary_format cells);
     SR.row_unit := written_unit (SR.quantity_cell is_summary_format cells);
     SR.row_amount := SR.PFloat (to_float (SR.amount_cell is_summary_format cells)) |}.

Definition written_rows (ocr_text : string) : list SR.row :=
  map (written_row (SR.is_summary (SR.report_lines ocr_text))) (row_lines ocr_text).

(** every row has a quantity with its unit, and a number as its amount *)
Definition proper_cells (is_summary_format : bool) (cells : list string) : bool :=
  proper_quantity (SR.quantity_cell is_summary_format cells)
  && is_number (SR.amount_cell is_summary_format cells).

Definition proper_report (ocr_text : string) : bool :=
  forallb (proper_cells (SR.is_summary (SR.report_lines ocr_text))) (row_lines ocr_text).

(** the report of the witness: two items on three rows, the second item with
    the larger amount *)
Definition three_row_report : string :=
  "Item  Qty  Amount" ++ String LF
    ("Dosa  3 plates  30" ++ String LF
       ("Idli  2 plates  80" ++ String LF "Dosa  2 pcs  25.5")).

(** the characters of a cleaned item name: a word character, a space, a
    hyphen or a dot *)
Definition clean_char (c : ascii) : bool := is_word c || one_of " -." c.

(** no whitespace but the space *)
Definition plain_blank (c : ascii) : bool := negb (is_space c) || Ascii.eqb c " ".

(** case analysis on the 256 characters, each case by evaluation *)
Ltac ascii_cases c :=
  destruct c as [[] [] [] [] [] [] [] []]; vm_compute; try reflexivity; try congruence;
  auto.

(** a number: neither an infinity nor NaN *)
Definition is_finite (x : float) : Prop :=
  match Prim2SF x with
  | S754_zero _ | S754_finite _ _ _ => True
  | _ => False
  end.

(** [float(t)] returns a number: it does not raise *)
Definition converts (t : string) : Prop := is_some (py_float t) = true.

(** in every match of [r] in a text of 7-bit characters, the groups [nums]
    hold texts that [float] accepts *)
Definition groups_convert (r : regex) (nums : list nat) : Prop :=
  forall pv s m,
    seven_bit s = true -> match_here r pv s = Some m ->
    Forall (fun n => converts (grp n m)) nums.

(** the property of the captures: the groups [nums] convert *)
Definition numeric_groups (nums : list nat) (n : nat) (t : string) : Prop :=
  In n nums -> converts t.

(** the quantities added up in the dictionary of the aggregator *)
Definition quantity_sum (d : SR.aggregation) : Z :=
  zsum (map (fun na => SR.agg_quantity (snd na)) d).

(** the report without rows *)
Definition empty_report : SR.report :=
  {| SR.total_revenue := SR.PInt 0; SR.total_items_sold := 0%Z;
     SR.unique_items_count := 0%nat; SR.items := [] |}.

(** the first group of the quantity patterns is made of digits *)
Definition digit_group (n : nat) (t : string) : Prop :=
  n = 1%nat -> sforall is_digit t = true.

(** an amount as [fallback_parsing] reads it: the [int] 0 or a [float] *)
Definition read_amount (a : SR.pynum) : Prop :=
  a = SR.PInt 0 \/ exists x, a = SR.PFloat x.

(** the entry of an item whose amount is a [float] and whose quantity is too
    large for one: the division raises [OverflowError] *)
Definition overflows (na : string * SR.agg) : Prop :=
  (0 < SR.agg_quantity (snd na))%Z
  /\ float_of_int (SR.agg_quantity (snd na)) = None
  /\ exists x, SR.agg_amount (snd na) = SR.PFloat x.

(** [n] zeros *)
Fixpoint zeros (n : nat) : string :=
  match n with
  | O => EmptyString
  | S k => String "0" (zeros k)
  end.

(** a report with one row, of 10^309 plates *)
Definition huge_quantity_report : string :=
  "Item  Qty  Amount" ++ String LF ("Dosa  1" ++ zeros 309 ++ " plates  10").

(** the confidences and the units of the branches of the deterministic
    parser *)
Definition branch_confidences : list float := [0.95; 0.9; 0.85; 0.8]%float.
Definition branch_units : list string := ["pieces"; "kg"; "gram"; "ml"; "liter"].

(** an item as the deterministic parser returns it *)
Definition well_formed_item (it : EnhancedReceiptParser.item) : Prop :=
  sforall clean_char (EnhancedReceiptParser.item_name it) = true
  /\ In (EnhancedReceiptParser.unit it) branch_units
  /\ (exists t, EnhancedReceiptParser.total_price it = Some t)
  /\ (exists cat, EnhancedReceiptParser.category it = Some cat /\ In cat vocabulary)
  /\ (exists cf, EnhancedReceiptParser.confidence it = Some cf
                 /\ In cf branch_confidences)
  /\ (exists days, EnhancedReceiptParser.estimated_expiry it = Some days
                   /\ (3 <= days <= 3650)%Z).

(** the dictionary of a branch, before it is enhanced *)
Definition branch_item (raw : EnhancedReceiptParser.item) : Prop :=
  In (EnhancedReceiptParser.unit raw) branch_units
  /\ (exists t, EnhancedReceiptParser.total_price raw = Some t)
  /\ EnhancedReceiptParser.category raw = None
  /\ (exists cf, EnhancedReceiptParser.confidence raw = Some cf
                 /\ In cf branch_confidences).

(** the unit group of the weight pattern, in lower case *)
Definition weight_unit_group (n : nat) (t : string) : Prop :=
  n = EnhancedReceiptParser.g_unit ->
  In (lower t) ["kg"; "kgs"; "g"; "gm"; "gram"; "grams"; "ml"; "l"; "ltr"].

(** two continuations that succeed together, whatever text and captures they
    are given *)
Definition same_success {R1 R2 : Type} (k1 : cont R1) (k2 : cont R2) : Prop :=
  forall t t' pv s c c', is_some (k1 t pv s c) = is_some (k2 t' pv s c').

(** the two patterns of [_extract_total_amount] that decide *)
Definition deciding_patterns : list regex :=
  [ EnhancedReceiptParser.amount_after (liti "total");
    EnhancedReceiptParser.amount_after (liti "amount") ].

(** an item as the fallback parser returns it: the dictionary of one of its
    four patterns, which is not enhanced *)
Definition fallback_item (it : EnhancedReceiptParser.item) : Prop :=
  EnhancedReceiptParser.category it = None
  /\ EnhancedReceiptParser.estimated_expiry it = None
  /\ (exists t, EnhancedReceiptParser.total_price it = Some t)
  /\ (exists cf, EnhancedReceiptParser.confidence it = Some cf
                 /\ In cf [0.9; 0.85; 0.7; 0.8]%float).

(** no line feed *)
Definition not_lf (c : ascii) : bool := negb (Ascii.eqb c LF).

(** the lines that [_clean_text] keeps: trimmed, and not empty *)
Definition clean_lines (text : string) : list string :=
  filter (fun l => negb (is_empty l)) (map strip (split_on LF text)).

(** a line as [_clean_text] leaves it *)
Definition clean_line (l : string) : Prop :=
  is_empty l = false /\ strip l = l /\ sforall not_lf l = true.

(** the verdict of the validator from its six tests: a food keyword, no code,
    and at most one of the three penalties when the category is allowed, none
    when it is not *)
Definition verdict (allowed blacklisted person month code food : bool) : bool :=
  food && negb code
  && (if allowed
      then negb (blacklisted && person) && negb (blacklisted && month)
           && negb (person && month)
      else negb (blacklisted || person || month)).

(** the items found so far: no id twice, and all of them on the menu *)
Definition found_once (menu_items found_items : list menu_parser.menu_item) : Prop :=
  NoDup (map menu_parser.id found_items) /\ incl found_items menu_items.

(** a menu of two dishes *)
Definition two_dishes : list menu_parser.menu_item :=
  [ {| menu_parser.id := 1; menu_parser.name := "Masala Dosa" |};
    {| menu_parser.id := 2; menu_parser.name := "Idli" |} ].

(** * Properties *)

(** ** The categorizer *)

Section FirstCategory.

Variable hit : string -> bool.

Lemma first_category_wins table cat :
  EnhancedReceiptParser.first_category hit table = Some cat <-> wins hit table cat.
Proof.
  induction table as [|[c kws] rest IH]; simpl.
  - split; [discriminate|].
    intros (before & k & after & E & _). destruct before; discriminate.
  - destruct (existsb hit kws) eqn:Hk.
    + split.
      * intros [= <-]. exists [], kws, rest. repeat split; auto.
      * intros (before & k & after & E & Hhit & Hbefore).
        destruct before as [|[c' k'] before]; simpl in E.
        -- injection E as <- _ _. reflexivity.
        -- injection E as <- <- _. inversion Hbefore as [|? ? Hf _]; subst.
           simpl in Hf. congruence.
    + rewrite IH. split.
      * intros (before & k & after & -> & Hhit & Hbefore).
        exists ((c, kws) :: before), k, after. repeat split; auto.
      * intros (before & k & after & E & Hhit & Hbefore).
        destruct before as [|[c' k'] before]; simpl in E.
        -- injection E as <- <- _. congruence.
        -- injection E as <- <- ->. inversion Hbefore; subst.
           exists before, k, after. repeat split; auto.
Qed.

Lemma first_category_none table :
  EnhancedReceiptParser.first_category hit table = None
  <-> Forall (fun ck => existsb hit (snd ck) = false) table.
Proof.
  induction table as [|[c kws] rest IH]; simpl.
  - split; auto.
  - destruct (existsb hit kws) eqn:Hk.
    + split; [discriminate|]. intros H. inversion H; subst. simpl in *. congruence.
    + rewrite IH. split; intros H.
      * constructor; auto.
      * inversion H; auto.
Qed.

Lemma first_category_in table cat :
  EnhancedReceiptParser.first_category hit table = Some cat -> In cat (map fst table).
Proof.
  induction table as [|[c kws] rest IH]; simpl; [discriminate|].
  destruct (existsb hit kws); [intros [= <-]; auto | auto].
Qed.

End FirstCategory.

Lemma categorize_in_vocabulary (table : list (string * list string)) (name : string) :
  In (EnhancedReceiptParser._categorize_item_in table name)
    (map fst table ++ ["other"])%list.
Proof.
  unfold EnhancedReceiptParser._categorize_item_in.
  destruct (EnhancedReceiptParser.first_category _ table) eqn:E1.
  - apply in_or_app. left. eapply first_category_in; eauto.
  - destruct (EnhancedReceiptParser.first_category
                (EnhancedReceiptParser.fuzzy_hit (lower name)) table) eqn:E2.
    + apply in_or_app. left. eapply first_category_in; eauto.
    + apply in_or_app. right. simpl. auto.
Qed.

(** C9. The categorizer is total: every item name (the empty one too) gets
    one category of the vocabulary, the categories of the table and "other",
    never the empty string.  A category found by direct containment (keyword
    in name, or name in keyword) is returned before the token overlap is
    tried; in each pass the first category of the table that matches wins;
    without a match the result is "other".  This holds for every table whose
    category names are not empty, and so for the table of the class. *)
Theorem categorize_item_total_first_match
  (table : list (string * list string)) (name : string) :
  let r := EnhancedReceiptParser._categorize_item_in table name in
  let low := lower name in
  let no_hit hit := Forall (fun ck => existsb hit (snd ck) = false) table in
  In r (map fst table ++ ["other"])%list
  /\ (Forall (fun ck => fst ck <> "") table -> r <> "")
  /\ (forall cat, wins (EnhancedReceiptParser.direct_hit low) table cat -> r = cat)
  /\ (no_hit (EnhancedReceiptParser.direct_hit low) ->
      forall cat, wins (EnhancedReceiptParser.fuzzy_hit low) table cat -> r = cat)
  /\ (no_hit (EnhancedReceiptParser.direct_hit low) ->
      no_hit (EnhancedReceiptParser.fuzzy_hit low) -> r = "other")
  /\ In (EnhancedReceiptParser._categorize_item name) vocabulary
  /\ EnhancedReceiptParser._categorize_item name <> "".
Proof.
  intros r low no_hit.
  pose proof (categorize_in_vocabulary table name) as Hin. fold r in Hin.
  split; [exact Hin|]. split.
  { intros Hkeys E. rewrite E in Hin. apply in_app_or in Hin as [Hin|[Hin|[]]].
    - apply in_map_iff in Hin as (ck & Hfst & Hck).
      exact (proj1 (Forall_forall _ _) Hkeys ck Hck Hfst).
    - discriminate. }
  unfold r, EnhancedReceiptParser._categorize_item_in, no_hit. fold low.
  split; [|split; [|split; [|split]]].
  - intros cat Hw. apply first_category_wins in Hw. rewrite Hw. reflexivity.
  - intros Hd cat Hw. apply first_category_none in Hd. rewrite Hd.
    apply first_category_wins in Hw. rewrite Hw. reflexivity.
  - intros Hd Hf. apply first_category_none in Hd. apply first_category_none in Hf.
    rewrite Hd, Hf. reflexivity.
  - apply categorize_in_vocabulary.
  - intros E.
    pose proof (categorize_in_vocabulary EnhancedReceiptParser.categories name) as H.
    unfold EnhancedReceiptParser._categorize_item in E. rewrite E in H.
    simpl in H. repeat (destruct H as [H|H]; [discriminate|]). exact H.
Qed.

(** ** Strings and matches: general facts *)

Lemma eqb_ascii_refl (a : ascii) : Ascii.eqb a a = true.
Proof. apply Ascii.eqb_refl. Qed.

Lemma startswith_nil (s : string) : startswith "" s = true.
Proof. destruct s; reflexivity. Qed.

Lemma contains_of_startswith (t s : string) :
  startswith t s = true -> contains t s = true.
Proof. intros H. destruct s; simpl in *; rewrite H; reflexivity. Qed.

Lemma contains_tail (t : string) (a : ascii) (s : string) :
  contains t s = true -> contains t (String a s) = true.
Proof. intros H. simpl. rewrite H. apply orb_true_r. Qed.

Lemma rstrip_by_all (p : ascii -> bool) (s : string) :
  sforall p s = true -> rstrip_by p s = "".
Proof.
  induction s as [|c s IH]; simpl; [reflexivity|].
  intros H. apply andb_true_iff in H as [Hc Hs].
  rewrite (IH Hs), Hc. reflexivity.
Qed.

(** a text of blanks only strips to the empty string *)
Lemma strip_blank (s : string) : sforall is_space s = true -> strip s = "".
Proof.
  intros H. unfold strip, strip_by. rewrite rstrip_by_all by exact H. reflexivity.
Qed.

(** the text matched by a repeated class is the text accumulated before it
    followed by a prefix of the subject *)
Lemma rep_greedy_prefix (p : ascii -> bool) (s : string) :
  forall lo hi acc pv c m,
    rep_greedy p lo hi k_done acc pv s c = Some m ->
    exists t, m_text m = acc ++ t /\ startswith t s = true.
Proof.
  induction s as [|a rest IH]; intros lo hi acc pv c m; simpl.
  - destruct lo; [|discriminate]. intros [= <-]. exists "". simpl.
    split; [|reflexivity]. clear. induction acc; simpl; congruence.
  - assert (Hstop : match lo with
                    | O => k_done acc pv (String a rest) c
                    | S _ => None
                    end = Some m ->
                    exists t, m_text m = acc ++ t /\ startswith t (String a rest) = true).
    { destruct lo; [|discriminate]. intros [= <-]. exists "". simpl.
      split; [|reflexivity]. clear. induction acc; simpl; congruence. }
    destruct (p a && may_repeat hi); [|exact Hstop].
    destruct (rep_greedy p (pred lo) (option_map pred hi) k_done
                (acc ++ String a "") (Some a) rest c) eqn:E; simpl.
    + intros [= <-]. apply IH in E as (t & Et & Hs).
      exists (String a t). split.
      * rewrite Et. clear. induction acc; simpl; congruence.
      * simpl. rewrite eqb_ascii_refl. exact Hs.
    + exact Hstop.
Qed.

Section Findall.

Variable r : regex.
Hypothesis r_prefix :
  forall pv s m, match_here r pv s = Some m -> startswith (m_text m) s = true.

(** every text that [findall] returns occurs in the subject *)
Lemma findall_contains (s : string) :
  forall skip pv m, In m (findall_aux r skip pv s) -> contains (m_text m) s = true.
Proof.
  induction s as [|a rest IH]; intros skip pv m; simpl; [tauto|].
  destruct skip as [|n].
  - destruct (match_here r pv (String a rest)) as [m0|] eqn:E.
    + destruct (is_empty (m_text m0)).
      * intros H. apply IH in H. rewrite H. apply orb_true_r.
      * intros [<-|H].
        -- apply r_prefix in E. simpl in E. rewrite E. reflexivity.
        -- apply IH in H. rewrite H. apply orb_true_r.
    + intros H. apply IH in H. rewrite H. apply orb_true_r.
  - intros H. apply IH in H. rewrite H. apply orb_true_r.
Qed.

End Findall.

(** ** The food validator *)

Lemma tokens_occur (s t : string) :
  In t (food_validator.tokens_of s) -> contains t s = true.
Proof.
  unfold food_validator.tokens_of, re_findall. intros H.
  apply in_map_iff in H as (m & <- & Hm).
  apply findall_contains with (r := plus is_alpha) (skip := O) (pv := None); [|exact Hm].
  intros pv s' m' Hm'. unfold match_here, plus in Hm'. simpl in Hm'.
  apply rep_greedy_prefix in Hm' as (t' & -> & Ht'). exact Ht'.
Qed.

Lemma meets_occurs (s : string) (words : list string) :
  food_validator.meets (food_validator.tokens_of s) words = true ->
  exists w, In w words /\ contains w s = true.
Proof.
  unfold food_validator.meets, food_validator.mem. intros H.
  apply existsb_exists in H as (t & Ht & H).
  apply existsb_exists in H as (w & Hw & E).
  apply String.eqb_eq in E. subst w.
  exists t. split; [exact Hw | apply tokens_occur; exact Ht].
Qed.

(** the confidence returned is within bounds, and at least 0.6 whenever the
    clamped confidence is: all sixty-four outcomes of the six tests *)
Lemma confidence_cases (allowed blacklisted person month code food : bool) :
  let conf := food_validator.clamp
                (food_validator.raw_confidence allowed blacklisted person month code food) in
  (0 <=? py_round conf 2)%float = true
  /\ (py_round conf 2 <=? 1)%float = true
  /\ ((0.6 <=? conf)%float = true -> (0.6 <=? py_round conf 2)%float = true).
Proof.
  destruct allowed, blacklisted, person, month, code, food;
    vm_compute; repeat split; auto.
Qed.

(** C10. [validate_item] returns a confidence within [0, 1]; it returns
    valid only when that confidence is at least 0.6, the name contains a
    whitelisted food keyword and the name was not flagged as mostly digits or
    a code; a name that is empty or made of blanks gives invalid with
    confidence 0.0. *)
Theorem validate_item_bounds (name category : string) :
  let r := food_validator.validate_item name category in
  ((0 <=? food_validator.confidence r)%float = true
   /\ (food_validator.confidence r <=? 1)%float = true)
  /\ (food_validator.valid r = true ->
      (0.6 <=? food_validator.confidence r)%float = true
      /\ (exists kw, In kw food_validator.FOOD_KEYWORDS
                     /\ contains kw (lower (strip name)) = true)
      /\ food_validator.is_mostly_digits_or_codes (lower (strip name)) = false)
  /\ (sforall is_space name = true ->
      food_validator.valid r = false /\ food_validator.confidence r = 0%float).
Proof.
  intros r. unfold r, food_validator.validate_item.
  destruct (is_empty (strip name)) eqn:Hn.
  - simpl. repeat split; try discriminate; reflexivity.
  - cbv zeta. simpl food_validator.confidence. simpl food_validator.valid.
    match goal with
    | |- context [food_validator.raw_confidence ?a ?b ?p ?m ?c ?f] =>
        pose proof (confidence_cases a b p m c f) as (H0 & H1 & H6)
    end.
    cbv zeta in H0, H1, H6.
    split; [split; assumption|]. split.
    + intros Hv. apply andb_true_iff in Hv as [Hv Hfood].
      apply andb_true_iff in Hv as [Hconf Hcode].
      split; [apply H6; exact Hconf|]. split.
      * apply meets_occurs. exact Hfood.
      * apply negb_true_iff in Hcode. exact Hcode.
    + intros Hb. rewrite (strip_blank _ Hb) in Hn. discriminate.
Qed.

(** ** Phone numbers *)

(** C6, counterexample.  A labelled number of seven digits is returned as it
    is, where the specification's last case prefixes it with "+". *)
Lemma phone_short_number_not_prefixed :
  EnhancedReceiptParser._extract_phone_number "Ph: 1234567" = Some "1234567"
  /\ EnhancedReceiptParser.digits_of "1234567" = "1234567"
  /\ claimed_normalize "1234567" = "+1234567"
  /\ EnhancedReceiptParser.normalize_digits "1234567" <> claimed_normalize "1234567".
Proof. vm_compute. repeat split; discriminate. Qed.

(** the branch for eleven digits starting with 1 stands under the test for
    twelve digits or more, and is never taken: such a number is returned
    without "+1" *)
Lemma phone_us_branch_not_reached :
  EnhancedReceiptParser._extract_phone_number "Ph: 12025550123" = Some "12025550123".
Proof. vm_compute. reflexivity. Qed.

Lemma last_n_10_of_11 (digits : string) :
  String.length digits = 11%nat -> last_n 10 digits = drop 1 digits.
Proof. intros H. unfold last_n. rewrite H. reflexivity. Qed.

(** C6, as amended.  Ten digits are returned as they are; eleven digits with
    a leading 0 give the last ten; twelve or more digits starting with 91 give
    "+91" and the last ten, and other numbers of twelve or more digits are
    prefixed with "+"; a number of fewer than ten digits is returned as it
    is.  (Eleven digits that do not start with 0 are left out: the source
    tests them under the condition of twelve digits or more.)  "Ph: 98765
    43210" gives "9876543210" and "+91-98765-43210" gives "+919876543210". *)
Theorem phone_normalization (digits : string) :
  let n := String.length digits in
  let r := EnhancedReceiptParser.normalize_digits digits in
  (n = 10%nat -> r = digits)
  /\ (n = 11%nat -> startswith "0" digits = true -> r = last_n 10 digits)
  /\ ((12 <= n)%nat -> startswith "91" digits = true -> r = "+91" ++ last_n 10 digits)
  /\ ((12 <= n)%nat -> startswith "91" digits = false -> r = "+" ++ digits)
  /\ ((n < 10)%nat -> r = digits)
  /\ EnhancedReceiptParser._extract_phone_number "Ph: 98765 43210" = Some "9876543210"
  /\ EnhancedReceiptParser._extract_phone_number "+91-98765-43210" = Some "+919876543210".
Proof.
  intros n r. unfold r, EnhancedReceiptParser.normalize_digits. fold n.
  split; [|split; [|split; [|split; [|split; [|split]]]]].
  - intros ->. reflexivity.
  - intros E H0. rewrite (last_n_10_of_11 digits E). rewrite E, H0. reflexivity.
  - intros Hn H91.
    rewrite (proj2 (Nat.eqb_neq n 10)), (proj2 (Nat.eqb_neq n 11)) by lia.
    rewrite (proj2 (Nat.leb_le 12 n)) by lia. rewrite H91. reflexivity.
  - intros Hn H91.
    rewrite (proj2 (Nat.eqb_neq n 10)), (proj2 (Nat.eqb_neq n 11)) by lia.
    rewrite (proj2 (Nat.leb_le 12 n)) by lia. rewrite H91.
    cbn [andb]. rewrite andb_false_r. reflexivity.
  - intros Hn.
    rewrite (proj2 (Nat.eqb_neq n 10)), (proj2 (Nat.eqb_neq n 11)) by lia.
    rewrite (proj2 (Nat.leb_gt 12 n)) by lia. reflexivity.
  - vm_compute. reflexivity.
  - vm_compute. reflexivity.
Qed.

(** ** The bare multiplication line *)

Lemma in_range_disjoint (lo1 hi1 lo2 hi2 : N) (c : ascii) :
  (hi1 < lo2)%N -> in_range lo1 hi1 c = true -> in_range lo2 hi2 c = false.
Proof.
  unfold in_range. intros Hlt H. apply andb_true_iff in H as [_ H2].
  apply N.leb_le in H2. apply andb_false_iff. left. apply N.leb_gt. lia.
Qed.

Lemma space_not_digit (c : ascii) : is_space c = true -> is_digit c = false.
Proof.
  unfold is_space, is_digit. intros H. apply orb_true_iff in H as [H|H];
    eapply in_range_disjoint; try exact H; reflexivity.
Qed.

(** A line that the bare pattern matches is matched by the straight pattern
    first, whose name group is optional: the loop never reaches the branch of
    the bare multiplication line with a match. *)
Lemma bare_is_last_resort_of_mult (line : string) :
  re_match EnhancedReceiptParser.mult_pattern line = None ->
  re_match EnhancedReceiptParser.bare_mult_pattern line = None.
Proof.
  unfold re_match, match_here, EnhancedReceiptParser.mult_pattern,
    EnhancedReceiptParser.bare_mult_pattern.
  cbn [seqs rmatch opt].
  unfold or_else.
  match goal with
  | |- match ?x with _ => _ end = None -> _ => destruct x; [discriminate|]
  end.
  destruct line as [|a rest].
  - intros _. reflexivity.
  - unfold star. cbn [rmatch rep_greedy].
    destruct (is_space a) eqn:Hsp.
    + intros _. unfold number, plus. cbn [rmatch seqs rep_greedy].
      rewrite (space_not_digit a Hsp). reflexivity.
    + cbn [andb]. intros H. exact H.
Qed.

Lemma bare_branch_unreachable (st : EnhancedReceiptParser.pstate) (line : string) :
  re_match EnhancedReceiptParser.mult_pattern line = None ->
  EnhancedReceiptParser.bare_applies st
    (re_match EnhancedReceiptParser.bare_mult_pattern line) = None.
Proof.
  intros H. rewrite (bare_is_last_resort_of_mult line H). reflexivity.
Qed.

(** C4, the code at the failing input.  The line "2 x 140 = 280" after the
    description line "Chicken" gives an item named "Unknown Item" with
    confidence 0.95, from the first branch; the name of the line before is
    not used. *)
Theorem bare_line_after_description :
  EnhancedReceiptParser._deterministic_parse_items
    ("Chicken" ++ String LF "2 x 140 = 280")
  = Some [ {| EnhancedReceiptParser.item_name := "Unknown Item";
              EnhancedReceiptParser.quantity := 2;
              EnhancedReceiptParser.unit := "pieces";
              EnhancedReceiptParser.unit_price := 140;
              EnhancedReceiptParser.total_price := Some 280%float;
              EnhancedReceiptParser.category := Some "other";
              EnhancedReceiptParser.confidence := Some 0.95%float;
              EnhancedReceiptParser.estimated_expiry := Some 30%Z |} ].
Proof. vm_compute. reflexivity. Qed.

(** ** Blank input *)

Lemma sforall_app (p : ascii -> bool) (a b : string) :
  sforall p (a ++ b) = sforall p a && sforall p b.
Proof.
  induction a as [|c a IH]; simpl; [reflexivity|].
  rewrite IH. apply andb_assoc.
Qed.

Lemma filter_none {A : Type} (f : A -> bool) (l : list A) :
  Forall (fun x => f x = false) l -> filter f l = [].
Proof.
  induction 1 as [|x l Hx _ IH]; simpl; [reflexivity|]. rewrite Hx. exact IH.
Qed.

Lemma filter_map_none {A B : Type} (f : A -> option B) (l : list A) :
  Forall (fun x => f x = None) l -> filter_map f l = [].
Proof.
  induction 1 as [|x l Hx _ IH]; simpl; [reflexivity|]. rewrite Hx. exact IH.
Qed.

(** the lines of a blank text are blank *)
Lemma splitlines_aux_blank (n : nat) :
  forall s cur,
    (String.length s <= n)%nat ->
    sforall is_space cur = true -> sforall is_space s = true ->
    Forall (fun l => sforall is_space l = true) (splitlines_aux cur s).
Proof.
  induction n as [|n IH]; intros s cur Hn Hcur Hs.
  - destruct s; simpl in Hn; [|lia]. simpl. destruct (is_empty cur); auto.
  - destruct s as [|c rest]; simpl.
    + destruct (is_empty cur); auto.
    + simpl in Hn, Hs. apply andb_true_iff in Hs as [Hc Hrest].
      destruct (is_linebreak c).
      * destruct rest as [|d rest'].
        -- auto.
        -- simpl in Hn, Hrest. apply andb_true_iff in Hrest as [Hd Hrest'].
           destruct (Ascii.eqb c CR && Ascii.eqb d LF).
           ++ constructor; [exact Hcur|]. apply IH; auto. lia.
           ++ constructor; [exact Hcur|]. apply IH; auto.
              ** simpl. lia.
              ** simpl. rewrite Hd. exact Hrest'.
      * apply IH; [lia| |exact Hrest].
        rewrite sforall_app, Hcur. simpl. rewrite Hc. reflexivity.
Qed.

Lemma split_on_aux_blank (sep : ascii) (s : string) :
  forall cur,
    sforall is_space cur = true -> sforall is_space s = true ->
    Forall (fun l => sforall is_space l = true) (split_on_aux sep cur s).
Proof.
  induction s as [|c rest IH]; intros cur Hcur Hs; simpl.
  - auto.
  - simpl in Hs. apply andb_true_iff in Hs as [Hc Hrest].
    destruct (Ascii.eqb c sep).
    + constructor; [exact Hcur|]. apply IH; auto.
    + apply IH; [|exact Hrest].
      rewrite sforall_app, Hcur. simpl. rewrite Hc. reflexivity.
Qed.

Lemma blank_text_has_no_lines (text : string) :
  sforall is_space text = true -> EnhancedReceiptParser.stripped_lines text = [].
Proof.
  intros H. unfold EnhancedReceiptParser.stripped_lines, splitlines.
  rewrite filter_none; [reflexivity|].
  eapply Forall_impl; [|apply (splitlines_aux_blank (String.length text)); auto].
  intros l Hl. cbv beta. rewrite (strip_blank l Hl). simpl. apply andb_false_r.
Qed.

Lemma deterministic_parse_blank (text : string) :
  sforall is_space text = true ->
  EnhancedReceiptParser._deterministic_parse_items text = Some [].
Proof.
  intros H. unfold EnhancedReceiptParser._deterministic_parse_items.
  rewrite (blank_text_has_no_lines text H). reflexivity.
Qed.

Lemma fallback_parse_blank (text : string) :
  sforall is_space text = true ->
  EnhancedReceiptParser._enhanced_fallback_parse text = [].
Proof.
  intros H. unfold EnhancedReceiptParser._enhanced_fallback_parse, split_on.
  apply filter_map_none.
  eapply Forall_impl; [|apply split_on_aux_blank; auto].
  intros l Hl. cbv beta. unfold EnhancedReceiptParser.fallback_line.
  rewrite (strip_blank l Hl). reflexivity.
Qed.

(** On a text of blanks only, [parse_receipt] of the enhanced parser reports
    success, with an empty list when no model is configured, whatever the
    script table; the professional parser refuses the same text. *)
Lemma parse_receipt_blank (scripts : EnhancedReceiptParser.script_table)
  (model : option (string -> list EnhancedReceiptParser.item)) (text : string) :
  sforall is_space text = true ->
  EnhancedReceiptParser.success
    (EnhancedReceiptParser.parse_receipt scripts model text) = true
  /\ EnhancedReceiptParser.result_items
       (EnhancedReceiptParser.parse_receipt scripts None text) = [].
Proof.
  intros H. unfold EnhancedReceiptParser.parse_receipt.
  rewrite (deterministic_parse_blank text H), (fallback_parse_blank text H).
  split.
  - destruct (negb _); [reflexivity|]. simpl.
    destruct model as [f|]; [|reflexivity]. destruct (f text); reflexivity.
  - destruct (negb _); reflexivity.
Qed.

Lemma professional_parse_receipt_blank
  (gemini : string -> option ProfessionalReceiptParser.parse_result) (text : string) :
  sforall is_space text = true ->
  ProfessionalReceiptParser.parse_receipt gemini text = ProfessionalReceiptParser.failure.
Proof.
  intros H. unfold ProfessionalReceiptParser.parse_receipt.
  rewrite (strip_blank text H). simpl. rewrite orb_true_r. reflexivity.
Qed.

(** C5, the code at the failing inputs.  For the empty text, and for a text
    of blanks, the enhanced [parse_receipt] returns success (true) with an
    empty list of items; the professional [parse_receipt] returns success
    (false) with an empty list for both. *)
Theorem parse_receipt_empty_input
  (scripts : EnhancedReceiptParser.script_table)
  (gemini : string -> option ProfessionalReceiptParser.parse_result) :
  let blanks := " " ++ String LF (String TAB " ") in
  EnhancedReceiptParser.parse_receipt scripts None ""
  = {| EnhancedReceiptParser.success := true;
       EnhancedReceiptParser.result_items := [];
       EnhancedReceiptParser.parsing_method := "regex_fallback" |}
  /\ EnhancedReceiptParser.success
       (EnhancedReceiptParser.parse_receipt scripts None blanks) = true
  /\ EnhancedReceiptParser.result_items
       (EnhancedReceiptParser.parse_receipt scripts None blanks) = []
  /\ ProfessionalReceiptParser.parse_receipt gemini ""
     = {| ProfessionalReceiptParser.success := false;
          ProfessionalReceiptParser.result_items := [] |}
  /\ ProfessionalReceiptParser.parse_receipt gemini blanks
     = {| ProfessionalReceiptParser.success := false;
          ProfessionalReceiptParser.result_items := [] |}.
Proof.
  intros blanks.
  split; [reflexivity|].
  split; [apply parse_receipt_blank; reflexivity|].
  split; [apply (parse_receipt_blank scripts None); reflexivity|].
  split; [reflexivity|].
  apply professional_parse_receipt_blank. reflexivity.
Qed.

(** ** Floats *)

Lemma float_mul_comm (a b : float) : (a * b)%float = (b * a)%float.
Proof.
  apply Prim2SF_inj. rewrite !mul_spec. unfold SF64mul, SFmul.
  destruct (Prim2SF a) as [s| s| |s m e], (Prim2SF b) as [s'| s'| |s' m' e'];
    try reflexivity; try (rewrite (xorb_comm s s'); reflexivity).
  rewrite (xorb_comm s s'), (Pos.mul_comm m m'), (Z.add_comm e e'). reflexivity.
Qed.

Lemma SFcompare_antisym (x y : spec_float) :
  SFcompare y x = option_map CompOpp (SFcompare x y).
Proof.
  destruct x as [s| s| |s m e], y as [s'| s'| |s' m' e']; simpl;
    try reflexivity;
    try (destruct s; reflexivity); try (destruct s'; reflexivity);
    try (destruct s, s'; reflexivity).
  pose proof (Pos.compare_cont_antisym m m' Eq) as Hm. simpl in Hm.
  destruct s, s'; simpl; try reflexivity;
    rewrite (Z.compare_antisym e e'); destruct (e ?= e')%Z; simpl;
    try reflexivity; rewrite <- Hm;
    destruct (Pos.compare_cont Eq m m'); reflexivity.
Qed.

Lemma SFcompare_nan (x y : spec_float) :
  SFcompare x y = None -> x = S754_nan \/ y = S754_nan.
Proof.
  destruct x as [s| s| |s m e], y as [s'| s'| |s' m' e']; simpl; auto;
    discriminate.
Qed.

(** [not x <= y] is [y < x] unless one of the two is not a number *)
Lemma not_leb_ltb (x y : float) :
  ~ is_nan x -> ~ is_nan y -> negb (x <=? y)%float = (y <? x)%float.
Proof.
  unfold is_nan. intros Hx Hy. rewrite leb_spec, ltb_spec. unfold SFleb, SFltb.
  rewrite (SFcompare_antisym (Prim2SF x) (Prim2SF y)).
  destruct (SFcompare (Prim2SF x) (Prim2SF y)) as [[]|] eqn:E; try reflexivity.
  apply SFcompare_nan in E. tauto.
Qed.

Lemma ltb_asym (x y : float) : (x <? y)%float = true -> (y <? x)%float = false.
Proof.
  rewrite !ltb_spec. unfold SFltb.
  rewrite (SFcompare_antisym (Prim2SF x) (Prim2SF y)).
  destruct (SFcompare (Prim2SF x) (Prim2SF y)) as [[]|]; simpl; congruence.
Qed.

Lemma eqb_sym (x y : float) : (x =? y)%float = (y =? x)%float.
Proof.
  rewrite !eqb_spec. unfold SFeqb.
  rewrite (SFcompare_antisym (Prim2SF x) (Prim2SF y)).
  destruct (SFcompare (Prim2SF x) (Prim2SF y)) as [[]|]; reflexivity.
Qed.

Lemma leb_true_not_nan (x y : float) : (x <=? y)%float = true -> ~ is_nan x.
Proof.
  unfold is_nan. rewrite leb_spec. unfold SFleb. intros H E. rewrite E in H.
  simpl in H. discriminate.
Qed.

Lemma abs_not_nan (x : float) : ~ is_nan (abs x) -> ~ is_nan x.
Proof.
  unfold is_nan. rewrite abs_spec. intros H E. apply H. rewrite E. reflexivity.
Qed.

Lemma sub_not_nan (x y : float) : ~ is_nan (x - y) -> ~ is_nan x.
Proof.
  unfold is_nan. rewrite sub_spec. intros H E. apply H. rewrite E. reflexivity.
Qed.

Lemma mul_not_nan (x y : float) : ~ is_nan (x * y) -> ~ is_nan x /\ ~ is_nan y.
Proof.
  unfold is_nan. rewrite mul_spec. unfold SF64mul, SFmul. intros H.
  split; intros E; apply H; rewrite E; [reflexivity|].
  destruct (Prim2SF x); reflexivity.
Qed.

Lemma approx_equal_not_nan (a b : float) :
  EnhancedReceiptParser._approx_equal a b = true -> ~ is_nan a.
Proof.
  unfold EnhancedReceiptParser._approx_equal, EnhancedReceiptParser._approx_equal_tol.
  intros H.
  assert (Hle : exists z, (abs (a - b) <=? z)%float = true).
  { destruct ((a =? 0)%float || (b =? 0)%float).
    - eauto.
    - apply orb_true_iff in H as [H|H]; eauto. }
  destruct Hle as (z & Hz).
  apply leb_true_not_nan in Hz. apply abs_not_nan in Hz. apply sub_not_nan in Hz.
  exact Hz.
Qed.

Lemma twenty_not_nan : ~ is_nan 20.
Proof. unfold is_nan. vm_compute. discriminate. Qed.

(** ** The loop of the deterministic parser *)

Lemma key_in_false (k : EnhancedReceiptParser.key) (ks : list EnhancedReceiptParser.key) :
  EnhancedReceiptParser.key_in k ks = false ->
  Forall (fun earlier => EnhancedReceiptParser.key_eqb k earlier = false) ks.
Proof.
  unfold EnhancedReceiptParser.key_in. induction ks as [|k' ks IH]; simpl; intros H.
  - constructor.
  - apply orb_false_iff in H as [H1 H2]. constructor; auto.
Qed.

(** what [emit] does: nothing, or one item more under a key that was not
    recorded *)
Lemma emit_cases (st : EnhancedReceiptParser.pstate) (extra : bool)
  (raw : EnhancedReceiptParser.item) (k : EnhancedReceiptParser.key) :
  let st' := EnhancedReceiptParser.emit st extra raw k in
  (st' = st /\ (EnhancedReceiptParser.key_in k (EnhancedReceiptParser.added_keys st) = true
                \/ extra = false))
  \/ (EnhancedReceiptParser.key_in k (EnhancedReceiptParser.added_keys st) = false
      /\ extra = true
      /\ EnhancedReceiptParser.items st'
         = (EnhancedReceiptParser.items st ++ [EnhancedReceiptParser._enhance_item raw])%list
      /\ EnhancedReceiptParser.added_keys st'
         = (EnhancedReceiptParser.added_keys st ++ [k])%list
      /\ EnhancedReceiptParser.prev_non_empty st' = EnhancedReceiptParser.prev_non_empty st).
Proof.
  unfold EnhancedReceiptParser.emit.
  destruct (EnhancedReceiptParser.key_in k _) eqn:Hk; simpl.
  - left. auto.
  - destruct extra; simpl.
    + right. repeat split; reflexivity.
    + left. auto.
Qed.

Lemma ForallOrdPairs_app {A : Type} (R : A -> A -> Prop) (l1 l2 : list A) :
  ForallOrdPairs R l1 -> ForallOrdPairs R l2 ->
  Forall (fun x => Forall (R x) l2) l1 ->
  ForallOrdPairs R (l1 ++ l2)%list.
Proof.
  intros H1 H2. induction H1 as [|x l1 Hx _ IH]; intros Hall; simpl; [exact H2|].
  inversion Hall as [|? ? Hx2 Hrest]; subst. constructor.
  - apply Forall_app. split; assumption.
  - apply IH. exact Hrest.
Qed.

Lemma key_in_app (k : EnhancedReceiptParser.key) (l1 l2 : list EnhancedReceiptParser.key) :
  EnhancedReceiptParser.key_in k (l1 ++ l2)
  = EnhancedReceiptParser.key_in k l1 || EnhancedReceiptParser.key_in k l2.
Proof. apply existsb_app. Qed.

Lemma appended_nothing (st : EnhancedReceiptParser.pstate) : appended st st [].
Proof.
  unfold appended. simpl. rewrite !app_nil_r. repeat split; constructor.
Qed.

Lemma appended_trans (st st1 st2 : EnhancedReceiptParser.pstate)
  (raws1 raws2 : list EnhancedReceiptParser.item) :
  appended st st1 raws1 -> appended st1 st2 raws2 -> appended st st2 (raws1 ++ raws2).
Proof.
  intros (Hi1 & Hk1 & Hn1 & Hd1) (Hi2 & Hk2 & Hn2 & Hd2).
  assert (Hnew : Forall (fun raw =>
                   EnhancedReceiptParser.key_in (recorded_key raw)
                     (EnhancedReceiptParser.added_keys st) = false
                   /\ Forall (fun earlier =>
                                EnhancedReceiptParser.key_eqb (recorded_key raw) earlier
                                = false) (map recorded_key raws1)) raws2).
  { eapply Forall_impl; [|exact Hn2]. intros raw Hraw. cbv beta in Hraw.
    rewrite Hk1, key_in_app in Hraw. apply orb_false_iff in Hraw as [Ha Hb].
    split; [exact Ha | apply key_in_false; exact Hb]. }
  unfold appended. rewrite Hi2, Hi1, Hk2, Hk1, !map_app, !app_assoc.
  split; [reflexivity|]. split; [reflexivity|]. split.
  - apply Forall_app. split; [exact Hn1|].
    eapply Forall_impl; [|exact Hnew]. intros raw [H _]. exact H.
  - apply ForallOrdPairs_app; [exact Hd1 | exact Hd2 |].
    apply Forall_forall. intros earlier Hearlier.
    apply Forall_forall. intros later Hlater.
    apply in_map_iff in Hlater as (raw & <- & Hraw).
    pose proof (proj1 (Forall_forall _ _) Hnew raw Hraw) as [_ H].
    exact (proj1 (Forall_forall _ _) H earlier Hearlier).
Qed.

(** one [emit] under the key of the dictionary appends it, or nothing *)
Lemma emit_appended (st : EnhancedReceiptParser.pstate) (extra : bool)
  (raw : EnhancedReceiptParser.item) (k : EnhancedReceiptParser.key) :
  k = recorded_key raw ->
  exists raws,
    (List.length raws <= 1)%nat
    /\ appended st (EnhancedReceiptParser.emit st extra raw k) raws.
Proof.
  intros ->.
  destruct (emit_cases st extra raw (recorded_key raw))
    as [[-> _]|(Hin & _ & Hi & Ha & _)].
  - exists []. split; [simpl; lia | apply appended_nothing].
  - exists [raw]. split; [simpl; lia|]. unfold appended. rewrite Hi, Ha. simpl.
    repeat split; auto. constructor; constructor.
Qed.

Lemma set_prev_appended (st st' : EnhancedReceiptParser.pstate) (raw_line : string) :
  (exists raws, (List.length raws <= 1)%nat /\ appended st st' raws) ->
  exists raws,
    (List.length raws <= 1)%nat
    /\ appended st (EnhancedReceiptParser.set_prev raw_line st') raws.
Proof. intros (raws & Hlen & H). exists raws. split; [exact Hlen | exact H]. Qed.

Lemma parse_line_appended (st st' : EnhancedReceiptParser.pstate) (raw_line : string) :
  EnhancedReceiptParser.parse_line st raw_line = Some st' ->
  exists raws, (List.length raws <= 1)%nat /\ appended st st' raws.
Proof.
  unfold EnhancedReceiptParser.parse_line. intros H.
  assert (Hsame : exists raws, (List.length raws <= 1)%nat /\ appended st st raws).
  { exists []. split; [simpl; lia | apply appended_nothing]. }
  destruct (is_empty _ || _); [injection H as <-; exact Hsame|].
  destruct (is_some _); [injection H as <-; exact Hsame|].
  destruct (re_match EnhancedReceiptParser.mult_pattern _) as [m|].
  { injection H as <-. apply set_prev_appended, emit_appended. reflexivity. }
  destruct (EnhancedReceiptParser.bare_applies _ _) as [[m prev]|].
  { injection H as <-. apply set_prev_appended, emit_appended. reflexivity. }
  destruct (re_match EnhancedReceiptParser.dimension_pattern _) as [m|].
  { unfold EnhancedReceiptParser.dimension_branch in H.
    destruct (int_of_float _); [|discriminate].
    destruct (int_of_float _); [|discriminate].
    injection H as <-. apply set_prev_appended, emit_appended. reflexivity. }
  destruct (re_match EnhancedReceiptParser.weight_pattern _) as [m|].
  { injection H as <-. apply set_prev_appended, emit_appended. reflexivity. }
  injection H as <-. unfold EnhancedReceiptParser.triplet_branch.
  destruct (EnhancedReceiptParser.last3 _) as [[[ta tb] tc]|]; [|exact Hsame].
  destruct (EnhancedReceiptParser._approx_equal _ _); [|exact Hsame].
  destruct (is_empty _ || _); [exact Hsame|].
  destruct (EnhancedReceiptParser.disambiguate _ _) as [q up].
  apply emit_appended. reflexivity.
Qed.

Lemma parse_lines_appended (lines : list string) :
  forall st st',
    EnhancedReceiptParser.parse_lines st lines = Some st' ->
    exists raws, (List.length raws <= List.length lines)%nat /\ appended st st' raws.
Proof.
  induction lines as [|l lines IH]; intros st st' H; simpl in H.
  - injection H as <-. exists []. split; [simpl; lia | apply appended_nothing].
  - destruct (EnhancedReceiptParser.parse_line st l) as [st1|] eqn:E; [|discriminate].
    apply parse_line_appended in E as (raws1 & Hlen1 & H1).
    apply IH in H as (raws2 & Hlen2 & H2).
    exists (raws1 ++ raws2)%list. split.
    + rewrite List.length_app. simpl. lia.
    + eapply appended_trans; eauto.
Qed.

(** C8, counterexample.  Two lines of the straight multiplication form whose
    unit prices differ in the fifth decimal are both emitted: the key of that
    branch holds the unit price as it is, and the two items share the key
    with the price rounded to four decimals. *)
Lemma dedup_key_not_rounded :
  exists i1 i2,
    EnhancedReceiptParser._deterministic_parse_items
      ("A - 1 x 1.00001 = 1" ++ String LF "A - 1 x 1.00002 = 1") = Some [i1; i2]
    /\ EnhancedReceiptParser.key_eqb (claimed_key i1) (claimed_key i2) = true.
Proof. eexists. eexists. split; vm_compute; reflexivity. Qed.

(** the key holds the name as the line has it and the item the name as it is
    cleaned: "Rice" and "Rice!" are recorded under two keys and emitted as
    two equal items *)
Lemma equal_items_under_two_keys :
  exists it,
    EnhancedReceiptParser._deterministic_parse_items
      ("Rice 2 50 100" ++ String LF "Rice! 2 50 100") = Some [it; it].
Proof. eexists. vm_compute. reflexivity. Qed.

(** C8, as amended.  Over any stretch of the loop (for lines of 7-bit text),
    from the state [st] to the state [st'], the items appended are the
    enhanced dictionaries [raws] of the branches taken, at most one for a
    line; the keys recorded over the stretch are the keys of these
    dictionaries, in the same order: the name as matched (before it is
    cleaned) in lower case, the quantity and the unit price, the unit price
    being rounded to four decimals in the weight branch only.  A dictionary
    is appended only under a key that was not recorded: none of the keys was
    recorded in [st], and each differs from all those recorded before it in
    the stretch.  The function is the loop from no item and no key, over the
    stripped lines of the text: the items it returns are the dictionaries
    appended, and their keys are pairwise different. *)
Theorem deduplication_by_recorded_key :
  (forall st st' lines,
      Forall (fun l => seven_bit l = true) lines ->
      EnhancedReceiptParser.parse_lines st lines = Some st' ->
      exists raws,
        (List.length raws <= List.length lines)%nat
        /\ EnhancedReceiptParser.items st'
           = (EnhancedReceiptParser.items st
              ++ map EnhancedReceiptParser._enhance_item raws)%list
        /\ EnhancedReceiptParser.added_keys st'
           = (EnhancedReceiptParser.added_keys st ++ map recorded_key raws)%list
        /\ Forall (fun raw => EnhancedReceiptParser.key_in (recorded_key raw)
                                (EnhancedReceiptParser.added_keys st) = false) raws
        /\ distinct_keys (map recorded_key raws))
  /\ (forall ocr_text its,
         seven_bit ocr_text = true ->
         EnhancedReceiptParser._deterministic_parse_items ocr_text = Some its ->
         exists st' raws,
           EnhancedReceiptParser.parse_lines EnhancedReceiptParser.init_state
             (EnhancedReceiptParser.stripped_lines ocr_text) = Some st'
           /\ its = map EnhancedReceiptParser._enhance_item raws
           /\ EnhancedReceiptParser.added_keys st' = map recorded_key raws
           /\ distinct_keys (map recorded_key raws)).
Proof.
  split.
  - intros st st' lines _ H.
    apply parse_lines_appended in H as (raws & Hlen & Hi & Hk & Hn & Hd).
    exists raws. auto.
  - intros ocr_text its _ H.
    unfold EnhancedReceiptParser._deterministic_parse_items in H.
    destruct (EnhancedReceiptParser.parse_lines _ _) as [st'|] eqn:E; [|discriminate].
    injection H as <-.
    apply parse_lines_appended in E as (raws & _ & Hi & Hk & _ & Hd).
    exists st', raws. simpl in Hi, Hk. auto.
Qed.

(** the same line twice and a third line that differs by a sign the cleaning
    removes: the second line finds its key recorded and appends nothing, the
    third is appended under a key of its own *)
Lemma deduplication_by_recorded_key_witness :
  let text := "Rice 2 50 100" ++ String LF ("Rice 2 50 100" ++ String LF "Rice! 2 50 100") in
  let rice name := EnhancedReceiptParser.mk_item name 2 "pieces" 50 100 0.8%float in
  EnhancedReceiptParser._deterministic_parse_items text
  = Some (map EnhancedReceiptParser._enhance_item [rice "Rice"; rice "Rice!"])
  /\ exists st' raws,
       EnhancedReceiptParser.parse_lines EnhancedReceiptParser.init_state
         (EnhancedReceiptParser.stripped_lines text) = Some st'
       /\ map EnhancedReceiptParser._enhance_item [rice "Rice"; rice "Rice!"]
          = map EnhancedReceiptParser._enhance_item raws
       /\ EnhancedReceiptParser.added_keys st' = map recorded_key raws
       /\ distinct_keys (map recorded_key raws).
Proof.
  intros text rice.
  assert (H : EnhancedReceiptParser._deterministic_parse_items text
              = Some (map EnhancedReceiptParser._enhance_item [rice "Rice"; rice "Rice!"]))
    by (vm_compute; reflexivity).
  split; [exact H|].
  apply (proj2 deduplication_by_recorded_key text _ eq_refl H).
Defined.

(** ** The arithmetic check *)

Lemma disambiguate_cases (a b : float) :
  EnhancedReceiptParser.disambiguate a b = (a, b)
  \/ EnhancedReceiptParser.disambiguate a b = (b, a).
Proof.
  unfold EnhancedReceiptParser.disambiguate.
  destruct (_ && _); [left; reflexivity|].
  destruct (b <=? 20)%float; [right|left]; reflexivity.
Qed.

(** C3, counterexample.  The line "Chicken - 2 x 140 = 999" is emitted with
    quantity 2, unit price 140 and total 999, all three read from the text,
    and 2 * 140 is not within tolerance of 999. *)
Lemma mismatched_total_is_emitted :
  exists it,
    EnhancedReceiptParser._deterministic_parse_items "Chicken - 2 x 140 = 999" = Some [it]
    /\ EnhancedReceiptParser.quantity it = 2%float
    /\ EnhancedReceiptParser.unit_price it = 140%float
    /\ EnhancedReceiptParser.total_price it = Some 999%float
    /\ EnhancedReceiptParser._approx_equal
         (EnhancedReceiptParser.quantity it * EnhancedReceiptParser.unit_price it) 999
       = false.
Proof. eexists. repeat split; vm_compute; reflexivity. Qed.

(** C3, as amended.  An item appended by the branch of the last three numbers
    satisfies the check: quantity times unit price is within tolerance (2%
    relative or 0.5 absolute) of the total.  The branches of the
    multiplication patterns append their item, with the quantity, unit price
    and total read from the line, whether or not the check holds; the only
    condition is that its key is new. *)
Theorem arithmetic_check_by_branch (st : EnhancedReceiptParser.pstate) :
  (forall line it,
      In it (EnhancedReceiptParser.items (EnhancedReceiptParser.triplet_branch st line)) ->
      In it (EnhancedReceiptParser.items st)
      \/ exists t,
          EnhancedReceiptParser.total_price it = Some t
          /\ EnhancedReceiptParser._approx_equal
               (EnhancedReceiptParser.quantity it * EnhancedReceiptParser.unit_price it) t
             = true)
  /\ (forall raw_line m,
        let name := match group EnhancedReceiptParser.g_name (m_caps m) with
                    | Some n => if is_empty n then "Unknown Item" else n
                    | None => "Unknown Item"
                    end in
        let q := to_float (grp EnhancedReceiptParser.g_q m) in
        let p := to_float (grp EnhancedReceiptParser.g_p m) in
        let t := to_float (grp EnhancedReceiptParser.g_t m) in
        EnhancedReceiptParser.key_in (lower (strip name), q, p)
          (EnhancedReceiptParser.added_keys st) = false ->
        exists it,
          EnhancedReceiptParser.items (EnhancedReceiptParser.mult_branch st raw_line m)
          = (EnhancedReceiptParser.items st ++ [it])%list
          /\ EnhancedReceiptParser.quantity it = q
          /\ EnhancedReceiptParser.unit_price it = p
          /\ EnhancedReceiptParser.total_price it = Some t).
Proof.
  split.
  - intros line it. unfold EnhancedReceiptParser.triplet_branch.
    destruct (EnhancedReceiptParser.last3 _) as [[[ta tb] tc]|]; [|auto].
    destruct (EnhancedReceiptParser._approx_equal _ _) eqn:Happrox; [|auto].
    destruct (is_empty _ || _); [auto|].
    destruct (disambiguate_cases (to_float ta) (to_float tb)) as [E|E]; rewrite E.
    + match goal with
      | |- In it (EnhancedReceiptParser.items (EnhancedReceiptParser.emit st ?x ?r ?k)) -> _ =>
          destruct (emit_cases st x r k) as [[-> _]|(_ & _ & Hi & _)]
      end; [auto|].
      rewrite Hi. intros H. apply in_app_or in H as [H|[<-|[]]]; [auto|].
      right. eexists. split; [reflexivity|]. exact Happrox.
    + match goal with
      | |- In it (EnhancedReceiptParser.items (EnhancedReceiptParser.emit st ?x ?r ?k)) -> _ =>
          destruct (emit_cases st x r k) as [[-> _]|(_ & _ & Hi & _)]
      end; [auto|].
      rewrite Hi. intros H. apply in_app_or in H as [H|[<-|[]]]; [auto|].
      right. eexists. split; [reflexivity|].
      simpl EnhancedReceiptParser.quantity. simpl EnhancedReceiptParser.unit_price.
      rewrite float_mul_comm. exact Happrox.
  - intros raw_line m name q p t Hfresh.
    unfold EnhancedReceiptParser.mult_branch. fold name. fold q. fold p. fold t.
    match goal with
    | |- context [EnhancedReceiptParser.emit st ?x ?r ?k] =>
        destruct (emit_cases st x r k) as [[_ [Hin|Hx]]|(_ & _ & Hi & _)]
    end.
    + simpl in Hin. unfold EnhancedReceiptParser.item_key in Hin. simpl in Hin.
      congruence.
    + discriminate.
    + eexists. split; [exact Hi|]. repeat split.
Qed.

(** ** The branch of the last three numbers *)

Lemma disambiguate_claimed (a b : float) :
  ~ is_nan b ->
  let a_is_quantity := ((a <=? 20) && ((a <? b) || (20 <? b)))%float in
  EnhancedReceiptParser.disambiguate a b
  = (if a_is_quantity then a else if (b <=? 20)%float then b else a,
     if a_is_quantity then b else if (b <=? 20)%float then a else b).
Proof.
  intros Hb. unfold EnhancedReceiptParser.disambiguate.
  rewrite (not_leb_ltb b 20 Hb twenty_not_nan). cbv zeta.
  destruct ((a <=? 20)%float && ((a <? b)%float || (20 <? b)%float)); [reflexivity|].
  destruct (b <=? 20)%float; reflexivity.
Qed.

Lemma length_ge_3_not_empty (s : string) :
  (3 <= String.length s)%nat ->
  is_empty s || (String.length s <? 3)%nat = false.
Proof.
  intros H. destruct s; simpl in H; [lia|]. simpl is_empty. cbn [orb].
  apply Nat.ltb_ge. simpl. lia.
Qed.

(** ** The aggregator of the sales report *)

Lemma Forall_impl_in {A : Type} (P Q : A -> Prop) (l : list A) :
  (forall x, In x l -> P x -> Q x) -> Forall P l -> Forall Q l.
Proof.
  intros H HP. apply Forall_forall. intros x Hx.
  apply H; [exact Hx|]. eapply Forall_forall; eauto.
Qed.

Lemma zsum_app (l1 l2 : list Z) : zsum (l1 ++ l2) = (zsum l1 + zsum l2)%Z.
Proof. induction l1; simpl; lia. Qed.

Lemma num_sum_snoc (l : list SR.pynum) :
  forall start x,
    SR.num_sum start (l ++ [x])
    = match SR.num_sum start l with
      | Some t => SR.num_add t x
      | None => None
      end.
Proof.
  induction l as [|y l IH]; intros start x; simpl.
  - destruct (SR.num_add start x); reflexivity.
  - destruct (SR.num_add start y); [apply IH | reflexivity].
Qed.

Lemma group_of_snoc (name : string) (rows : list SR.row) (r : SR.row) :
  group_of name (rows ++ [r])
  = (group_of name rows ++ if String.eqb name (SR.row_item r) then [r] else [])%list.
Proof. unfold group_of. rewrite filter_app. reflexivity. Qed.

Lemma group_of_absent (name : string) (rows : list SR.row) :
  ~ In name (map SR.row_item rows) -> group_of name rows = [].
Proof.
  induction rows as [|r rows IH]; simpl; intros H; [reflexivity|].
  destruct (String.eqb_spec name (SR.row_item r)) as [E|E].
  - exfalso. apply H. left. symmetry. exact E.
  - apply IH. tauto.
Qed.

(** what [add_row] does to the dictionary *)
Lemma add_row_spec (r : SR.row) (d : SR.aggregation) :
  forall d',
    SR.add_row r d = Some d' ->
    (~ In (SR.row_item r) (map fst d)
     /\ d' = (d ++ [(SR.row_item r,
                     {| SR.agg_quantity := SR.row_quantity r;
                        SR.agg_unit := SR.row_unit r;
                        SR.agg_amount := SR.row_amount r |})])%list)
    \/ (exists before a after total,
           d = (before ++ (SR.row_item r, a) :: after)%list
           /\ ~ In (SR.row_item r) (map fst before)
           /\ SR.num_add (SR.agg_amount a) (SR.row_amount r) = Some total
           /\ d' = (before
                    ++ (SR.row_item r,
                        {| SR.agg_quantity := (SR.agg_quantity a + SR.row_quantity r)%Z;
                           SR.agg_unit := SR.agg_unit a;
                           SR.agg_amount := total |}) :: after)%list).
Proof.
  induction d as [|[name a] rest IH]; intros d'; simpl.
  - intros [= <-]. left. split; [tauto | reflexivity].
  - destruct (String.eqb_spec name (SR.row_item r)) as [E|E].
    + subst name. destruct (SR.num_add _ _) as [total|] eqn:Ht; [|discriminate].
      intros [= <-]. right. exists [], a, rest, total. repeat split; auto.
    + destruct (SR.add_row r rest) as [rest'|] eqn:Hr; [|discriminate].
      simpl. intros [= <-].
      destruct (IH rest' eq_refl) as [[Hno ->]|(before & a0 & after & total & -> & Hno & Ht & ->)].
      * left. split; [simpl; tauto | reflexivity].
      * right. exists ((name, a) :: before), a0, after, total.
        repeat split; auto. simpl. tauto.
Qed.

Lemma agg_ok_other (rows : list SR.row) (r : SR.row) (name : string) (a : SR.agg) :
  name <> SR.row_item r -> agg_ok rows name a -> agg_ok (rows ++ [r]) name a.
Proof.
  intros Hne (first & rest & Hg & Hq & Hu & Hs).
  exists first, rest. rewrite group_of_snoc, Hg.
  destruct (String.eqb_spec name (SR.row_item r)); [contradiction|].
  rewrite app_nil_r. auto.
Qed.

Lemma add_row_inv (rows : list SR.row) (r : SR.row) (d d' : SR.aggregation) :
  SR.add_row r d = Some d' -> agg_inv rows d -> agg_inv (rows ++ [r]) d'.
Proof.
  intros Hadd (Hnd & Hnames & Hall).
  apply add_row_spec in Hadd
    as [[Hno ->]|(before & a & after & total & -> & Hno & Ht & ->)].
  - split; [|split].
    + rewrite map_app. simpl. apply NoDup_app; [exact Hnd | constructor; [simpl; tauto|constructor] |].
      intros x Hx [<-|[]]. contradiction.
    + intros name. rewrite !map_app, !in_app_iff, Hnames. simpl. tauto.
    + apply Forall_app. split.
      * eapply Forall_impl_in; [|exact Hall]. intros [n a] Hin Hok.
        apply agg_ok_other; [|exact Hok].
        simpl. intros ->. apply Hno. apply in_map_iff. exists (SR.row_item r, a). auto.
      * constructor; [|constructor]. simpl.
        exists r, []. rewrite group_of_snoc, String.eqb_refl.
        rewrite group_of_absent by (rewrite <- Hnames; exact Hno).
        simpl. repeat split; auto. unfold zsum. simpl. lia.
  - assert (Hkeys : forall v v',
               map fst (before ++ (SR.row_item r, v) :: after)
               = map fst (before ++ (SR.row_item r, v') :: after)).
    { intros. rewrite !map_app. reflexivity. }
    split; [|split].
    + rewrite (Hkeys _ a). exact Hnd.
    + intros name. rewrite (Hkeys _ a), Hnames, map_app, in_app_iff. simpl.
      split; [tauto|]. intros [H|[<-|[]]]; [exact H|].
      rewrite <- Hnames, map_app, in_app_iff. right. left. reflexivity.
    + apply Forall_app in Hall as [Hb Ha]. inversion Ha as [|? ? Hok Hafter]; subst.
      assert (Hother : forall l, Forall (fun na => agg_ok rows (fst na) (snd na)) l ->
                                 ~ In (SR.row_item r) (map fst l) ->
                                 Forall (fun na => agg_ok (rows ++ [r]) (fst na) (snd na)) l).
      { intros l Hl Hnl. eapply Forall_impl_in; [|exact Hl]. intros [n a'] Hin Hok'.
        apply agg_ok_other; [|exact Hok'].
        simpl. intros ->. apply Hnl. apply in_map_iff. exists (SR.row_item r, a'). auto. }
      apply Forall_app. split; [apply Hother; assumption|].
      constructor.
      * simpl in Hok |- *. destruct Hok as (first & rest & Hg & Hq & Hu & Hs).
        exists first, (rest ++ [r])%list.
        rewrite group_of_snoc, Hg, String.eqb_refl. simpl.
        repeat split; auto.
        -- rewrite Hq. simpl. rewrite map_app, zsum_app. simpl. lia.
        -- rewrite map_app. simpl. rewrite num_sum_snoc, Hs. exact Ht.
      * apply Hother; [exact Hafter|].
        rewrite map_app in Hnd. simpl in Hnd. apply NoDup_remove_2 in Hnd.
        intros Hin. apply Hnd. apply in_or_app. right. exact Hin.
Qed.

Lemma aggregate_inv (rows : list SR.row) :
  forall done d d',
    SR.aggregate rows d = Some d' -> agg_inv done d -> agg_inv (done ++ rows) d'.
Proof.
  induction rows as [|r rows IH]; intros done d d' H Hinv; simpl in H.
  - injection H as <-. rewrite app_nil_r. exact Hinv.
  - destruct (SR.add_row r d) as [d1|] eqn:E; [|discriminate].
    replace (done ++ r :: rows)%list with ((done ++ [r]) ++ rows)%list
      by (rewrite <- app_assoc; reflexivity).
    eapply IH; [exact H|]. eapply add_row_inv; eauto.
Qed.

(** the entries of the output, before they are sorted *)
Lemma item_entries_spec (d : SR.aggregation) :
  forall entries,
    SR.item_entries d = Some entries ->
    Forall2 (fun na e => SR.item_entry (fst na) (snd na) = Some e) d entries.
Proof.
  induction d as [|[name a] rest IH]; intros entries; simpl.
  - intros [= <-]. constructor.
  - destruct (SR.item_entry name a) as [e|] eqn:He; [|discriminate].
    destruct (SR.item_entries rest) as [es|]; [|discriminate].
    intros [= <-]. constructor; auto.
Qed.

Lemma item_entry_name (name : string) (a : SR.agg) (e : SR.report_item) :
  SR.item_entry name a = Some e -> SR.item_name e = name.
Proof.
  unfold SR.item_entry. destruct (if (0 <? _)%Z then _ else _); [|discriminate].
  intros [= <-]. reflexivity.
Qed.

(** ** Sorting *)

Lemma num_ltb_asym (x y : SR.pynum) : SR.num_ltb x y = true -> SR.num_ltb y x = false.
Proof.
  destruct x as [x|x], y as [y|y]; simpl.
  - intros H. apply Z.ltb_lt in H. apply Z.ltb_ge. lia.
  - destruct (SR.int_float_compare x y) as [[]|]; congruence.
  - destruct (SR.int_float_compare y x) as [[]|]; congruence.
  - apply ltb_asym.
Qed.

Lemma insert_desc_perm (x : SR.report_item) (l : list SR.report_item) :
  Permutation (x :: l) (SR.insert_desc x l).
Proof.
  induction l as [|h t IH]; simpl; [reflexivity|].
  destruct (SR.num_ltb _ _); [reflexivity|].
  rewrite perm_swap. constructor. exact IH.
Qed.

Lemma sort_desc_perm_acc (l : list SR.report_item) :
  forall acc, Permutation (l ++ acc) (fold_left (fun acc x => SR.insert_desc x acc) l acc).
Proof.
  induction l as [|x l IH]; intros acc; simpl; [reflexivity|].
  rewrite <- IH. rewrite <- insert_desc_perm. apply Permutation_middle.
Qed.

Lemma sort_desc_perm (l : list SR.report_item) : Permutation l (SR.sort_desc l).
Proof.
  unfold SR.sort_desc. rewrite <- sort_desc_perm_acc, app_nil_r. reflexivity.
Qed.

Lemma insert_desc_sorted (x : SR.report_item) (l : list SR.report_item) :
  Sorted not_below l -> Sorted not_below (SR.insert_desc x l).
Proof.
  induction l as [|h t IH]; intros Hs; simpl.
  - repeat constructor.
  - destruct (SR.num_ltb (SR.total_amount h) (SR.total_amount x)) eqn:E.
    + constructor; [exact Hs|]. constructor. apply num_ltb_asym. exact E.
    + inversion Hs as [|? ? Ht Hhd]; subst. constructor; [apply IH; exact Ht|].
      destruct t as [|h' t']; simpl.
      * constructor. exact E.
      * destruct (SR.num_ltb (SR.total_amount h') (SR.total_amount x)).
        -- constructor. exact E.
        -- inversion Hhd; subst. constructor. assumption.
Qed.

Lemma sort_desc_sorted (l : list SR.report_item) : Sorted not_below (SR.sort_desc l).
Proof.
  unfold SR.sort_desc.
  assert (H : forall acc, Sorted not_below acc ->
                          Sorted not_below (fold_left (fun acc x => SR.insert_desc x acc) l acc)).
  { induction l as [|x l IH]; intros acc Hacc; simpl; [exact Hacc|].
    apply IH. apply insert_desc_sorted. exact Hacc. }
  apply H. constructor.
Qed.

Lemma Forall2_in_right {A B : Type} (R : A -> B -> Prop) (l1 : list A) (l2 : list B) :
  Forall2 R l1 l2 -> forall y, In y l2 -> exists x, In x l1 /\ R x y.
Proof.
  induction 1 as [|x y l1 l2 Hxy _ IH]; intros z Hz; simpl in Hz; [tauto|].
  destruct Hz as [<-|Hz].
  - exists x. simpl. auto.
  - destruct (IH z Hz) as (x' & Hx' & HR). exists x'. simpl. auto.
Qed.

Lemma entries_names (d : SR.aggregation) (entries : list SR.report_item) :
  Forall2 (fun na e => SR.item_entry (fst na) (snd na) = Some e) d entries ->
  map SR.item_name entries = map fst d.
Proof.
  induction 1 as [|na e d entries He _ IH]; simpl; [reflexivity|].
  rewrite IH, (item_entry_name _ _ _ He). reflexivity.
Qed.

(** C7, counterexample.  For one row of 3 plates at 10 the item has
    total_amount 10.0 and total_quantity 3, and its unit_price is 3.33, not
    10 / 3. *)
Lemma unit_price_is_rounded :
  exists rep it,
    SR.fallback_parsing one_row_report = Some rep
    /\ In it (SR.items rep)
    /\ (0 < SR.total_quantity it)%Z
    /\ SR.unit_price it = SR.PFloat 3.33
    /\ SR.num_div (SR.total_amount it) (SR.total_quantity it) <> Some (SR.unit_price it).
Proof.
  eexists. eexists. split; [vm_compute; reflexivity|].
  split; [left; reflexivity|].
  split; [reflexivity|].
  split; [vm_compute; reflexivity|].
  vm_compute. intros H.
  apply (f_equal (fun o => match o with
                           | Some (SR.PFloat z) => (z <=? 3.33)%float
                           | _ => true
                           end)) in H.
  vm_compute in H. discriminate.
Qed.

(** ** The named multiplication line *)

(** ** Matching a line piece by piece *)

Lemma append_nil_r (s : string) : s ++ "" = s.
Proof. induction s; simpl; congruence. Qed.

Lemma length_app (a b : string) :
  String.length (a ++ b) = (String.length a + String.length b)%nat.
Proof. induction a; simpl; congruence. Qed.

Lemma append_assoc (a b c : string) : (a ++ b) ++ c = a ++ (b ++ c).
Proof. induction a; simpl; congruence. Qed.

Lemma append_snoc (a : string) (x : ascii) (b : string) :
  (a ++ String x "") ++ b = a ++ String x b.
Proof. rewrite append_assoc. reflexivity. Qed.

Lemma last_char_app (a b : string) (d : option ascii) :
  last_char (a ++ b) d = last_char b (last_char a d).
Proof. revert d. induction a as [|c a IH]; intros d; simpl; [reflexivity | apply IH]. Qed.

(** a greedy repetition takes a whole run of the class when what follows
    matches after it *)
Lemma rep_greedy_run {R : Type} (p : ascii -> bool) (k : cont R) (ds : string) :
  forall lo acc pv rest c r,
    sforall p ds = true ->
    starts_out p rest = true ->
    (lo <= String.length ds)%nat ->
    k (acc ++ ds) (last_char ds pv) rest c = Some r ->
    rep_greedy p lo None k acc pv (ds ++ rest) c = Some r.
Proof.
  induction ds as [|d ds IH]; intros lo acc pv rest c r Hds Hout Hlo Hk.
  - simpl in Hlo. assert (lo = O) by lia. subst lo.
    simpl in Hk. rewrite append_nil_r in Hk. simpl.
    destruct rest as [|a rest]; simpl; [exact Hk|].
    simpl in Hout. apply negb_true_iff in Hout. rewrite Hout. exact Hk.
  - simpl in Hds. apply andb_true_iff in Hds as [Hd Hds].
    simpl. rewrite Hd. simpl.
    rewrite (IH (pred lo) (acc ++ String d "") (Some d) rest c r); auto.
    + simpl in Hlo. lia.
    + rewrite append_snoc. exact Hk.
Qed.

(** a lazy repetition stops at the first place where what follows matches *)
Lemma rep_lazy_first {R : Type} (p : ascii -> bool) (k : cont R) (ds : string) :
  forall acc pv rest c r,
    sforall p ds = true ->
    (forall u v, ds = u ++ v -> v <> "" ->
                 k (acc ++ u) (last_char u pv) (v ++ rest) c = None) ->
    k (acc ++ ds) (last_char ds pv) rest c = Some r ->
    rep_lazy p 0 None k acc pv (ds ++ rest) c = Some r.
Proof.
  induction ds as [|d ds IH]; intros acc pv rest c r Hds Hearly Hk.
  - simpl in Hk. rewrite append_nil_r in Hk. simpl.
    destruct rest as [|a rest]; simpl.
    + exact Hk.
    + rewrite Hk. destruct (p a && true); reflexivity.
  - simpl in Hds. apply andb_true_iff in Hds as [Hd Hds].
    simpl. rewrite Hd. simpl.
    pose proof (Hearly "" (String d ds) eq_refl) as H0.
    rewrite append_nil_r in H0. simpl in H0. rewrite H0 by discriminate. simpl.
    apply IH; auto.
    + intros u v -> Hv. specialize (Hearly (String d u) v eq_refl Hv).
      rewrite append_snoc. exact Hearly.
    + rewrite append_snoc. exact Hk.
Qed.

(** blanks followed by a character outside [q] cannot be followed by one of
    [q]: the continuation of a separator fails inside a name *)
Lemma blanks_then_fail {R : Type} (q : ascii -> bool) (k : cont R) (v : string) :
  (forall t pv s c, starts_out q s = true -> k t pv s c = None) ->
  forall acc pv rest c,
    v <> "" ->
    sforall (fun a => negb (q a)) v = true ->
    last_char v None <> Some " "%char ->
    sforall (fun a => negb (is_space a) || Ascii.eqb a " ") v = true ->
    rep_greedy is_space 0 None k acc pv (v ++ rest) c = None.
Proof.
  intros Hk. induction v as [|a v IH]; intros acc pv rest c Hne Hq Hlast Hsp.
  - contradiction.
  - simpl in Hq, Hsp. apply andb_true_iff in Hq as [Ha Hq].
    apply andb_true_iff in Hsp as [Hsa Hsp].
    simpl.
    assert (Hstop : k acc pv (String a (v ++ rest)) c = None).
    { apply Hk. simpl. exact Ha. }
    rewrite Hstop. destruct (is_space a) eqn:Hspace; [|reflexivity].
    simpl. rewrite IH; auto.
    + intros ->. simpl in Hsa. apply Ascii.eqb_eq in Hsa. subst a.
      apply Hlast. reflexivity.
    + destruct v; [|exact Hlast].
      simpl in Hsa. apply Ascii.eqb_eq in Hsa. subst a. exfalso. apply Hlast. reflexivity.
Qed.

Lemma span_spec (p : ascii -> bool) (s : string) :
  forall a b, span p s = (a, b) ->
              s = a ++ b /\ sforall p a = true /\ starts_out p b = true.
Proof.
  induction s as [|c s IH]; intros a b; simpl.
  - intros [= <- <-]. auto.
  - destruct (p c) eqn:Hc.
    + destruct (span p s) as [a' b']. intros [= <- <-].
      destruct (IH a' b' eq_refl) as (-> & Ha & Hb). simpl. rewrite Hc. auto.
    + intros [= <- <-]. simpl. rewrite Hc. auto.
Qed.

Lemma is_empty_false (s : string) : is_empty s = false -> s <> "".
Proof. destruct s; [discriminate | discriminate]. Qed.

Lemma is_number_cases (s : string) :
  is_number s = true ->
  exists ip,
    ip <> "" /\ sforall is_digit ip = true
    /\ (s = ip
        \/ exists fp, fp <> "" /\ sforall is_digit fp = true /\ s = ip ++ String "." fp).
Proof.
  unfold is_number. destruct (span is_digit s) as [ip rest] eqn:E.
  apply span_spec in E as (-> & Hip & _). intros H.
  apply andb_true_iff in H as [Hne H]. apply negb_true_iff in Hne.
  exists ip. split; [apply is_empty_false; exact Hne|]. split; [exact Hip|].
  destruct rest as [|c fp].
  - left. apply append_nil_r.
  - apply andb_true_iff in H as [H Hfp]. apply andb_true_iff in H as [Hc Hfne].
    apply Ascii.eqb_eq in Hc. subst c. apply negb_true_iff in Hfne.
    right. exists fp. split; [apply is_empty_false; exact Hfne|]. auto.
Qed.

Lemma nonempty_length (s : string) : s <> "" -> (1 <= String.length s)%nat.
Proof. destruct s; [contradiction | simpl; lia]. Qed.

Lemma starts_out_weaken (p q : ascii -> bool) (s : string) :
  (forall a, p a = true -> q a = true) -> starts_out q s = true -> starts_out p s = true.
Proof.
  intros H. destruct s as [|a s]; simpl; [auto|].
  intros Hq. apply negb_true_iff in Hq. apply negb_true_iff.
  destruct (p a) eqn:E; [|reflexivity]. apply H in E. congruence.
Qed.

(** the number pattern takes a whole token when what follows the token
    matches after it *)
Lemma number_matches {R : Type} (k : cont R) (tok rest : string)
  (pv : option ascii) (c : caps) (r : R) :
  is_number tok = true ->
  starts_out digit_or_dot rest = true ->
  k tok (last_char tok pv) rest c = Some r ->
  rmatch R number k pv (tok ++ rest) c = Some r.
Proof.
  intros Htok Hrest Hk.
  assert (Hrd : starts_out is_digit rest = true).
  { eapply starts_out_weaken; [|exact Hrest]. intros a Ha. unfold digit_or_dot.
    rewrite Ha. reflexivity. }
  assert (Hdot : starts_out (Ascii.eqb ".") rest = true).
  { eapply starts_out_weaken; [|exact Hrest]. intros a Ha. unfold digit_or_dot.
    rewrite Ascii.eqb_sym, Ha. apply orb_true_r. }
  apply is_number_cases in Htok as (ip & Hne & Hip & [->|(fp & Hfne & Hfp & ->)]).
  - unfold number, plus, opt. cbn [rmatch lit].
    apply rep_greedy_run; auto using nonempty_length.
    cbn [append]. unfold or_else.
    destruct rest as [|a rest].
    + cbn. rewrite append_nil_r. exact Hk.
    + simpl in Hdot. apply negb_true_iff in Hdot. cbn. rewrite Hdot.
      rewrite append_nil_r. exact Hk.
  - rewrite append_assoc. unfold number, plus, opt. cbn [rmatch lit].
    apply rep_greedy_run; auto using nonempty_length.
    cbn [append]. cbn. 
    rewrite (rep_greedy_run is_digit _ fp 1 "" (Some "."%char) rest c r); auto using nonempty_length.
    rewrite last_char_app in Hk. simpl in Hk. exact Hk.
Qed.

Lemma is_number_head (tok : string) :
  is_number tok = true -> exists d rest, tok = String d rest /\ is_digit d = true.
Proof.
  intros H. apply is_number_cases in H as (ip & Hne & Hip & H).
  destruct ip as [|d ip]; [contradiction|]. simpl in Hip.
  apply andb_true_iff in Hip as [Hd _].
  destruct H as [->|(fp & _ & _ & ->)]; simpl; eauto.
Qed.

Lemma skip_blank {R : Type} (k : cont R) (acc : string) (pv : option ascii)
  (s : string) (c : caps) (r : R) :
  starts_out is_space s = true ->
  k (acc ++ " ") (Some " "%char) s c = Some r ->
  rep_greedy is_space 0 None k acc pv (String " " s) c = Some r.
Proof.
  intros Hs Hk.
  apply (rep_greedy_run is_space k " " 0 acc pv s c r);
    [reflexivity | exact Hs | simpl; lia | exact Hk].
Qed.

Lemma starts_out_number (p : ascii -> bool) (tok rest : string) :
  (forall a, is_digit a = true -> p a = false) ->
  is_number tok = true -> starts_out p (tok ++ rest) = true.
Proof.
  intros Hp H. apply is_number_head in H as (d & tl & -> & Hd).
  simpl. rewrite (Hp d Hd). reflexivity.
Qed.

Lemma digit_not_space (a : ascii) : is_digit a = true -> is_space a = false.
Proof.
  intros H. destruct (is_space a) eqn:E; [|reflexivity].
  apply space_not_digit in E. congruence.
Qed.

Lemma plain_is_name_char (a : ascii) :
  plain_char a = true -> EnhancedReceiptParser.name_char a = true.
Proof.
  unfold plain_char, EnhancedReceiptParser.name_char.
  intros H. apply orb_true_iff in H as [H|H]; [rewrite H; reflexivity|].
  apply orb_true_iff. right.
  destruct a as [[] [] [] [] [] [] [] []]; try discriminate H; reflexivity.
Qed.

Lemma plain_not_separator (a : ascii) :
  plain_char a = true -> negb (one_of "-:" a) = true.
Proof.
  destruct a as [[] [] [] [] [] [] [] []]; vm_compute; congruence.
Qed.

Lemma plain_blank_is_space (a : ascii) :
  plain_char a = true -> negb (is_space a) || Ascii.eqb a " " = true.
Proof.
  destruct a as [[] [] [] [] [] [] [] []]; vm_compute; congruence.
Qed.

Lemma sforall_impl (p q : ascii -> bool) (s : string) :
  (forall a, p a = true -> q a = true) -> sforall p s = true -> sforall q s = true.
Proof.
  intros H. induction s as [|a s IH]; simpl; [auto|].
  intros Hs. apply andb_true_iff in Hs as [Ha Hs]. rewrite (H a Ha). auto.
Qed.

Lemma last_char_nonempty (v : string) (d d' : option ascii) :
  v <> "" -> last_char v d = last_char v d'.
Proof. destruct v; [contradiction | reflexivity]. Qed.

Lemma number_matches_end {R : Type} (k : cont R) (tok : string)
  (pv : option ascii) (c : caps) (r : R) :
  is_number tok = true ->
  k tok (last_char tok pv) "" c = Some r ->
  rmatch R number k pv tok c = Some r.
Proof.
  intros Htok Hk. rewrite <- (append_nil_r tok) at 1.
  apply number_matches; auto.
Qed.

Lemma mult_pattern_matches (name q p t : string) :
  well_formed_name name = true ->
  is_number q = true -> is_number p = true -> is_number t = true ->
  re_match EnhancedReceiptParser.mult_pattern (mult_line name q p t)
  = Some {| m_text := mult_line name q p t;
            m_caps := [ (EnhancedReceiptParser.g_t, t); (EnhancedReceiptParser.g_p, p);
                        (EnhancedReceiptParser.g_q, q);
                        (EnhancedReceiptParser.g_name, name) ];
            m_rest := "" |}.
Proof.
  intros Hname Hq Hp Ht.
  destruct name as [|c0 n']; [discriminate|].
  simpl in Hname. apply andb_true_iff in Hname as [Hname Hlast].
  apply andb_true_iff in Hname as [Hc0 Hn'].
  unfold re_match, match_here, EnhancedReceiptParser.mult_pattern, mult_line.
  cbn [seqs rmatch opt append EnhancedReceiptParser.name_pattern star_lazy star].
  rewrite Hc0.
  match goal with
  | |- or_else ?A ?B = Some ?r => assert (HA : A = Some r); [|rewrite HA; reflexivity]
  end.
  apply rep_lazy_first.
  - eapply sforall_impl; [|exact Hn']. exact plain_is_name_char.
  - intros u v -> Hv. cbv beta.
    rewrite sforall_app in Hn'. apply andb_true_iff in Hn' as [_ Hv'].
    apply (blanks_then_fail (one_of "-:")); auto.
    + intros t0 pv s c Hs. destruct s as [|a s]; [reflexivity|].
      cbn [starts_out] in Hs. apply negb_true_iff in Hs. rewrite Hs. reflexivity.
    + eapply sforall_impl; [|exact Hv']. exact plain_not_separator.
    + rewrite last_char_app, (last_char_nonempty v _ None Hv) in Hlast.
      intros E. rewrite E in Hlast. discriminate.
    + eapply sforall_impl; [|exact Hv']. exact plain_blank_is_space.
  - cbv beta.
    apply skip_blank; [reflexivity|]. cbv beta iota. decide_test.
    apply skip_blank; [apply starts_out_number; [exact digit_not_space | exact Hq]|].
    cbv beta. apply number_matches; [exact Hq | reflexivity|]. cbv beta.
    apply skip_blank; [reflexivity|]. cbv beta iota. decide_test.
    apply skip_blank; [apply starts_out_number; [exact digit_not_space | exact Hp]|].
    cbv beta. apply number_matches; [exact Hp | reflexivity|]. cbv beta.
    apply skip_blank; [reflexivity|]. cbn [rmatch lit]. decide_test.
    apply skip_blank.
    { rewrite <- (append_nil_r t). apply starts_out_number; [exact digit_not_space | exact Ht]. }
    cbv beta. apply number_matches_end; [exact Ht|]. cbv beta.
    cbn [or_else is_empty orb k_done append].
    rewrite !append_assoc, append_nil_r. cbn [append]. reflexivity.
Qed.

(** *** The line reaches the pattern unchanged *)

Lemma splitlines_aux_plain (s : string) :
  forall cur,
    sforall (fun c => negb (is_linebreak c)) s = true ->
    splitlines_aux cur s = if is_empty (cur ++ s) then [] else [cur ++ s].
Proof.
  induction s as [|c s IH]; intros cur Hs; simpl.
  - rewrite append_nil_r. reflexivity.
  - simpl in Hs. apply andb_true_iff in Hs as [Hc Hs].
    apply negb_true_iff in Hc. rewrite Hc.
    rewrite (IH _ Hs), append_snoc. reflexivity.
Qed.

Lemma rstrip_by_keep (p : ascii -> bool) (s : string) (c : ascii) :
  last_char s None = Some c -> p c = false -> rstrip_by p s = s.
Proof.
  induction s as [|a s IH]; intros Hlast Hc; [reflexivity|].
  simpl. destruct s as [|b s].
  - simpl in Hlast. injection Hlast as ->. simpl. rewrite Hc. reflexivity.
  - rewrite IH; auto.
Qed.

Lemma strip_keep (s : string) (c0 c : ascii) (rest : string) :
  s = String c0 rest -> is_space c0 = false ->
  last_char s None = Some c -> is_space c = false ->
  strip s = s.
Proof.
  intros -> H0 Hlast Hc. unfold strip, strip_by.
  rewrite (rstrip_by_keep is_space _ c Hlast Hc). simpl. rewrite H0. reflexivity.
Qed.

(** a class that does not occur in the subject is replaced nowhere *)
Lemma sub_class_absent (p : ascii -> bool) (repl : mobj -> string) (s : string) :
  forall pv,
    sforall (fun c => negb (p c)) s = true -> sub_aux (Cls p) repl 0 pv s = s.
Proof.
  induction s as [|a s IH]; intros pv Hs; [reflexivity|].
  simpl in Hs. apply andb_true_iff in Hs as [Ha Hs]. apply negb_true_iff in Ha.
  simpl. unfold match_here. simpl. rewrite Ha, (IH _ Hs). reflexivity.
Qed.

(** no currency sign begins with a character of 7-bit text other than the
    dollar sign *)
Lemma currency_cleanup_fails_here (pv : option ascii) (a : ascii) (rest : string) :
  ascii7 a && negb (Ascii.eqb a "$") = true ->
  match_here EnhancedReceiptParser.currency_cleanup pv (String a rest) = None.
Proof. destruct a as [[] [] [] [] [] [] [] []]; vm_compute; congruence. Qed.

Lemma currency_cleanup_absent (repl : mobj -> string) (s : string) :
  forall pv,
    sforall (fun c => ascii7 c && negb (Ascii.eqb c "$")) s = true ->
    sub_aux EnhancedReceiptParser.currency_cleanup repl 0 pv s = s.
Proof.
  induction s as [|a s IH]; intros pv Hs; [reflexivity|].
  simpl in Hs. apply andb_true_iff in Hs as [Ha Hs].
  cbn [sub_aux]. rewrite (currency_cleanup_fails_here pv a s Ha), (IH _ Hs).
  reflexivity.
Qed.

Lemma dots_inside_app_plain (a b : string) :
  sforall (fun c => negb (Ascii.eqb c ".")) a = true ->
  dots_inside b = true -> dots_inside (a ++ b) = true.
Proof.
  induction a as [|c a IH]; simpl; [auto|].
  intros Ha Hb. apply andb_true_iff in Ha as [Hc Ha]. apply negb_true_iff in Hc.
  rewrite Hc. simpl. auto.
Qed.

Lemma digit_not_dot (c : ascii) : is_digit c = true -> negb (Ascii.eqb c ".") = true.
Proof. destruct c as [[] [] [] [] [] [] [] []]; vm_compute; congruence. Qed.

Lemma dots_inside_number (tok rest : string) :
  is_number tok = true -> dots_inside rest = true -> dots_inside (tok ++ rest) = true.
Proof.
  intros H Hrest.
  apply is_number_cases in H as (ip & _ & Hip & [->|(fp & Hfne & Hfp & ->)]).
  - apply dots_inside_app_plain; [|exact Hrest].
    eapply sforall_impl; [|exact Hip]. exact digit_not_dot.
  - rewrite append_assoc. apply dots_inside_app_plain.
    + eapply sforall_impl; [|exact Hip]. exact digit_not_dot.
    + assert (Hfp' : dots_inside (fp ++ rest) = true).
      { apply dots_inside_app_plain; [|exact Hrest].
        eapply sforall_impl; [|exact Hfp]. exact digit_not_dot. }
      destruct fp as [|d fp]; [contradiction|].
      simpl in Hfp. apply andb_true_iff in Hfp as [Hd _].
      change (String "." (String d fp) ++ rest) with (String "." (String d fp ++ rest)).
      cbn [dots_inside]. rewrite Hfp'.
      cbn [append starts_out Ascii.eqb Bool.eqb]. rewrite Hd. reflexivity.
Qed.

(** digits followed by a dot inside a number are not followed by a blank or
    the end: the pattern of the trailing dot matches nowhere *)
Lemma trailing_dot_fails_here (s : string) :
  forall lo acc pv c,
    dots_inside s = true ->
    rep_greedy is_digit lo None
      (fun t1 pv1 s1 c1 =>
         rmatch mobj (seqs [lit "."; Ahead (Alt (Cls is_space) Eol)])
           (fun t2 pv2 s2 c2 => k_done (t1 ++ t2) pv2 s2 c2) pv1 s1 ((1%nat, t1) :: c1))
      acc pv s c = None.
Proof.
  induction s as [|a s IH]; intros lo acc pv c Hs.
  - simpl. destruct lo; reflexivity.
  - simpl in Hs. apply andb_true_iff in Hs as [Ha Hs].
    assert (Hstop : rmatch mobj (seqs [lit "."; Ahead (Alt (Cls is_space) Eol)])
                      (fun t2 pv2 s2 c2 => k_done (acc ++ t2) pv2 s2 c2) pv
                      (String a s) ((1%nat, acc) :: c) = None).
    { cbn [seqs rmatch lit]. rewrite Ascii.eqb_sym.
      destruct (Ascii.eqb a ".") eqn:Edot; [|reflexivity].
      destruct s as [|d s]; [discriminate|].
      simpl in Ha. apply negb_true_iff in Ha. apply negb_false_iff in Ha.
      cbn [or_else]. rewrite (digit_not_space d Ha). cbn [is_empty orb].
      replace (String.eqb (String d s) (String LF "")) with false; [reflexivity|].
      symmetry. apply String.eqb_neq. intros [= -> _]. discriminate Ha. }
    cbn [rep_greedy]. rewrite IH by exact Hs. cbn [or_else].
    destruct (is_digit a && may_repeat None); destruct lo; try reflexivity; exact Hstop.
Qed.

Lemma dots_inside_tail (a : ascii) (s : string) :
  dots_inside (String a s) = true -> dots_inside s = true.
Proof. simpl. intros H. apply andb_true_iff in H as [_ H]. exact H. Qed.

Lemma trailing_dot_absent (repl : mobj -> string) (s : string) :
  forall pv,
    dots_inside s = true ->
    sub_aux EnhancedReceiptParser.trailing_dot repl 0 pv s = s.
Proof.
  induction s as [|a s IH]; intros pv Hs; [reflexivity|].
  cbn [sub_aux].
  assert (Hm : match_here EnhancedReceiptParser.trailing_dot pv (String a s) = None).
  { unfold match_here, EnhancedReceiptParser.trailing_dot, plus.
    cbn [seqs rmatch]. 
    apply (trailing_dot_fails_here (String a s) 1 "" pv [] Hs). }
  rewrite Hm, (IH _ (dots_inside_tail a s Hs)). reflexivity.
Qed.

Lemma line_char_plain (c : ascii) : plain_char c = true -> line_char c = true.
Proof. unfold line_char. intros ->. reflexivity. Qed.

Lemma line_char_number (c : ascii) : digit_or_dot c = true -> line_char c = true.
Proof. unfold line_char. intros ->. rewrite orb_true_r. reflexivity. Qed.

Lemma line_char_not_linebreak (c : ascii) :
  line_char c = true -> negb (is_linebreak c) = true.
Proof. destruct c as [[] [] [] [] [] [] [] []]; vm_compute; congruence. Qed.

Lemma line_char_not_currency (c : ascii) :
  line_char c = true -> ascii7 c && negb (Ascii.eqb c "$") = true.
Proof. destruct c as [[] [] [] [] [] [] [] []]; vm_compute; congruence. Qed.

Lemma plain_not_dot (c : ascii) : plain_char c = true -> negb (Ascii.eqb c ".") = true.
Proof. destruct c as [[] [] [] [] [] [] [] []]; vm_compute; congruence. Qed.

Lemma alpha_is_plain (c : ascii) : is_alpha c = true -> plain_char c = true.
Proof. unfold plain_char, is_alnum. intros ->. reflexivity. Qed.

Lemma alpha_not_space (c : ascii) : is_alpha c = true -> is_space c = false.
Proof. destruct c as [[] [] [] [] [] [] [] []]; vm_compute; congruence. Qed.

Lemma is_number_chars (tok : string) :
  is_number tok = true -> sforall digit_or_dot tok = true.
Proof.
  intros H. apply is_number_cases in H as (ip & _ & Hip & [->|(fp & _ & Hfp & ->)]).
  - eapply sforall_impl; [|exact Hip]. unfold digit_or_dot. intros a ->. reflexivity.
  - rewrite sforall_app. simpl. apply andb_true_iff. split.
    + eapply sforall_impl; [|exact Hip]. unfold digit_or_dot. intros a ->. reflexivity.
    + eapply sforall_impl; [|exact Hfp]. unfold digit_or_dot. intros a ->. reflexivity.
Qed.

Lemma last_char_sforall (p : ascii -> bool) (s : string) (d : option ascii) :
  s <> "" -> sforall p s = true -> exists c, last_char s d = Some c /\ p c = true.
Proof.
  revert d. induction s as [|a s IH]; intros d Hne Hs; [contradiction|].
  simpl in Hs. apply andb_true_iff in Hs as [Ha Hs]. simpl.
  destruct s as [|b s].
  - exists a. auto.
  - apply IH; [discriminate | exact Hs].
Qed.

Lemma is_number_last (tok : string) (d : option ascii) :
  is_number tok = true -> exists c, last_char tok d = Some c /\ is_digit c = true.
Proof.
  intros H. apply is_number_cases in H as (ip & Hne & Hip & [->|(fp & Hfne & Hfp & ->)]).
  - apply last_char_sforall; assumption.
  - rewrite last_char_app. simpl. apply last_char_sforall; assumption.
Qed.

Section WellFormedLine.

Variables name q p t : string.
Hypothesis Hname : well_formed_name name = true.
Hypothesis Hq : is_number q = true.
Hypothesis Hp : is_number p = true.
Hypothesis Ht : is_number t = true.

Lemma name_shape :
  exists c0 rest,
    name = String c0 rest /\ is_alpha c0 = true /\ sforall plain_char name = true
    /\ exists c, last_char name None = Some c /\ is_space c = false.
Proof.
  destruct name as [|c0 rest] eqn:E; [discriminate|].
  unfold well_formed_name in Hname.
  apply andb_true_iff in Hname as [H Hlast].
  apply andb_true_iff in H as [Hc0 Hrest].
  assert (Hall : sforall plain_char (String c0 rest) = true).
  { simpl. rewrite (alpha_is_plain c0 Hc0). exact Hrest. }
  exists c0, rest. repeat split; auto.
  destruct (last_char_sforall plain_char (String c0 rest) None) as (c & Hc & Hpc);
    [discriminate | exact Hall |].
  exists c. split; [exact Hc|].
  rewrite Hc in Hlast. apply negb_true_iff in Hlast.
  pose proof (plain_blank_is_space c Hpc) as Hb. rewrite Hlast, orb_false_r in Hb.
  apply negb_true_iff in Hb. exact Hb.
Qed.

Lemma strip_name : strip name = name.
Proof.
  destruct name_shape as (c0 & rest & E & Hc0 & _ & c & Hc & Hsp).
  eapply strip_keep; eauto using alpha_not_space.
Qed.

Lemma line_chars : sforall line_char (mult_line name q p t) = true.
Proof.
  destruct name_shape as (c0 & rest & _ & _ & Hall & _).
  unfold mult_line. rewrite !sforall_app.
  rewrite (sforall_impl _ _ _ line_char_plain Hall).
  rewrite (sforall_impl _ _ _ line_char_number (is_number_chars q Hq)).
  rewrite (sforall_impl _ _ _ line_char_number (is_number_chars p Hp)).
  rewrite (sforall_impl _ _ _ line_char_number (is_number_chars t Ht)).
  reflexivity.
Qed.

Lemma line_dots : dots_inside (mult_line name q p t) = true.
Proof.
  destruct name_shape as (c0 & rest & _ & _ & Hall & _).
  unfold mult_line.
  apply dots_inside_app_plain; [eapply sforall_impl; [|exact Hall]; exact plain_not_dot|].
  apply dots_inside_app_plain; [reflexivity|].
  apply dots_inside_number; [exact Hq|].
  apply dots_inside_app_plain; [reflexivity|].
  apply dots_inside_number; [exact Hp|].
  apply dots_inside_app_plain; [reflexivity|].
  rewrite <- (append_nil_r t). apply dots_inside_number; [exact Ht | reflexivity].
Qed.

Lemma strip_line : strip (mult_line name q p t) = mult_line name q p t.
Proof.
  destruct name_shape as (c0 & rest & E & Hc0 & _ & _).
  destruct (is_number_last t (Some " "%char) Ht) as (d & Hd & Hdig).
  eapply (strip_keep _ c0 d).
  - unfold mult_line. rewrite E. reflexivity.
  - apply alpha_not_space. exact Hc0.
  - unfold mult_line. rewrite !last_char_app. simpl. exact Hd.
  - apply digit_not_space. exact Hdig.
Qed.

Lemma line_length : (3 <= String.length (mult_line name q p t))%nat.
Proof.
  unfold mult_line. rewrite !length_app. simpl. lia.
Qed.

Lemma prepare_line_keeps :
  EnhancedReceiptParser.prepare_line (mult_line name q p t) = mult_line name q p t.
Proof.
  unfold EnhancedReceiptParser.prepare_line, re_sub.
  rewrite currency_cleanup_absent
    by (eapply sforall_impl; [|exact line_chars]; exact line_char_not_currency).
  rewrite strip_line. apply trailing_dot_absent. exact line_dots.
Qed.

Lemma stripped_lines_single :
  EnhancedReceiptParser.stripped_lines (mult_line name q p t) = [mult_line name q p t].
Proof.
  unfold EnhancedReceiptParser.stripped_lines, splitlines.
  rewrite splitlines_aux_plain
    by (eapply sforall_impl; [|exact line_chars]; exact line_char_not_linebreak).
  cbn [append].
  assert (Hne : is_empty (mult_line name q p t) = false).
  { destruct name_shape as (c0 & rest & E & _). unfold mult_line. rewrite E. reflexivity. }
  rewrite Hne. cbn [filter]. rewrite strip_line, Hne.
  cbn [negb andb map]. rewrite strip_line. reflexivity.
Qed.

End WellFormedLine.

Lemma is_number_float (s : string) :
  is_number s = true -> py_float s = Some (to_float s).
Proof.
  unfold to_float. destruct (py_float s) eqn:E; [reflexivity|].
  unfold is_number, py_float in *. destruct (span is_digit s) as [ip rest].
  intros H. apply andb_true_iff in H as [Hip H]. apply negb_true_iff in Hip.
  destruct rest as [|c fp].
  - rewrite Hip in E. discriminate.
  - apply andb_true_iff in H as [H Hfp]. apply andb_true_iff in H as [Hc Hfne].
    rewrite Hc, Hfp in E.
    destruct ip; [discriminate|]. discriminate.
Qed.

(** C1, counterexample.  The name of the emitted item is the cleaned name,
    not the trimmed one: "chicken" is emitted as "Chicken".  A line of the
    same form whose name is a skip keyword emits no item at all. *)
Lemma name_is_cleaned_not_trimmed :
  (exists it,
      EnhancedReceiptParser._deterministic_parse_items "chicken - 2 x 140 = 280"
      = Some [it]
      /\ EnhancedReceiptParser.item_name it = "Chicken"
      /\ EnhancedReceiptParser.item_name it <> strip "chicken")
  /\ EnhancedReceiptParser._deterministic_parse_items "Total - 2 x 3 = 6" = Some [].
Proof.
  split.
  - eexists. split; [vm_compute; reflexivity|]. split; [reflexivity|].
    vm_compute. discriminate.
  - vm_compute. reflexivity.
Qed.

(** C1, as amended.  For a line "Name - Q x P = T" that does not start with a
    skip keyword, where Name starts with a letter, is made of letters, digits,
    blanks and "/", "&", "(", ")", and does not end with a blank, and where Q,
    P and T are numbers (digits, optionally a dot and digits), the parser
    emits exactly one item: its item_name is the cleaned name
    ([_clean_item_name], which among others title-cases it), its quantity is
    Q, its unit_price P and its total_price T, with confidence 0.95, whether
    or not T is close to Q * P.  In particular "Chicken - 2 x 140 = 280"
    gives "Chicken", 2.0, 140.0, 280.0. *)
Theorem named_multiplication_line (name q p t : string) :
  well_formed_name name = true ->
  is_number q = true -> is_number p = true -> is_number t = true ->
  re_search EnhancedReceiptParser.skip_line (mult_line name q p t) = None ->
  exists it,
    EnhancedReceiptParser._deterministic_parse_items (mult_line name q p t) = Some [it]
    /\ EnhancedReceiptParser.item_name it = EnhancedReceiptParser._clean_item_name name
    /\ py_float q = Some (EnhancedReceiptParser.quantity it)
    /\ py_float p = Some (EnhancedReceiptParser.unit_price it)
    /\ py_float t = EnhancedReceiptParser.total_price it
    /\ EnhancedReceiptParser.unit it = "pieces"
    /\ EnhancedReceiptParser.confidence it = Some 0.95%float.
Proof.
  intros Hname Hq Hp Ht Hskip.
  exists (EnhancedReceiptParser._enhance_item
            (EnhancedReceiptParser.mk_item name (to_float q) "pieces"
               (to_float p) (to_float t) 0.95%float)).
  split; [|split; [reflexivity|]].
  - unfold EnhancedReceiptParser._deterministic_parse_items.
    rewrite (stripped_lines_single name q p t Hname Hq Hp Ht).
    cbn [EnhancedReceiptParser.parse_lines].
    unfold EnhancedReceiptParser.parse_line.
    rewrite (prepare_line_keeps name q p t Hname Hq Hp Ht).
    rewrite (length_ge_3_not_empty _ (line_length name q p t)), Hskip.
    cbn [is_some].
    rewrite (mult_pattern_matches name q p t Hname Hq Hp Ht).
    unfold EnhancedReceiptParser.mult_branch, grp. cbn [m_caps group Nat.eqb
      EnhancedReceiptParser.g_name EnhancedReceiptParser.g_q EnhancedReceiptParser.g_p
      EnhancedReceiptParser.g_t default].
    assert (Hne : is_empty name = false) by (destruct name; [discriminate | reflexivity]).
    rewrite Hne, (strip_name name Hname). reflexivity.
  - rewrite (is_number_float q Hq), (is_number_float p Hp), (is_number_float t Ht).
    repeat split; reflexivity.
Qed.

(** the example of the specification: "Chicken - 2 x 140 = 280" *)
Lemma named_multiplication_line_witness :
  exists it,
    EnhancedReceiptParser._deterministic_parse_items "Chicken - 2 x 140 = 280" = Some [it]
    /\ EnhancedReceiptParser.item_name it = "Chicken"
    /\ EnhancedReceiptParser.quantity it = 2%float
    /\ EnhancedReceiptParser.unit_price it = 140%float
    /\ EnhancedReceiptParser.total_price it = Some 280%float
    /\ EnhancedReceiptParser.confidence it = Some 0.95%float.
Proof.
  destruct (named_multiplication_line "Chicken" "2" "140" "280")
    as (it & Hparse & Hn & Hq & Hp & Ht & _ & Hc); try reflexivity.
  exists it. split; [exact Hparse|].
  split; [rewrite Hn; vm_compute; reflexivity|].
  split; [vm_compute in Hq; injection Hq as Hq; symmetry; exact Hq|].
  split; [vm_compute in Hp; injection Hp as Hp; symmetry; exact Hp|].
  split; [rewrite <- Ht; vm_compute; reflexivity | exact Hc].
Defined.

(** ** Strings: stripping, case and character classes *)

Lemma rstrip_by_empty (p : ascii -> bool) (s : string) :
  rstrip_by p s = "" -> sforall p s = true.
Proof.
  induction s as [|c rest IH]; simpl; [reflexivity|].
  destruct (rstrip_by p rest) as [|d t] eqn:E; simpl.
  - destruct (p c); [intros _; simpl; apply IH; reflexivity | discriminate].
  - discriminate.
Qed.

Lemma lstrip_by_all (p : ascii -> bool) (s : string) :
  sforall p s = true -> lstrip_by p s = "".
Proof.
  induction s as [|c rest IH]; simpl; [reflexivity|].
  destruct (p c); simpl; [exact IH | discriminate].
Qed.

Lemma lstrip_by_idem (p : ascii -> bool) (s : string) :
  lstrip_by p (lstrip_by p s) = lstrip_by p s.
Proof.
  induction s as [|c rest IH]; simpl; [reflexivity|].
  destruct (p c) eqn:E; [exact IH|]. simpl. rewrite E. reflexivity.
Qed.

Lemma rstrip_by_idem (p : ascii -> bool) (s : string) :
  rstrip_by p (rstrip_by p s) = rstrip_by p s.
Proof.
  induction s as [|c rest IH]; simpl; [reflexivity|].
  destruct (is_empty (rstrip_by p rest) && p c) eqn:E; [reflexivity|].
  simpl. rewrite IH, E. reflexivity.
Qed.

Lemma strip_by_comm (p : ascii -> bool) (s : string) :
  rstrip_by p (lstrip_by p s) = lstrip_by p (rstrip_by p s).
Proof.
  induction s as [|c rest IH]; simpl; [reflexivity|].
  destruct (p c) eqn:Ec.
  - destruct (rstrip_by p rest) as [|d t] eqn:Er; simpl.
    + rewrite (lstrip_by_all p rest (rstrip_by_empty p rest Er)). reflexivity.
    + rewrite Ec. rewrite IH. reflexivity.
  - simpl. rewrite Ec, andb_false_r. simpl. rewrite Ec. reflexivity.
Qed.

Lemma strip_by_idem (p : ascii -> bool) (s : string) :
  strip_by p (strip_by p s) = strip_by p s.
Proof.
  unfold strip_by.
  rewrite (strip_by_comm p (rstrip_by p s)), rstrip_by_idem, lstrip_by_idem.
  reflexivity.
Qed.

Lemma strip_idem (s : string) : strip (strip s) = strip s.
Proof. apply strip_by_idem. Qed.

Lemma is_empty_smap (f : ascii -> ascii) (s : string) :
  is_empty (smap f s) = is_empty s.
Proof. destruct s; reflexivity. Qed.

Lemma lstrip_by_smap (p : ascii -> bool) (f : ascii -> ascii) (s : string) :
  (forall c, p (f c) = p c) -> lstrip_by p (smap f s) = smap f (lstrip_by p s).
Proof.
  intros H. induction s as [|c rest IH]; simpl; [reflexivity|].
  rewrite H. destruct (p c); [exact IH | reflexivity].
Qed.

Lemma rstrip_by_smap (p : ascii -> bool) (f : ascii -> ascii) (s : string) :
  (forall c, p (f c) = p c) -> rstrip_by p (smap f s) = smap f (rstrip_by p s).
Proof.
  intros H. induction s as [|c rest IH]; simpl; [reflexivity|].
  rewrite IH, is_empty_smap, H.
  destruct (is_empty (rstrip_by p rest) && p c); reflexivity.
Qed.

Lemma is_space_to_lower (c : ascii) : is_space (to_lower c) = is_space c.
Proof. destruct c as [[] [] [] [] [] [] [] []]; vm_compute; reflexivity. Qed.

Lemma to_lower_idem (c : ascii) : to_lower (to_lower c) = to_lower c.
Proof. destruct c as [[] [] [] [] [] [] [] []]; vm_compute; reflexivity. Qed.

Lemma strip_lower (s : string) : strip (lower s) = lower (strip s).
Proof.
  unfold strip, strip_by, lower.
  rewrite rstrip_by_smap by apply is_space_to_lower.
  apply lstrip_by_smap, is_space_to_lower.
Qed.

Lemma lower_idem (s : string) : lower (lower s) = lower s.
Proof.
  unfold lower. induction s as [|c rest IH]; simpl; [reflexivity|].
  rewrite to_lower_idem, IH. reflexivity.
Qed.

Lemma sforall_lstrip (q p : ascii -> bool) (s : string) :
  sforall q s = true -> sforall q (lstrip_by p s) = true.
Proof.
  induction s as [|c rest IH]; simpl; [reflexivity|].
  intros H. apply andb_prop in H as [Hc Hr].
  destruct (p c); [apply IH, Hr | simpl; rewrite Hc, Hr; reflexivity].
Qed.

Lemma sforall_rstrip (q p : ascii -> bool) (s : string) :
  sforall q s = true -> sforall q (rstrip_by p s) = true.
Proof.
  induction s as [|c rest IH]; simpl; [reflexivity|].
  intros H. apply andb_prop in H as [Hc Hr].
  destruct (is_empty (rstrip_by p rest) && p c); [reflexivity|].
  simpl. rewrite Hc. apply IH, Hr.
Qed.

Lemma sforall_strip_by (q p : ascii -> bool) (s : string) :
  sforall q s = true -> sforall q (strip_by p s) = true.
Proof. intros H. apply sforall_lstrip, sforall_rstrip, H. Qed.

Lemma sforall_drop (q : ascii -> bool) (n : nat) :
  forall s, sforall q s = true -> sforall q (drop n s) = true.
Proof.
  induction n as [|n IH]; intros s H; [exact H|].
  destruct s as [|c rest]; [reflexivity|].
  simpl in *. apply andb_prop in H as [_ Hr]. apply IH, Hr.
Qed.

Lemma sforall_smap (q : ascii -> bool) (f : ascii -> ascii) (s : string) :
  (forall c, q c = true -> q (f c) = true) ->
  sforall q s = true -> sforall q (smap f s) = true.
Proof.
  intros Hf. induction s as [|c rest IH]; simpl; [reflexivity|].
  intros H. apply andb_prop in H as [Hc Hr]. rewrite (Hf c Hc). apply IH, Hr.
Qed.

(** what [pattern.sub] returns is made of characters of the subject and of
    the replacements *)
Lemma sforall_sub (q : ascii -> bool) (r : regex) (repl : mobj -> string) (s : string) :
  (forall m, sforall q (repl m) = true) ->
  forall skip pv, sforall q s = true -> sforall q (sub_aux r repl skip pv s) = true.
Proof.
  intros Hrepl. induction s as [|a rest IH]; intros skip pv H; [reflexivity|].
  simpl in H. apply andb_prop in H as [Ha Hr]. simpl.
  destruct skip as [|n]; [|apply IH, Hr].
  destruct (match_here r pv (String a rest)) as [m|].
  - destruct (is_empty (m_text m)).
    + simpl. rewrite Ha. apply IH, Hr.
    + rewrite sforall_app, Hrepl. apply IH, Hr.
  - simpl. rewrite Ha. apply IH, Hr.
Qed.

(** removing the characters of a class keeps the others, in order *)
Lemma sub_class_filter (p : ascii -> bool) (s : string) :
  forall pv, sub_aux (Cls p) (fun _ => "") 0 pv s = sfilter (fun c => negb (p c)) s.
Proof.
  induction s as [|a rest IH]; intros pv; [reflexivity|].
  simpl. unfold match_here. simpl. destruct (p a); simpl; rewrite IH; reflexivity.
Qed.

Lemma sforall_sfilter (p : ascii -> bool) (s : string) : sforall p (sfilter p s) = true.
Proof.
  induction s as [|a rest IH]; simpl; [reflexivity|].
  destruct (p a) eqn:E; [simpl; rewrite E; exact IH | exact IH].
Qed.

Lemma sforall_sfilter_keep (q p : ascii -> bool) (s : string) :
  sforall q s = true -> sforall q (sfilter p s) = true.
Proof.
  induction s as [|a rest IH]; simpl; [reflexivity|].
  intros H. apply andb_prop in H as [Ha Hr].
  destruct (p a); [simpl; rewrite Ha|]; apply IH, Hr.
Qed.

Lemma sforall_replace (q : ascii -> bool) (old new : string) (s : string) :
  sforall q new = true ->
  forall skip, sforall q s = true -> sforall q (replace_aux old new skip s) = true.
Proof.
  intros Hnew. induction s as [|a rest IH]; intros skip H; [reflexivity|].
  simpl in H. apply andb_prop in H as [Ha Hr]. simpl.
  destruct skip as [|n]; [|apply IH, Hr].
  destruct (startswith old (String a rest)).
  - rewrite sforall_app, Hnew. apply IH, Hr.
  - simpl. rewrite Ha. apply IH, Hr.
Qed.

Lemma sforall_title (q : ascii -> bool) (s : string) :
  (forall c, q c = true -> q (to_upper c) = true /\ q (to_lower c) = true) ->
  forall cased, sforall q s = true -> sforall q (title_aux cased s) = true.
Proof.
  intros Hq. induction s as [|a rest IH]; intros cased H; [reflexivity|].
  simpl in H. apply andb_prop in H as [Ha Hr]. simpl.
  destruct (Hq a Ha) as [Hu Hl].
  destruct (is_lower a).
  - simpl. rewrite (IH true Hr). destruct cased; rewrite ?Ha, ?Hu; reflexivity.
  - destruct (is_upper a); simpl; rewrite (IH _ Hr).
    + destruct cased; rewrite ?Ha, ?Hl; reflexivity.
    + rewrite Ha. reflexivity.
Qed.

(** ** The matcher: what a match and its groups are made of *)

Lemma rep_greedy_inv {R : Type} (p : ascii -> bool) (k : cont R) (s : string) :
  forall lo hi acc pv c res,
    rep_greedy p lo hi k acc pv s c = Some res ->
    exists t s',
      s = t ++ s' /\ sforall p t = true /\ (lo <= String.length t)%nat
      /\ match hi with Some h => (String.length t <= h)%nat | None => True end
      /\ k (acc ++ t) (last_char t pv) s' c = Some res.
Proof.
  assert (Hstop : forall lo hi acc pv s0 c res,
             match lo with O => k acc pv s0 c | S _ => None end = Some res ->
             exists t s', s0 = t ++ s' /\ sforall p t = true /\ (lo <= String.length t)%nat
               /\ match hi with Some h => (String.length t <= h)%nat | None => True end
               /\ k (acc ++ t) (last_char t pv) s' c = Some res).
  { intros lo hi acc pv s0 c res H. destruct lo; [|discriminate].
    exists "", s0. rewrite append_nil_r. simpl.
    repeat split; auto. destruct hi; [simpl; lia | exact I]. }
  induction s as [|a rest IH]; intros lo hi acc pv c res H.
  - simpl in H. apply Hstop; exact H.
  - simpl in H.
    destruct (p a && may_repeat hi) eqn:E; [|apply Hstop; exact H].
    apply andb_prop in E as [Ea Eh].
    destruct (rep_greedy p (pred lo) (option_map pred hi) k (acc ++ String a "")
                (Some a) rest c) as [r1|] eqn:E1.
    + simpl in H. injection H as <-.
      apply IH in E1 as (t & s' & -> & Ht & Hlo & Hhi & Hk).
      exists (String a t), s'. simpl. rewrite Ea, Ht.
      rewrite append_snoc in Hk.
      repeat split; auto; [lia|].
      destruct hi as [[|h]|]; simpl in *; try discriminate; try lia; exact I.
    + simpl in H. apply Hstop; exact H.
Qed.

Lemma rep_lazy_inv {R : Type} (p : ascii -> bool) (k : cont R) (s : string) :
  forall lo hi acc pv c res,
    rep_lazy p lo hi k acc pv s c = Some res ->
    exists t s',
      s = t ++ s' /\ sforall p t = true /\ (lo <= String.length t)%nat
      /\ match hi with Some h => (String.length t <= h)%nat | None => True end
      /\ k (acc ++ t) (last_char t pv) s' c = Some res.
Proof.
  assert (Hstop : forall lo hi acc pv s0 c res,
             match lo with O => k acc pv s0 c | S _ => None end = Some res ->
             exists t s', s0 = t ++ s' /\ sforall p t = true /\ (lo <= String.length t)%nat
               /\ match hi with Some h => (String.length t <= h)%nat | None => True end
               /\ k (acc ++ t) (last_char t pv) s' c = Some res).
  { intros lo hi acc pv s0 c res H. destruct lo; [|discriminate].
    exists "", s0. rewrite append_nil_r. simpl.
    repeat split; auto. destruct hi; [simpl; lia | exact I]. }
  induction s as [|a rest IH]; intros lo hi acc pv c res H.
  - simpl in H. apply Hstop; exact H.
  - simpl in H.
    destruct (p a && may_repeat hi) eqn:E; [|apply Hstop; exact H].
    apply andb_prop in E as [Ea Eh].
    destruct (match lo with O => k acc pv (String a rest) c | S _ => None end) as [r0|] eqn:E0.
    + simpl in H. injection H as <-. apply (Hstop lo hi). exact E0.
    + simpl in H.
      apply IH in H as (t & s' & -> & Ht & Hlo & Hhi & Hk).
      exists (String a t), s'. simpl. rewrite Ea, Ht.
      rewrite append_snoc in Hk.
      repeat split; auto; [lia|].
      destruct hi as [[|h]|]; simpl in *; try discriminate; try lia; exact I.
Qed.

Lemma caps_grow_refl (c : caps) : caps_grow [] c c.
Proof. intros n [[]|H]. exact H. Qed.

Lemma caps_grow_trans (g1 g2 : list nat) (c c1 c2 : caps) :
  caps_grow g1 c c1 -> caps_grow g2 c1 c2 -> caps_grow (g1 ++ g2) c c2.
Proof.
  intros H1 H2 n [Hn|Hn].
  - apply in_app_or in Hn as [Hn|Hn]; [apply H2; right; apply H1|apply H2]; auto.
  - apply H2. right. apply H1. auto.
Qed.

Lemma caps_grow_weaken (g : list nat) (c c' : caps) :
  caps_grow g c c' -> caps_grow [] c c'.
Proof. intros H n [[]|Hn]. apply H. auto. Qed.

(** A match goes on with the rest of the subject after a text of the language
    of the pattern; the captures it adds are texts of their groups, and the
    groups outside alternatives are all captured. *)
Lemma rmatch_sound (G : nat -> string -> Prop) (r : regex) :
  grp_ok G r ->
  forall (R : Type) (k : cont R) pv s c res,
    caps_ok G c ->
    rmatch R r k pv s c = Some res ->
    exists t s' c',
      s = t ++ s' /\ lang r t /\ caps_ok G c' /\ caps_grow (sure r) c c'
      /\ k t (last_char t pv) s' c' = Some res.
Proof.
  induction r as [ | p | r1 IH1 r2 IH2 | r1 IH1 r2 IH2 | g lo hi p | n r1 IH1
                 | | | | r1 IH1 ];
    intros Hg R k pv s c res Hc H; simpl in H.
  - exists "", s, c. simpl. auto using caps_grow_refl.
  - destruct s as [|a rest]; [discriminate|].
    destruct (p a) eqn:E; [|discriminate].
    exists (String a ""), rest, c. simpl. repeat split; auto using caps_grow_refl.
    exists a. auto.
  - destruct Hg as [Hg1 Hg2].
    apply (IH1 Hg1) in H as (t1 & s1 & c1 & -> & L1 & Hc1 & G1 & H); [|exact Hc].
    apply (IH2 Hg2) in H as (t2 & s2 & c2 & -> & L2 & Hc2 & G2 & H); [|exact Hc1].
    exists (t1 ++ t2), s2, c2. rewrite append_assoc, last_char_app.
    repeat split; auto; [|exact (caps_grow_trans _ _ _ _ _ G1 G2)].
    simpl. exists t1, t2. auto.
  - destruct Hg as [Hg1 Hg2].
    destruct (rmatch R r1 k pv s c) as [r0|] eqn:E1; simpl in H.
    + injection H as <-.
      apply (IH1 Hg1) in E1 as (t & s' & c' & -> & L & Hc' & G1 & H); [|exact Hc].
      exists t, s', c'. simpl. eauto 10 using caps_grow_weaken.
    + apply (IH2 Hg2) in H as (t & s' & c' & -> & L & Hc' & G2 & H); [|exact Hc].
      exists t, s', c'. simpl. eauto 10 using caps_grow_weaken.
  - destruct g.
    + apply rep_greedy_inv in H as (t & s' & -> & Ht & Hlo & Hhi & H).
      exists t, s', c. simpl. auto 10 using caps_grow_refl.
    + apply rep_lazy_inv in H as (t & s' & -> & Ht & Hlo & Hhi & H).
      exists t, s', c. simpl. auto 10 using caps_grow_refl.
  - destruct Hg as [Hn Hg1].
    apply (IH1 Hg1) in H as (t & s' & c' & -> & L & Hc' & G1 & H); [|exact Hc].
    exists t, s', ((n, t) :: c'). simpl. repeat split; auto.
    + constructor; [apply Hn, L | exact Hc'].
    + intros i Hi. simpl. destruct (Nat.eqb n i) eqn:E; [reflexivity|].
      apply G1. destruct Hi as [[Hi|Hi]|Hi]; auto.
      subst. rewrite Nat.eqb_refl in E. discriminate.
  - destruct pv; [discriminate|]. exists "", s, c. simpl. auto using caps_grow_refl.
  - destruct (is_empty s || (s =? String LF "")%string); [|discriminate].
    exists "", s, c. simpl. auto using caps_grow_refl.
  - destruct (xorb _ _); [|discriminate]. exists "", s, c. simpl.
    auto using caps_grow_refl.
  - destruct (rmatch caps r1 (fun _ _ _ c1 => Some c1) pv s c) as [c1|] eqn:E1;
      [|discriminate].
    apply (IH1 Hg) in E1 as (t & s' & c' & _ & _ & Hc' & G1 & E1); [|exact Hc].
    injection E1 as ->.
    exists "", s, c1. simpl. eauto 10 using caps_grow_weaken.
Qed.

Lemma match_here_sound (G : nat -> string -> Prop) (r : regex) (pv : option ascii)
  (s : string) (m : mobj) :
  grp_ok G r -> match_here r pv s = Some m ->
  s = m_text m ++ m_rest m /\ lang r (m_text m) /\ caps_ok G (m_caps m).
Proof.
  intros Hg H. unfold match_here in H.
  apply (rmatch_sound G r Hg) in H as (t & s' & c' & -> & L & Hc & _ & H); [|constructor].
  unfold k_done in H. injection H as <-. simpl. auto.
Qed.

(** a group outside the alternatives of the pattern is captured, and holds a
    text of the group *)
Lemma match_here_group (G : nat -> string -> Prop) (r : regex) (pv : option ascii)
  (s : string) (m : mobj) (n : nat) :
  grp_ok G r -> match_here r pv s = Some m -> In n (sure r) -> G n (grp n m).
Proof.
  intros Hg H Hn. unfold match_here in H.
  apply (rmatch_sound G r Hg) in H as (t & s' & c' & -> & L & Hc & Hs & H); [|constructor].
  unfold k_done in H. injection H as <-. unfold grp. simpl.
  specialize (Hs n (or_introl Hn)).
  destruct (group n c') as [u|] eqn:E; [|discriminate].
  simpl. clear -Hc E. induction c' as [|[i v] rest IH]; simpl in E; [discriminate|].
  inversion Hc as [|x l Hx Hl]; subst. simpl in Hx.
  destruct (Nat.eqb i n) eqn:En.
  - apply Nat.eqb_eq in En. subst. injection E as <-. exact Hx.
  - apply IH; assumption.
Qed.

(** where a search finds its match *)
Lemma search_at_inv (r : regex) (s : string) :
  forall pv m, search_at r pv s = Some m ->
    exists before rest,
      s = before ++ rest /\ match_here r (last_char before pv) rest = Some m.
Proof.
  induction s as [|a rest IH]; intros pv m H; simpl in H.
  - destruct (match_here r pv "") as [m0|] eqn:E; simpl in H; [|discriminate].
    injection H as <-. exists "", "". auto.
  - destruct (match_here r pv (String a rest)) as [m0|] eqn:E; simpl in H.
    + injection H as <-. exists "", (String a rest). auto.
    + apply IH in H as (before & rest' & -> & H).
      exists (String a before), rest'. auto.
Qed.

Lemma search_at_none (r : regex) (s : string) :
  forall pv, search_at r pv s = None ->
    forall before rest, s = before ++ rest ->
                        match_here r (last_char before pv) rest = None.
Proof.
  induction s as [|a s' IH]; intros pv H before rest E; simpl in H.
  - destruct before; [|discriminate]. simpl in E. subst. cbn [last_char].
    destruct (match_here r pv ""); [discriminate | reflexivity].
  - destruct (match_here r pv (String a s')) as [m0|] eqn:E0; simpl in H; [discriminate|].
    destruct before as [|b before'].
    + simpl in E. subst. exact E0.
    + simpl in E. injection E as Hb Hs. subst. simpl. apply (IH _ H). reflexivity.
Qed.

Lemma search_at_sound (G : nat -> string -> Prop) (r : regex) (s : string) :
  grp_ok G r ->
  forall pv m, search_at r pv s = Some m ->
    (exists before, s = before ++ m_text m ++ m_rest m)
    /\ lang r (m_text m) /\ caps_ok G (m_caps m).
Proof.
  intros Hg. induction s as [|a rest IH]; intros pv m H; simpl in H.
  - destruct (match_here r pv "") as [m0|] eqn:E; simpl in H; [|discriminate].
    injection H as <-. apply (match_here_sound G) in E as (E & L & Hc); [|exact Hg].
    split; [exists ""; exact E | auto].
  - destruct (match_here r pv (String a rest)) as [m0|] eqn:E; simpl in H.
    + injection H as <-. apply (match_here_sound G) in E as (E & L & Hc); [|exact Hg].
      split; [exists ""; exact E | auto].
    + apply IH in H as ((before & ->) & L & Hc).
      split; [exists (String a before); reflexivity | auto].
Qed.

Lemma findall_sound (G : nat -> string -> Prop) (r : regex) (s : string) :
  grp_ok G r ->
  forall skip pv m, In m (findall_aux r skip pv s) ->
    lang r (m_text m) /\ caps_ok G (m_caps m).
Proof.
  intros Hg. induction s as [|a rest IH]; intros skip pv m H; simpl in H; [destruct H|].
  destruct skip as [|n]; [|apply IH in H; exact H].
  destruct (match_here r pv (String a rest)) as [m0|] eqn:E; [|apply IH in H; exact H].
  destruct (is_empty (m_text m0)); [apply IH in H; exact H|].
  destruct H as [<-|H]; [|apply IH in H; exact H].
  apply (match_here_sound G) in E as (_ & L & Hc); auto.
Qed.

(** the group [n] of a match whose captures are sound *)
Lemma caps_ok_grp (G : nat -> string -> Prop) (n : nat) (m : mobj) :
  caps_ok G (m_caps m) -> G n "" -> G n (grp n m).
Proof.
  intros Hc H0. unfold grp. induction (m_caps m) as [|[i t] rest IH]; simpl; [exact H0|].
  inversion Hc as [|x l Hx Hl]; subst. simpl in Hx.
  destruct (Nat.eqb i n) eqn:E; [apply Nat.eqb_eq in E; subst; exact Hx | apply IH, Hl].
Qed.

Lemma caps_ok_group (G : nat -> string -> Prop) (n : nat) (c : caps) (t : string) :
  caps_ok G c -> group n c = Some t -> G n t.
Proof.
  intros Hc. induction c as [|[i u] rest IH]; simpl; [discriminate|].
  inversion Hc as [|x l Hx Hl]; subst. simpl in Hx.
  destruct (Nat.eqb i n) eqn:E.
  - apply Nat.eqb_eq in E; subst. intros H; injection H as <-. exact Hx.
  - apply IH, Hl.
Qed.

(** ** The branch of the last three numbers: the numbers of a line *)

Lemma findall_skip (r : regex) (s : string) :
  forall pv rest,
    findall_aux r (String.length s) pv (s ++ rest)
    = findall_aux r 0 (last_char s pv) rest.
Proof.
  induction s as [|a s IH]; intros pv rest; [reflexivity|].
  simpl. apply IH.
Qed.

Lemma sub_skip_all (r : regex) (repl : mobj -> string) (s : string) :
  forall n pv, (String.length s <= n)%nat -> sub_aux r repl n pv s = "".
Proof.
  induction s as [|a s IH]; intros n pv Hn; [reflexivity|].
  simpl in Hn. destruct n as [|n]; [lia|]. simpl. apply IH. lia.
Qed.

Lemma number_needs_digit {R : Type} (k : cont R) (pv : option ascii) (a : ascii)
  (rest : string) (c : caps) :
  is_digit a = false -> rmatch R number k pv (String a rest) c = None.
Proof.
  intros Ha. unfold number, plus. cbn [rmatch rep_greedy]. rewrite Ha. reflexivity.
Qed.

Lemma number_at_token (tok rest : string) (pv : option ascii) :
  is_number tok = true -> starts_out digit_or_dot rest = true ->
  match_here number pv (tok ++ rest)
  = Some {| m_text := tok; m_caps := []; m_rest := rest |}.
Proof.
  intros Htok Hrest. unfold match_here.
  apply number_matches; [exact Htok | exact Hrest | reflexivity].
Qed.

Lemma findall_number_token (tok rest : string) (pv : option ascii) :
  is_number tok = true -> starts_out digit_or_dot rest = true ->
  map m_text (findall_aux number 0 pv (tok ++ rest))
  = tok :: map m_text (findall_aux number 0 (last_char tok pv) rest).
Proof.
  intros Htok Hrest.
  pose proof (number_at_token tok rest pv Htok Hrest) as Hm.
  destruct (is_number_head tok Htok) as (d & tl & -> & Hd).
  cbn [append] in Hm |- *. cbn [findall_aux]. rewrite Hm.
  cbn [m_text is_empty map].
  replace (String.length (String d tl) - 1)%nat with (String.length tl)
    by (simpl; lia).
  rewrite findall_skip. reflexivity.
Qed.

Lemma findall_number_blanks (sp rest : string) :
  forall pv,
    sforall is_space sp = true ->
    findall_aux number 0 pv (sp ++ rest)
    = findall_aux number 0 (last_char sp pv) rest.
Proof.
  induction sp as [|a sp IH]; intros pv Hsp; [reflexivity|].
  simpl in Hsp. apply andb_true_iff in Hsp as [Ha Hsp].
  cbn [append findall_aux]. unfold match_here.
  rewrite (number_needs_digit k_done pv a (sp ++ rest) [] (space_not_digit a Ha)).
  apply IH. exact Hsp.
Qed.

Lemma blanks_cases (s : string) :
  blanks s = true ->
  sforall is_space s = true
  /\ exists a rest, s = String a rest /\ is_space a = true.
Proof.
  unfold blanks. intros H. apply andb_true_iff in H as [Hne Hs].
  split; [exact Hs|]. destruct s as [|a rest]; [discriminate|].
  simpl in Hs. apply andb_true_iff in Hs as [Ha _]. eauto.
Qed.

Lemma space_not_digit_or_dot (a : ascii) :
  is_space a = true -> digit_or_dot a = false.
Proof. destruct a as [[] [] [] [] [] [] [] []]; vm_compute; congruence. Qed.

Lemma starts_out_blanks (s rest : string) :
  blanks s = true -> starts_out digit_or_dot (s ++ rest) = true.
Proof.
  intros H. apply blanks_cases in H as (_ & a & tl & -> & Ha).
  simpl. rewrite (space_not_digit_or_dot a Ha). reflexivity.
Qed.

(** the numbers of a line that ends in three numbers end in these three *)
Lemma numbers_of_three (ta s1 tb s2 tc : string) (pv : option ascii) :
  is_number ta = true -> is_number tb = true -> is_number tc = true ->
  blanks s1 = true -> blanks s2 = true ->
  map m_text (findall_aux number 0 pv (ta ++ s1 ++ tb ++ s2 ++ tc)) = [ta; tb; tc].
Proof.
  intros Ha Hb Hc H1 H2.
  rewrite findall_number_token by (auto using starts_out_blanks).
  rewrite findall_number_blanks by (apply blanks_cases in H1; tauto).
  rewrite findall_number_token by (auto using starts_out_blanks).
  rewrite findall_number_blanks by (apply blanks_cases in H2; tauto).
  rewrite <- (append_nil_r tc) at 1.
  rewrite findall_number_token by auto.
  reflexivity.
Qed.

Lemma lang_number_shape (t : string) :
  lang number t ->
  sforall digit_or_dot t = true
  /\ exists d tl, t = String d tl /\ is_digit d = true.
Proof.
  intros (t1 & t2 & -> & (H1 & Hl & _) & H2).
  assert (Hd1 : sforall digit_or_dot t1 = true).
  { eapply sforall_impl; [|exact H1]. unfold digit_or_dot. intros a ->. reflexivity. }
  split.
  - rewrite sforall_app, Hd1. cbn [andb].
    destruct H2 as [(u1 & u2 & -> & Hdot & (Hfrac & _))|H2].
    + destruct Hdot as (x & y & -> & (ch & -> & Hch) & ->).
      apply Ascii.eqb_eq in Hch. subst ch. simpl.
      eapply sforall_impl; [|exact Hfrac]. unfold digit_or_dot. intros a ->. reflexivity.
    + simpl in H2. subst. reflexivity.
  - destruct t1 as [|d tl]; [simpl in Hl; lia|].
    simpl in H1. apply andb_true_iff in H1 as [Hd _].
    exists d, (tl ++ t2). auto.
Qed.

Lemma ends_outside_tail (a : ascii) (s : string) :
  ends_outside_number (String a s) = true -> ends_outside_number s = true.
Proof.
  unfold ends_outside_number. destruct s as [|b s]; [reflexivity|].
  simpl. auto.
Qed.

(** a common prefix: of two splits of a string, the shorter first part is a
    prefix of the longer *)
Lemma app_eq_prefix (u : string) :
  forall v u' v',
    u ++ v = u' ++ v' -> (String.length u' <= String.length u)%nat ->
    exists w, u = u' ++ w.
Proof.
  induction u as [|a u IH]; intros v u' v' E Hl.
  - destruct u'; [exists ""; reflexivity | simpl in Hl; lia].
  - destruct u' as [|b u'].
    + exists (String a u). reflexivity.
    + simpl in E. injection E as -> E. simpl in Hl.
      destruct (IH v u' v' E) as (w & ->); [lia|]. exists w. reflexivity.
Qed.

Lemma ends_outside_not_all (p : string) :
  p <> "" -> ends_outside_number p = true -> sforall digit_or_dot p = false.
Proof.
  intros Hne H. destruct (sforall digit_or_dot p) eqn:E; [|reflexivity].
  destruct (last_char_sforall digit_or_dot p None Hne E) as (c & Hc & Hq).
  unfold ends_outside_number in H. rewrite Hc, Hq in H. discriminate.
Qed.

(** a number found before the end of [p] ends before the end of [p] *)
Lemma number_within (p tail : string) (pv : option ascii) (m : mobj) :
  p <> "" -> ends_outside_number p = true ->
  match_here number pv (p ++ tail) = Some m ->
  (String.length (m_text m) <= String.length p)%nat.
Proof.
  intros Hne Hout H.
  apply (match_here_sound (fun _ _ => True)) in H as (E & L & _); [|simpl; auto].
  apply lang_number_shape in L as [Hall _].
  destruct (Nat.le_gt_cases (String.length (m_text m)) (String.length p)) as [Hle|Hgt];
    [exact Hle|].
  destruct (app_eq_prefix (m_text m) (m_rest m) p tail) as (w & Hw); [auto | lia|].
  rewrite Hw, sforall_app in Hall. apply andb_true_iff in Hall as [Hp _].
  rewrite (ends_outside_not_all p Hne Hout) in Hp. discriminate.
Qed.

Lemma findall_number_before (tail : string) (p : string) :
  forall skip pv,
    ends_outside_number p = true -> (skip <= String.length p)%nat ->
    exists l pv',
      findall_aux number skip pv (p ++ tail)
      = (l ++ findall_aux number 0 pv' tail)%list.
Proof.
  induction p as [|a p IH]; intros skip pv Hout Hskip.
  - simpl in Hskip. assert (skip = O) by lia. subst. exists [], pv. reflexivity.
  - pose proof (ends_outside_tail a p Hout) as Hout'.
    cbn [append findall_aux]. destruct skip as [|n].
    + destruct (match_here number pv (String a (p ++ tail))) as [m|] eqn:E.
      * destruct (is_empty (m_text m)); [apply IH; [exact Hout' | lia]|].
        pose proof (number_within (String a p) tail pv m) as Hw.
        cbn [append] in Hw. specialize (Hw ltac:(discriminate) Hout E).
        destruct (IH (String.length (m_text m) - 1)%nat (Some a) Hout')
          as (l & pv' & Hl); [simpl in Hw; lia|].
        exists (m :: l), pv'. rewrite Hl. reflexivity.
      * apply IH; [exact Hout' | lia].
    + apply IH; [exact Hout' | simpl in Hskip; lia].
Qed.

Lemma last3_app {A : Type} (l : list A) (a b c : A) :
  EnhancedReceiptParser.last3 (l ++ [a; b; c]) = Some (a, b, c).
Proof.
  induction l as [|x l IH]; [reflexivity|].
  destruct l as [|y l]; [reflexivity|].
  destruct l as [|z l]; [reflexivity|].
  destruct l as [|w l]; [reflexivity|].
  exact IH.
Qed.

(** the last three numbers of a line that ends in three numbers *)
Lemma last_three_numbers (before ta s1 tb s2 tc : string) :
  ends_outside_number before = true ->
  is_number ta = true -> is_number tb = true -> is_number tc = true ->
  blanks s1 = true -> blanks s2 = true ->
  EnhancedReceiptParser.last3
    (map m_text (re_findall number (triplet_line before ta s1 tb s2 tc)))
  = Some (ta, tb, tc).
Proof.
  intros Hout Ha Hb Hc H1 H2. unfold re_findall, triplet_line.
  destruct (findall_number_before (ta ++ s1 ++ tb ++ s2 ++ tc) before 0 None Hout)
    as (l & pv' & Hl); [lia|].
  rewrite Hl, map_app, (numbers_of_three ta s1 tb s2 tc pv' Ha Hb Hc H1 H2).
  apply last3_app.
Qed.

(** ** The branch of the last three numbers: the description *)

Lemma last_char_some (s : string) :
  forall d, exists c, last_char s (Some d) = Some c.
Proof. induction s as [|a s IH]; intros d; simpl; eauto. Qed.

Lemma ends_blank_cons (b : bool) (a : ascii) (u : string) :
  ends_blank b (String a u) = ends_blank (is_space a) u.
Proof.
  unfold ends_blank. destruct u as [|c u]; [reflexivity|].
  cbn [last_char]. destruct (last_char_some u c) as (x & ->). reflexivity.
Qed.

Lemma heads_app (u v : string) :
  forall b, heads b (u ++ v) = (heads b u + heads (ends_blank b u) v)%nat.
Proof.
  induction u as [|a u IH]; intros b; [reflexivity|].
  cbn [append heads]. rewrite IH, ends_blank_cons. lia.
Qed.

Lemma heads_no_digit (s : string) :
  forall b, sforall (fun c => negb (is_digit c)) s = true -> heads b s = O.
Proof.
  induction s as [|a s IH]; intros b H; [reflexivity|].
  simpl in H. apply andb_true_iff in H as [Ha Hs]. apply negb_true_iff in Ha.
  cbn [heads]. rewrite Ha, andb_false_r, (IH _ Hs). reflexivity.
Qed.

Lemma heads_no_space (s : string) :
  forall b, sforall (fun c => negb (is_space c)) s = true ->
            (heads b s <= Nat.b2n b)%nat.
Proof.
  induction s as [|a s IH]; intros b H; [simpl; lia|].
  simpl in H. apply andb_true_iff in H as [Ha Hs]. apply negb_true_iff in Ha.
  cbn [heads]. rewrite Ha. specialize (IH false Hs). simpl in IH.
  destruct b; simpl; destruct (is_digit a); simpl; lia.
Qed.

Lemma digit_or_dot_not_space (a : ascii) :
  digit_or_dot a = true -> negb (is_space a) = true.
Proof. destruct a as [[] [] [] [] [] [] [] []]; vm_compute; congruence. Qed.

Lemma space_is_no_digit (a : ascii) : is_space a = true -> negb (is_digit a) = true.
Proof. intros H. rewrite (space_not_digit a H). reflexivity. Qed.

(** a number and the blanks after it hold no digit after a blank *)
Lemma heads_group (g : string) (b : bool) :
  lang (Grp 1 (Seq number (star is_space))) g ->
  (heads b g <= Nat.b2n b)%nat
  /\ sforall (fun c => digit_or_dot c || is_space c) g = true.
Proof.
  intros (t1 & t2 & -> & L1 & (H2 & _)).
  apply lang_number_shape in L1 as [Hall _].
  split.
  - rewrite heads_app.
    rewrite (heads_no_digit t2) by (eapply sforall_impl; [|exact H2]; exact space_is_no_digit).
    pose proof (heads_no_space t1 b) as H.
    specialize (H ltac:(eapply sforall_impl; [|exact Hall]; exact digit_or_dot_not_space)).
    lia.
  - rewrite sforall_app. apply andb_true_iff. split.
    + eapply sforall_impl; [|exact Hall]. intros a ->. reflexivity.
    + eapply sforall_impl; [|exact H2]. intros a ->. apply orb_true_r.
Qed.

Lemma heads_token (tok rest : string) :
  is_number tok = true ->
  exists b, (1 + heads b rest <= heads true (tok ++ rest))%nat.
Proof.
  intros H. apply is_number_head in H as (d & tl & -> & Hd).
  cbn [append heads]. rewrite Hd. cbn [andb]. rewrite heads_app.
  exists (ends_blank (is_space d) tl). lia.
Qed.

Lemma heads_blanks (sp rest : string) (b : bool) :
  blanks sp = true -> (heads true rest <= heads b (sp ++ rest))%nat.
Proof.
  intros H. apply blanks_cases in H as (Hs & a & tl & E & Ha).
  rewrite heads_app.
  replace (ends_blank b sp) with true; [lia|].
  unfold ends_blank.
  destruct (last_char_sforall is_space sp None) as (c & Hc & Hq);
    [subst; discriminate | exact Hs|].
  rewrite Hc, Hq. reflexivity.
Qed.

Lemma heads_three (p ta s1 tb s2 tc : string) :
  ends_blank false p = true ->
  is_number ta = true -> is_number tb = true -> is_number tc = true ->
  blanks s1 = true -> blanks s2 = true ->
  (3 <= heads false (p ++ ta ++ s1 ++ tb ++ s2 ++ tc))%nat.
Proof.
  intros Hp Ha Hb Hc H1 H2. rewrite heads_app, Hp.
  destruct (heads_token ta (s1 ++ tb ++ s2 ++ tc) Ha) as (b1 & Hta).
  pose proof (heads_blanks s1 (tb ++ s2 ++ tc) b1 H1) as Hs1.
  destruct (heads_token tb (s2 ++ tc) Hb) as (b2 & Htb).
  pose proof (heads_blanks s2 tc b2 H2) as Hs2.
  destruct (heads_token tc "" Hc) as (b3 & Htc). rewrite append_nil_r in Htc.
  lia.
Qed.

(** one step of a sequence: the first pattern matches a text of its
    language, and the second goes on from there *)
Lemma rmatch_seq_inv {R : Type} (r1 r2 : regex) (k : cont R) (pv : option ascii)
  (s : string) (c : caps) (res : R) :
  grp_ok (fun _ _ => True) r1 ->
  rmatch R (Seq r1 r2) k pv s c = Some res ->
  exists t1 s1 c1 pv1,
    s = t1 ++ s1 /\ lang r1 t1
    /\ rmatch R r2 (fun t2 pv2 s2 c2 => k (t1 ++ t2) pv2 s2 c2) pv1 s1 c1 = Some res.
Proof.
  intros Hg H. cbn [rmatch] in H.
  apply (rmatch_sound (fun _ _ => True) r1 Hg) in H
    as (t1 & s1 & c1 & -> & L & _ & _ & H);
    [|clear; induction c as [|x c IH]; constructor; auto].
  exists t1, s1, c1, (last_char t1 pv). auto.
Qed.

(** the pattern of the trailing numbers matches at no place before the
    three numbers *)
Lemma trailing_numbers_not_before (p ta s1 tb s2 tc : string) (pv : option ascii) :
  p <> "" -> ends_outside_number p = true ->
  is_number ta = true -> is_number tb = true -> is_number tc = true ->
  blanks s1 = true -> blanks s2 = true ->
  match_here EnhancedReceiptParser.trailing_numbers pv
    (p ++ ta ++ s1 ++ tb ++ s2 ++ tc) = None.
Proof.
  intros Hne Hout Ha Hb Hc H1 H2.
  destruct (match_here _ _ _) as [m|] eqn:E; [exfalso|reflexivity].
  unfold match_here, EnhancedReceiptParser.trailing_numbers in E.
  cbv zeta in E. cbn [seqs] in E.
  assert (Hg : grp_ok (fun _ _ => True) (Grp 1 (Seq number (star is_space))))
    by (simpl; repeat split; auto).
  apply (rmatch_seq_inv _ _ _ _ _ _ _ Hg) in E as (g1 & r1 & c1 & pv1 & E1 & L1 & E).
  apply (rmatch_seq_inv _ _ _ _ _ _ _ Hg) in E as (g2 & r2 & c2 & pv2 & -> & L2 & E).
  apply (rmatch_seq_inv _ _ _ _ _ _ _ Hg) in E as (g3 & r3 & c3 & pv3 & -> & L3 & E).
  cbn [rmatch] in E.
  destruct (is_empty r3 || (r3 =? String LF "")%string) eqn:Eend; [|discriminate].
  clear E.
  assert (Hr3 : heads (ends_blank (ends_blank (ends_blank false g1) g2) g3) r3 = O
                /\ sforall (fun c => digit_or_dot c || is_space c) r3 = true).
  { apply orb_true_iff in Eend as [Ee|Ee].
    - destruct r3; [split; reflexivity | discriminate].
    - apply String.eqb_eq in Ee. subst r3.
      split; [apply heads_no_digit; reflexivity | reflexivity]. }
  destruct Hr3 as [Hh3 Hq3].
  destruct (heads_group g1 false L1) as [Hh1 Hq1].
  destruct (heads_group g2 (ends_blank false g1) L2) as [Hhg2 Hq2].
  destruct (heads_group g3 (ends_blank (ends_blank false g1) g2) L3) as [Hhg3 Hq3'].
  assert (Hle : (heads false (p ++ ta ++ s1 ++ tb ++ s2 ++ tc) <= 2)%nat).
  { rewrite E1, !heads_app, Hh3.
    pose proof (Nat.b2n_le_1 (ends_blank false g1)).
    pose proof (Nat.b2n_le_1 (ends_blank (ends_blank false g1) g2)).
    simpl in Hh1. lia. }
  assert (Hall : sforall (fun c => digit_or_dot c || is_space c)
                   (p ++ ta ++ s1 ++ tb ++ s2 ++ tc) = true).
  { rewrite E1, !sforall_app, Hq1, Hq2, Hq3', Hq3. reflexivity. }
  rewrite sforall_app in Hall. apply andb_true_iff in Hall as [Hp _].
  destruct (last_char_sforall _ p None Hne Hp) as (ch & Hch & Hq).
  assert (Hblank : ends_blank false p = true).
  { unfold ends_blank. rewrite Hch. unfold ends_outside_number in Hout.
    rewrite Hch in Hout. apply negb_true_iff in Hout. rewrite Hout in Hq. exact Hq. }
  pose proof (heads_three p ta s1 tb s2 tc Hblank Ha Hb Hc H1 H2). lia.
Qed.

Lemma rmatch_seq {R : Type} (r1 r2 : regex) (k : cont R) (pv : option ascii)
  (s : string) (c : caps) :
  rmatch R (Seq r1 r2) k pv s c
  = rmatch R r1
      (fun t1 pv1 s1 c1 =>
         rmatch R r2 (fun t2 pv2 s2 c2 => k (t1 ++ t2) pv2 s2 c2) pv1 s1 c1)
      pv s c.
Proof. reflexivity. Qed.

(** a number and the blanks after it, as the group of the pattern *)
Lemma number_group_matches {R : Type} (k : cont R) (tok sp rest : string)
  (pv : option ascii) (c : caps) (r : R) :
  is_number tok = true -> sforall is_space sp = true ->
  starts_out digit_or_dot (sp ++ rest) = true ->
  starts_out is_space rest = true ->
  k (tok ++ sp) (last_char sp (last_char tok pv)) rest ((1%nat, tok ++ sp) :: c) = Some r ->
  rmatch R (Grp 1 (Seq number (star is_space))) k pv (tok ++ sp ++ rest) c = Some r.
Proof.
  intros Htok Hsp Hout Hrest Hk. cbn [rmatch].
  apply number_matches; [exact Htok | exact Hout|]. cbv beta.
  unfold star. cbn [rmatch].
  apply (rep_greedy_run is_space _ sp 0 "" (last_char tok pv) rest c r);
    [exact Hsp | exact Hrest | lia | exact Hk].
Qed.

Lemma starts_out_token (p : ascii -> bool) (tok rest : string) :
  (forall a, is_digit a = true -> p a = false) ->
  is_number tok = true -> starts_out p (tok ++ rest) = true.
Proof. apply starts_out_number. Qed.

(** the pattern of the trailing numbers matches the three numbers, up to the
    end of the line *)
Lemma trailing_numbers_here (ta s1 tb s2 tc : string) (pv : option ascii) :
  is_number ta = true -> is_number tb = true -> is_number tc = true ->
  blanks s1 = true -> blanks s2 = true ->
  exists m,
    match_here EnhancedReceiptParser.trailing_numbers pv (ta ++ s1 ++ tb ++ s2 ++ tc)
    = Some m
    /\ m_text m = ta ++ s1 ++ tb ++ s2 ++ tc.
Proof.
  intros Ha Hb Hc H1 H2.
  pose proof (blanks_cases s1 H1) as [Hs1 _].
  pose proof (blanks_cases s2 H2) as [Hs2 _].
  eexists. split.
  - unfold match_here, EnhancedReceiptParser.trailing_numbers.
    cbv zeta. cbn [seqs]. rewrite rmatch_seq.
    apply (number_group_matches _ ta s1);
      [exact Ha | exact Hs1 | apply starts_out_blanks; exact H1
      | apply starts_out_number; [exact digit_not_space | exact Hb] |].
    rewrite rmatch_seq.
    apply (number_group_matches _ tb s2);
      [exact Hb | exact Hs2 | apply starts_out_blanks; exact H2
      | rewrite <- (append_nil_r tc);
        apply starts_out_number; [exact digit_not_space | exact Hc] |].
    rewrite rmatch_seq.
    rewrite <- (append_nil_r tc) at 1.
    change (tc ++ "") with (tc ++ "" ++ "").
    apply (number_group_matches _ tc "" "");
      [exact Hc | reflexivity | reflexivity | reflexivity |].
    cbn [rmatch is_empty orb]. unfold k_done. reflexivity.
  - cbn [m_text]. rewrite !append_nil_r, !append_assoc. reflexivity.
Qed.

(** removing the trailing numbers of a line that ends in three numbers
    leaves what precedes them *)
Lemma trailing_numbers_removed (ta s1 tb s2 tc : string) :
  is_number ta = true -> is_number tb = true -> is_number tc = true ->
  blanks s1 = true -> blanks s2 = true ->
  forall before pv,
    ends_outside_number before = true ->
    sub_aux EnhancedReceiptParser.trailing_numbers (fun _ => "") 0 pv
      (before ++ ta ++ s1 ++ tb ++ s2 ++ tc) = before.
Proof.
  intros Ha Hb Hc H1 H2. induction before as [|a p IH]; intros pv Hout.
  - destruct (trailing_numbers_here ta s1 tb s2 tc pv Ha Hb Hc H1 H2) as (m & Hm & Ht).
    cbn [append]. destruct (is_number_head ta Ha) as (d & tl & E & _).
    remember (ta ++ s1 ++ tb ++ s2 ++ tc) as tail eqn:Etail.
    destruct tail as [|x tail']; [rewrite E in Etail; discriminate|].
    cbn [sub_aux]. rewrite Hm, Ht. cbn [is_empty append].
    apply sub_skip_all. simpl. lia.
  - cbn [append sub_aux].
    pose proof (trailing_numbers_not_before (String a p) ta s1 tb s2 tc pv) as Hn.
    cbn [append] in Hn. rewrite Hn; auto; [|discriminate].
    rewrite IH; [reflexivity|]. exact (ends_outside_tail a p Hout).
Qed.

Lemma is_number_length (tok : string) : is_number tok = true -> (1 <= String.length tok)%nat.
Proof.
  intros H. apply is_number_head in H as (d & tl & -> & _). simpl. lia.
Qed.

Lemma within_tolerance_is_approx_equal (x y : float) :
  EnhancedReceiptParser._approx_equal x y = within_tolerance x y.
Proof. reflexivity. Qed.

(** C2, counterexample.  The line "Rice 2 50 100" matches none of the
    multiplication, dimension and weight patterns, 2 * 50 is 100, both
    numbers are positive and the line without its numbers is "Rice", no skip
    word; yet when the same line has been read before, no item is emitted
    for it. *)
Lemma repeated_line_is_not_emitted :
  let line := "Rice 2 50 100" in
  exists st1 it,
    EnhancedReceiptParser.parse_line EnhancedReceiptParser.init_state line = Some st1
    /\ EnhancedReceiptParser.items st1 = [it]
    /\ EnhancedReceiptParser.parse_line st1 line = Some st1
    /\ EnhancedReceiptParser._deterministic_parse_items (line ++ String LF line)
       = Some [it]
    /\ re_match EnhancedReceiptParser.mult_pattern line = None
    /\ re_match EnhancedReceiptParser.dimension_pattern line = None
    /\ re_match EnhancedReceiptParser.weight_pattern line = None
    /\ map m_text (re_findall number line) = ["2"; "50"; "100"]
    /\ within_tolerance (2 * 50) 100 = true
    /\ (0 <? 2)%float = true /\ (0 <? 50)%float = true
    /\ re_search EnhancedReceiptParser.skip_line (lower "Rice") = None.
Proof.
  intros line. eexists. eexists.
  split; [vm_compute; reflexivity|].
  repeat split; vm_compute; reflexivity.
Qed.

(** numbers with signs between them: the pattern of the trailing numbers
    removes the last of them only, and the item is named after the rest of
    the line, the first two numbers included *)
Lemma numbers_apart_stay_in_the_name :
  exists it,
    EnhancedReceiptParser._deterministic_parse_items "2 - 50 - 100" = Some [it]
    /\ EnhancedReceiptParser.item_name it = "2 - 50".
Proof. eexists. split; vm_compute; reflexivity. Qed.

(** C2, as amended.  Take a line of 7-bit text that the loop prepares to a
    line ending in three numbers a, b, c with blanks between them (what
    precedes them being empty or ending in a character that is neither a
    digit nor a dot), with no skip word at its start, that the
    multiplication, dimension and weight patterns do not match.  Its
    description is what precedes the numbers, without the hyphens, colons and
    blanks at its two ends.  When the key of the item (the description in
    lower case, the quantity, the unit price) is not recorded yet, the item
    is appended exactly when a * b is within tolerance of c (0.5 at most
    apart, or, neither being zero, 2% at most of the larger), a > 0, b > 0
    and the description is neither empty nor a skip line; and nothing else
    is appended.  The quantity is a when a <= 20 and (b > a or b > 20), else
    b when b <= 20, else a; the unit price is the other number, the total is
    c and the confidence 0.8. *)
Theorem last_three_numbers_rule (st : EnhancedReceiptParser.pstate)
  (raw_line before ta s1 tb s2 tc : string) :
  let a := to_float ta in
  let b := to_float tb in
  let c := to_float tc in
  let desc := strip_by (one_of "-: ") before in
  let a_is_quantity := ((a <=? 20) && ((a <? b) || (20 <? b)))%float in
  let q := if a_is_quantity then a else if (b <=? 20)%float then b else a in
  let up := if a_is_quantity then b else if (b <=? 20)%float then a else b in
  let accepted :=
    within_tolerance (a * b) c
    && (0 <? a)%float && (0 <? b)%float
    && negb (is_empty desc)
    && negb (is_some (re_search EnhancedReceiptParser.skip_line (lower desc))) in
  let it := EnhancedReceiptParser._enhance_item
              (EnhancedReceiptParser.mk_item desc q "pieces" up c 0.8%float) in
  seven_bit raw_line = true ->
  EnhancedReceiptParser.prepare_line raw_line = triplet_line before ta s1 tb s2 tc ->
  ends_outside_number before = true ->
  is_number ta = true -> is_number tb = true -> is_number tc = true ->
  blanks s1 = true -> blanks s2 = true ->
  re_search EnhancedReceiptParser.skip_line (triplet_line before ta s1 tb s2 tc) = None ->
  re_match EnhancedReceiptParser.mult_pattern (triplet_line before ta s1 tb s2 tc) = None ->
  re_match EnhancedReceiptParser.dimension_pattern (triplet_line before ta s1 tb s2 tc)
  = None ->
  re_match EnhancedReceiptParser.weight_pattern (triplet_line before ta s1 tb s2 tc)
  = None ->
  EnhancedReceiptParser.key_in (lower desc, q, up)
    (EnhancedReceiptParser.added_keys st) = false ->
  exists st',
    EnhancedReceiptParser.parse_line st raw_line = Some st'
    /\ EnhancedReceiptParser.items st'
       = (if accepted then (EnhancedReceiptParser.items st ++ [it])%list
          else EnhancedReceiptParser.items st)
    /\ EnhancedReceiptParser.quantity it = q
    /\ EnhancedReceiptParser.unit_price it = up
    /\ EnhancedReceiptParser.total_price it = Some c
    /\ EnhancedReceiptParser.confidence it = Some 0.8%float.
Proof.
  intros a b c desc a_is_quantity q up accepted it
    _ Hline Hout Hta Htb Htc H1 H2 Hskip Hmult Hdim Hweight Hfresh.
  unfold EnhancedReceiptParser.parse_line. rewrite Hline.
  assert (Hlen : (3 <= String.length (triplet_line before ta s1 tb s2 tc))%nat).
  { unfold triplet_line. rewrite !length_app.
    pose proof (is_number_length ta Hta). pose proof (is_number_length tb Htb).
    pose proof (is_number_length tc Htc). lia. }
  rewrite (length_ge_3_not_empty _ Hlen), Hskip, Hmult.
  rewrite (bare_branch_unreachable st _ Hmult), Hdim, Hweight.
  cbn [is_some].
  eexists. split; [reflexivity|].
  split; [|repeat split].
  unfold EnhancedReceiptParser.triplet_branch.
  rewrite (last_three_numbers before ta s1 tb s2 tc Hout Hta Htb Htc H1 H2).
  unfold re_sub, triplet_line.
  rewrite (trailing_numbers_removed ta s1 tb s2 tc Hta Htb Htc H1 H2 before None Hout).
  fold a. fold b. fold c. fold desc. unfold accepted.
  change (within_tolerance (a * b) c)
    with (EnhancedReceiptParser._approx_equal (a * b) c).
  destruct (EnhancedReceiptParser._approx_equal (a * b) c) eqn:Happrox; [|reflexivity].
  assert (Hb : ~ is_nan b).
  { apply approx_equal_not_nan in Happrox. apply mul_not_nan in Happrox. tauto. }
  rewrite (disambiguate_claimed a b Hb). fold a_is_quantity. fold q. fold up.
  cbn [andb].
  destruct (is_empty desc); [cbn [orb negb andb]; rewrite !andb_false_r; reflexivity|].
  destruct (is_some (re_search EnhancedReceiptParser.skip_line (lower desc)));
    [cbn [orb negb andb]; rewrite !andb_false_r; reflexivity|].
  cbn [orb negb]. rewrite !andb_true_r.
  assert (Hpos : ((0 <? q) && (0 <? up))%float = ((0 <? a) && (0 <? b))%float).
  { unfold q, up. destruct a_is_quantity; [reflexivity|].
    destruct (b <=? 20)%float; [apply andb_comm | reflexivity]. }
  unfold EnhancedReceiptParser.emit.
  unfold EnhancedReceiptParser.item_key. cbn [EnhancedReceiptParser.mk_item
    EnhancedReceiptParser.item_name EnhancedReceiptParser.quantity
    EnhancedReceiptParser.unit_price].
  rewrite Hfresh, Hpos. cbn [negb andb].
  destruct ((0 <? a)%float && (0 <? b)%float); reflexivity.
Qed.

(** "Rice 5 2 50 100": the last three numbers are 2, 50 and 100, 2 * 50 is
    100, and the item is "Rice 5" with quantity 2 and unit price 50 *)
Lemma last_three_numbers_rule_witness :
  exists st',
    EnhancedReceiptParser.parse_line EnhancedReceiptParser.init_state "Rice 5 2 50 100"
    = Some st'
    /\ EnhancedReceiptParser.items st'
       = [ EnhancedReceiptParser._enhance_item
             (EnhancedReceiptParser.mk_item "Rice 5" 2 "pieces" 50 100 0.8%float) ].
Proof.
  destruct (last_three_numbers_rule EnhancedReceiptParser.init_state
              "Rice 5 2 50 100" "Rice 5 " "2" " " "50" " " "100")
    as (st' & Hp & Hi & _); try (vm_compute; reflexivity).
  exists st'. split; [exact Hp|]. rewrite Hi. vm_compute. reflexivity.
Defined.

(** ** The rows of the sales report *)

Lemma span_parts (p : ascii -> bool) (s : string) :
  s = fst (span p s) ++ snd (span p s)
  /\ sforall p (fst (span p s)) = true
  /\ starts_out p (snd (span p s)) = true.
Proof.
  destruct (span p s) as [a b] eqn:E. apply span_spec in E. exact E.
Qed.

(** the pattern of the quantity reads the number and the unit token of a
    proper cell *)
Lemma qty_unit_matches (cell : string) :
  proper_quantity cell = true ->
  exists m,
    re_match SR.qty_unit cell = Some m
    /\ grp 1 m = written_digits cell /\ grp 2 m = written_unit_token cell.
Proof.
  unfold proper_quantity, written_digits, written_unit_token. intros H.
  apply andb_true_iff in H as [Hds Hw].
  apply negb_true_iff in Hds. apply negb_true_iff in Hw.
  destruct (span_parts is_digit cell) as (E1 & Hd & Ho1).
  destruct (span_parts is_space (snd (span is_digit cell))) as (E2 & Hs & Ho2).
  destruct (span_parts is_word (snd (span is_space (snd (span is_digit cell)))))
    as (E3 & Hwd & Ho3).
  set (ds := fst (span is_digit cell)) in *.
  set (r1 := snd (span is_digit cell)) in *.
  set (sp := fst (span is_space r1)) in *.
  set (r2 := snd (span is_space r1)) in *.
  set (w := fst (span is_word r2)) in *.
  set (r3 := snd (span is_word r2)) in *.
  eexists. split.
  - rewrite E1. unfold re_match, match_here, SR.qty_unit. cbn [seqs].
    rewrite rmatch_seq. cbn [rmatch]. unfold plus.
    apply (rep_greedy_run is_digit _ ds 1 "" None r1);
      [exact Hd | exact Ho1 | exact (nonempty_length _ (is_empty_false _ Hds)) |].
    cbv beta. rewrite E2. unfold star.
    apply (rep_greedy_run is_space _ sp 0 "" _ r2); [exact Hs | exact Ho2 | lia |].
    cbv beta. rewrite E3.
    apply (rep_greedy_run is_word _ w 1 "" _ r3);
      [exact Hwd | exact Ho3 | exact (nonempty_length _ (is_empty_false _ Hw)) |].
    cbv beta. unfold k_done. reflexivity.
  - split; reflexivity.
Qed.

Lemma parse_quantity_proper (cell : string) (q : Z) (u : string) :
  proper_quantity cell = true ->
  SR.parse_quantity cell = Some (q, u) ->
  q = written_quantity cell /\ u = written_unit cell.
Proof.
  intros Hp. destruct (qty_unit_matches cell Hp) as (m & Hm & H1 & H2).
  unfold SR.parse_quantity. rewrite Hm, H1, H2. unfold py_int.
  destruct (4300 <? _)%nat; [discriminate|].
  simpl. intros [= <- <-]. split; reflexivity.
Qed.

Lemma digit_or_dot_kept (c : ascii) :
  digit_or_dot c = true ->
  negb (cls_not (cls_or is_digit (one_of ".")) c) = true.
Proof. destruct c as [[] [] [] [] [] [] [] []]; vm_compute; congruence. Qed.

Lemma parse_amount_number (cell : string) :
  is_number cell = true -> SR.parse_amount cell = SR.PFloat (to_float cell).
Proof.
  intros H. unfold SR.parse_amount, re_sub.
  rewrite sub_class_absent
    by (eapply sforall_impl; [|exact (is_number_chars cell H)]; exact digit_or_dot_kept).
  destruct (is_number_head cell H) as (d & tl & E & _).
  rewrite (is_number_float cell H). rewrite E. reflexivity.
Qed.

Lemma parse_row_proper (fmt : bool) (line : string) (o : option SR.row) :
  SR.parse_row fmt line = Some o ->
  if SR.passed_over fmt (SR.row_cells line) then o = None
  else proper_cells fmt (SR.row_cells line) = true ->
       o = Some (written_row fmt (SR.row_cells line)).
Proof.
  unfold SR.parse_row. cbv zeta. intros H.
  destruct (SR.passed_over fmt (SR.row_cells line)); [congruence|].
  intros Hp. apply andb_true_iff in Hp as [Hq Ha].
  destruct (SR.parse_quantity _) as [[q u]|] eqn:E; [|discriminate].
  destruct (parse_quantity_proper _ q u Hq E) as [-> ->].
  injection H as <-. unfold written_row. rewrite (parse_amount_number _ Ha).
  reflexivity.
Qed.

Lemma try_filter_map_written (fmt : bool) (lines : list string) :
  forall rows,
    try_filter_map (SR.parse_row fmt) lines = Some rows ->
    forallb (proper_cells fmt)
      (filter (fun cells => negb (SR.passed_over fmt cells)) (map SR.row_cells lines))
    = true ->
    rows = map (written_row fmt)
             (filter (fun cells => negb (SR.passed_over fmt cells))
                (map SR.row_cells lines)).
Proof.
  induction lines as [|l lines IH]; intros rows H Hp; simpl in H.
  - injection H as <-. reflexivity.
  - destruct (SR.parse_row fmt l) as [o|] eqn:E; [|discriminate].
    destruct (try_filter_map (SR.parse_row fmt) lines) as [ys|]; [|discriminate].
    injection H as <-. apply parse_row_proper in E.
    cbn [map filter] in Hp |- *.
    destruct (SR.passed_over fmt (SR.row_cells l)).
    + subst o. cbn [negb]. apply IH; [reflexivity | exact Hp].
    + cbn [negb] in Hp |- *. cbn [forallb] in Hp.
      apply andb_true_iff in Hp as [Hl Hp]. rewrite (E Hl). cbn [map].
      f_equal. apply IH; [reflexivity | exact Hp].
Qed.

(** the rows the loop reads from a proper report are the rows it writes *)
Lemma rows_of_written (ocr_text : string) (rows : list SR.row) :
  proper_report ocr_text = true ->
  SR.rows_of ocr_text = Some rows -> rows = written_rows ocr_text.
Proof.
  unfold proper_report, SR.rows_of, written_rows, row_lines. intros Hp H.
  apply try_filter_map_written; assumption.
Qed.

(** a quantity without a unit: the pattern gives the last digit of the
    number to the unit, and the row of 30 is read as 3 of the unit "0"; a
    quantity with decimals is read up to the dot *)
Lemma quantity_without_unit :
  SR.parse_quantity "30" = Some (3%Z, "0")
  /\ SR.parse_quantity "2.5 kg" = Some (2%Z, "units")
  /\ exists rep it,
       SR.fallback_parsing
         ("Item  Qty  Amount" ++ String LF "Dosa  30  300") = Some rep
       /\ SR.items rep = [it]
       /\ SR.total_quantity it = 3%Z /\ SR.unit it = "0".
Proof.
  split; [vm_compute; reflexivity|]. split; [vm_compute; reflexivity|].
  eexists. eexists. split; [vm_compute; reflexivity|].
  repeat split; reflexivity.
Qed.

(** C7, as amended.  Take a report of 7-bit text whose rows (the lines the
    loop does not pass over) each have a quantity cell made of a number and a
    unit token and an amount cell that is a number; the row of a line is its
    item cell, that number, that unit token in lower case and that amount.
    The rows are grouped by the exact item name: the output has one item for
    each name among the rows.  Its total_quantity is the sum of the
    quantities of its rows, its unit the unit of the first of them, its
    total_amount the sum of their amounts (added in the order of the report)
    rounded to two decimals, and its unit_price that sum divided by the
    total_quantity, rounded to two decimals, or 0 when the total_quantity is
    0.  No item of the output list is followed by one with a larger
    total_amount. *)
Theorem fallback_parsing_aggregates (ocr_text : string) (rep : SR.report) :
  seven_bit ocr_text = true ->
  proper_report ocr_text = true ->
  SR.fallback_parsing ocr_text = Some rep ->
  let rows := written_rows ocr_text in
  NoDup (map SR.item_name (SR.items rep))
  /\ (forall name,
         In name (map SR.item_name (SR.items rep)) <-> In name (map SR.row_item rows))
  /\ (forall it, In it (SR.items rep) ->
        exists first rest total,
          group_of (SR.item_name it) rows = first :: rest
          /\ SR.total_quantity it = zsum (map SR.row_quantity (first :: rest))
          /\ SR.unit it = SR.row_unit first
          /\ SR.num_sum (SR.row_amount first) (map SR.row_amount rest) = Some total
          /\ SR.total_amount it = SR.num_round total 2
          /\ (if (0 <? SR.total_quantity it)%Z
              then exists up, SR.num_div total (SR.total_quantity it) = Some up
                              /\ SR.unit_price it = SR.num_round up 2
              else SR.unit_price it = SR.PInt 0))
  /\ Sorted not_below (SR.items rep).
Proof.
  intros _ Hproper H rows. unfold SR.fallback_parsing in H.
  destruct (SR.rows_of ocr_text) as [rows'|] eqn:Hrows; [|discriminate].
  apply (rows_of_written ocr_text rows' Hproper) in Hrows. fold rows in Hrows.
  subst rows'.
  destruct (SR.aggregate rows []) as [d|] eqn:Hagg; [|discriminate].
  unfold SR.report_of in H.
  destruct (SR.item_entries d) as [entries|] eqn:Hent; [|discriminate].
  destruct (SR.num_sum _ _); [|discriminate].
  injection H as <-. cbn [SR.items].
  apply (aggregate_inv _ [] []) in Hagg; [|repeat split; try constructor; simpl; tauto].
  simpl in Hagg. destruct Hagg as (Hnd & Hnames & Hall).
  apply item_entries_spec in Hent.
  pose proof (sort_desc_perm entries) as Hperm.
  pose proof (entries_names d entries Hent) as Hn.
  split; [|split; [|split]].
  - eapply Permutation_NoDup; [apply Permutation_map; exact Hperm|].
    rewrite Hn. exact Hnd.
  - intros name. rewrite <- Hnames, <- Hn. split; apply Permutation_in.
    + apply Permutation_map. symmetry. exact Hperm.
    + apply Permutation_map. exact Hperm.
  - intros it Hit. apply (Permutation_in _ (Permutation_sym Hperm)) in Hit.
    destruct (Forall2_in_right _ _ _ Hent it Hit) as ([name a] & Hin & He).
    simpl in He.
    pose proof (proj1 (Forall_forall _ _) Hall _ Hin) as (first & rest & Hg & Hq & Hu & Hs).
    simpl in Hg, Hq, Hu, Hs.
    unfold SR.item_entry in He.
    exists first, rest, (SR.agg_amount a).
    destruct (0 <? SR.agg_quantity a)%Z eqn:Hpos.
    + destruct (SR.num_div _ _) as [up|] eqn:Hdiv; [|discriminate].
      injection He as <-. cbn. rewrite Hpos. repeat split; auto. exists up. auto.
    + injection He as <-. cbn. rewrite Hpos. repeat split; auto.
  - apply sort_desc_sorted.
Qed.

(** a report of three rows and two items: the two rows of "Dosa" are summed
    (5 plates, the unit of the first row, for 55.5, at 11.1 each), and
    "Idli", seen second, comes first with the larger amount *)
Lemma fallback_parsing_aggregates_witness :
  exists rep,
    SR.fallback_parsing three_row_report = Some rep
    /\ SR.items rep
       = [ {| SR.item_name := "Idli"; SR.total_quantity := 2; SR.unit := "plates";
              SR.unit_price := SR.PFloat 40; SR.total_amount := SR.PFloat 80 |};
           {| SR.item_name := "Dosa"; SR.total_quantity := 5; SR.unit := "plates";
              SR.unit_price := SR.PFloat 11.1; SR.total_amount := SR.PFloat 55.5 |} ]
    /\ map SR.row_item (written_rows three_row_report) = ["Dosa"; "Idli"; "Dosa"]
    /\ map SR.row_quantity (written_rows three_row_report) = [3; 2; 2]%Z
    /\ map SR.row_unit (written_rows three_row_report) = ["plates"; "plates"; "pcs"]
    /\ (let rows := written_rows three_row_report in
        NoDup (map SR.item_name (SR.items rep))
        /\ (forall name,
               In name (map SR.item_name (SR.items rep))
               <-> In name (map SR.row_item rows))
        /\ (forall it, In it (SR.items rep) ->
              exists first rest total,
                group_of (SR.item_name it) rows = first :: rest
                /\ SR.total_quantity it = zsum (map SR.row_quantity (first :: rest))
                /\ SR.unit it = SR.row_unit first
                /\ SR.num_sum (SR.row_amount first) (map SR.row_amount rest) = Some total
                /\ SR.total_amount it = SR.num_round total 2
                /\ (if (0 <? SR.total_quantity it)%Z
                    then exists up, SR.num_div total (SR.total_quantity it) = Some up
                                    /\ SR.unit_price it = SR.num_round up 2
                    else SR.unit_price it = SR.PInt 0))
        /\ Sorted not_below (SR.items rep)).
Proof.
  destruct (SR.fallback_parsing three_row_report) as [rep|] eqn:E;
    [|vm_compute in E; discriminate].
  exists rep. split; [reflexivity|].
  split; [vm_compute in E; injection E as <-; reflexivity|].
  split; [vm_compute; reflexivity|].
  split; [vm_compute; reflexivity|].
  split; [vm_compute; reflexivity|].
  apply (fallback_parsing_aggregates three_row_report rep);
    [vm_compute; reflexivity | vm_compute; reflexivity | exact E].
Defined.

(** ** Units *)

Lemma lookup_in {A : Type} (k : string) (d : list (string * A)) (v : A) :
  lookup k d = Some v -> In (k, v) d.
Proof.
  induction d as [|[k' v'] rest IH]; simpl; [discriminate|].
  destruct (String.eqb k k') eqn:E.
  - apply String.eqb_eq in E. subst. intros H. injection H as <-. left. reflexivity.
  - intros H. right. apply IH, H.
Qed.

(** a table whose values are their own keys, trimmed and in lower case *)
Lemma standardize_by_table (table : list (string * string)) (u : string) :
  Forall (fun kv => strip (lower (snd kv)) = snd kv
                    /\ lookup (snd kv) table = Some (snd kv)) table ->
  let f := fun x => default (strip (lower x)) (lookup (strip (lower x)) table) in
  f (f u) = f u /\ strip (f u) = f u /\ lower (f u) = f u.
Proof.
  intros Htable f. unfold f.
  destruct (lookup (strip (lower u)) table) as [v|] eqn:E; simpl.
  - apply lookup_in in E.
    destruct (proj1 (Forall_forall _ _) Htable _ E) as [Hv Hl]. simpl in Hv, Hl.
    rewrite Hv, Hl. simpl.
    split; [reflexivity|].
    split; rewrite <- Hv; [apply strip_idem|].
    rewrite <- strip_lower, lower_idem. reflexivity.
  - assert (Hs : strip (lower (strip (lower u))) = strip (lower u))
      by (rewrite (strip_lower (strip (lower u))), strip_idem, <- strip_lower, lower_idem;
          reflexivity).
    rewrite Hs, E. simpl.
    split; [reflexivity|].
    split; [apply strip_idem | rewrite <- strip_lower, lower_idem; reflexivity].
Qed.

(** Standardizing a unit (of 7-bit text) is idempotent, and the standard form
    is trimmed and in lower case: a unit of the table is mapped to its
    standard name, any other unit to itself, trimmed and lowercased. *)
Theorem standardize_unit_idempotent (u : string) :
  seven_bit u = true ->
  let r := EnhancedReceiptParser._standardize_unit u in
  EnhancedReceiptParser._standardize_unit r = r /\ strip r = r /\ lower r = r.
Proof.
  intros _.
  apply (standardize_by_table EnhancedReceiptParser.unit_mappings u).
  repeat constructor.
Qed.

(** " Kilos " is standardized to "kg", which is standardized to itself *)
Lemma standardize_unit_idempotent_witness :
  EnhancedReceiptParser._standardize_unit " Kilos " = "kg"
  /\ (let r := EnhancedReceiptParser._standardize_unit " Kilos " in
      EnhancedReceiptParser._standardize_unit r = r /\ strip r = r /\ lower r = r).
Proof.
  split; [reflexivity|]. apply (standardize_unit_idempotent " Kilos "). reflexivity.
Defined.

(** The professional parser's standardization of units is idempotent as well,
    with its own table (gm, ltr and pc where the enhanced parser has gram,
    liter and pieces). *)
Theorem professional_standardize_unit_idempotent (u : string) :
  seven_bit u = true ->
  let r := ProfessionalReceiptParser._standardize_unit u in
  ProfessionalReceiptParser._standardize_unit r = r /\ strip r = r /\ lower r = r.
Proof.
  intros _.
  apply (standardize_by_table ProfessionalReceiptParser.unit_mappings u).
  repeat constructor.
Qed.

(** " Litre " is standardized to "ltr", and a unit that the table lacks to
    itself in lower case *)
Lemma professional_standardize_unit_idempotent_witness :
  ProfessionalReceiptParser._standardize_unit " Litre " = "ltr"
  /\ ProfessionalReceiptParser._standardize_unit "Bags" = "bags"
  /\ (let r := ProfessionalReceiptParser._standardize_unit " Litre " in
      ProfessionalReceiptParser._standardize_unit r = r /\ strip r = r /\ lower r = r).
Proof.
  split; [reflexivity|]. split; [reflexivity|].
  apply (professional_standardize_unit_idempotent " Litre "). reflexivity.
Defined.

(** ** The categorizer of the professional parser *)

(** The professional categorizer returns, for a name of 7-bit text, the
    first category, in the order of its table, one of whose keywords occurs
    in the lowercased name, and "other" when no keyword occurs; the result is
    always a category of the table. *)
Theorem professional_categorize_first_match (name : string) :
  seven_bit name = true ->
  let r := ProfessionalReceiptParser._categorize_item name in
  let hit := ProfessionalReceiptParser.keyword_hit (lower name) in
  let table := ProfessionalReceiptParser.categories in
  In r (map fst table)
  /\ (forall cat, wins hit table cat -> r = cat)
  /\ (Forall (fun ck => existsb hit (snd ck) = false) table -> r = "other").
Proof.
  intros _ r hit table. unfold r, ProfessionalReceiptParser._categorize_item.
  fold hit. fold table.
  split; [|split].
  - destruct (EnhancedReceiptParser.first_category hit table) as [cat|] eqn:E.
    + exact (first_category_in hit table cat E).
    + simpl. do 10 right. left. reflexivity.
  - intros cat Hw. apply first_category_wins in Hw. rewrite Hw. reflexivity.
  - intros Hn. apply first_category_none in Hn. rewrite Hn. reflexivity.
Qed.

(** "Masala Tea" holds a keyword of the spices and one of the beverages: the
    spices come first in the table *)
Lemma professional_categorize_first_match_witness :
  ProfessionalReceiptParser._categorize_item "Masala Tea" = "spices_condiments"
  /\ ProfessionalReceiptParser._categorize_item "Plates" = "other"
  /\ (let r := ProfessionalReceiptParser._categorize_item "Masala Tea" in
      let hit := ProfessionalReceiptParser.keyword_hit (lower "Masala Tea") in
      let table := ProfessionalReceiptParser.categories in
      In r (map fst table)
      /\ (forall cat, wins hit table cat -> r = cat)
      /\ (Forall (fun ck => existsb hit (snd ck) = false) table -> r = "other")).
Proof.
  split; [reflexivity|]. split; [reflexivity|].
  apply (professional_categorize_first_match "Masala Tea"). reflexivity.
Defined.

(** ** Enhancing an item *)

Lemma default_expiry_bounds (cat : string) :
  (3 <= EnhancedReceiptParser._get_default_expiry cat <= 3650)%Z.
Proof.
  unfold EnhancedReceiptParser._get_default_expiry.
  destruct (lookup cat EnhancedReceiptParser.days_map) as [d|] eqn:E; simpl; [|lia].
  apply lookup_in in E. simpl in E.
  repeat (destruct E as [E|E]; [injection E as _ <-; lia|]). destruct E.
Qed.

(** ** Substitution of every match *)

Lemma sforall_and (p q : ascii -> bool) (s : string) :
  sforall (fun c => p c && q c) s = sforall p s && sforall q s.
Proof.
  induction s as [|a rest IH]; simpl; [reflexivity|].
  rewrite IH. destruct (p a), (q a), (sforall p rest); reflexivity.
Qed.

(** when the pattern matches, with a text that is not empty, at every
    character outside [q], and the replacements lie in [q], so does all of the
    result *)
Lemma sforall_sub_all (q : ascii -> bool) (r : regex) (repl : mobj -> string) :
  (forall m, sforall q (repl m) = true) ->
  (forall pv a rest, q a = false ->
     exists m, match_here r pv (String a rest) = Some m /\ is_empty (m_text m) = false) ->
  forall s skip pv, sforall q (sub_aux r repl skip pv s) = true.
Proof.
  intros Hrepl Hall. induction s as [|a rest IH]; intros skip pv; [reflexivity|].
  simpl. destruct skip as [|n]; [|apply IH].
  destruct (q a) eqn:Ea.
  - destruct (match_here r pv (String a rest)) as [m|].
    + destruct (is_empty (m_text m)).
      * simpl. rewrite Ea. apply IH.
      * rewrite sforall_app, Hrepl. apply IH.
    + simpl. rewrite Ea. apply IH.
  - destruct (Hall pv a rest Ea) as (m & -> & ->).
    rewrite sforall_app, Hrepl. apply IH.
Qed.

Lemma rep_greedy_total (p : ascii -> bool) (s : string) (hi : option nat)
  (acc : string) (pv : option ascii) (c : caps) :
  exists m, rep_greedy p 0 hi k_done acc pv s c = Some m.
Proof.
  destruct s as [|a rest]; simpl; [eexists; reflexivity|].
  destruct (p a && may_repeat hi); [|eexists; reflexivity].
  unfold or_else.
  destruct (rep_greedy p 0 (option_map pred hi) k_done (acc ++ String a "")
              (Some a) rest c); eexists; reflexivity.
Qed.

(** a run of the class [p] is matched, whole, wherever a character of [p]
    stands *)
Lemma plus_matches_at (p : ascii -> bool) (pv : option ascii) (a : ascii)
  (rest : string) :
  p a = true ->
  exists m, match_here (plus p) pv (String a rest) = Some m
            /\ is_empty (m_text m) = false.
Proof.
  intros Ha. unfold match_here, plus. simpl. rewrite Ha. simpl.
  destruct (rep_greedy_total p rest None (String a "") (Some a) []) as [m Hm].
  rewrite Hm. simpl. exists m. split; [reflexivity|].
  apply rep_greedy_prefix in Hm as (t & -> & _). reflexivity.
Qed.

(** "\s+" replaced by a space leaves no other whitespace *)
Lemma collapse_blanks (s : string) :
  sforall plain_blank (re_sub (plus is_space) (fun _ => " ") s) = true.
Proof.
  apply sforall_sub_all; [reflexivity|].
  intros pv a rest Ha. apply plus_matches_at.
  unfold plain_blank in Ha. destruct (is_space a); [reflexivity | discriminate].
Qed.

(** ** Item names *)

Lemma clean_char_case (c : ascii) :
  clean_char c = true -> clean_char (to_upper c) = true /\ clean_char (to_lower c) = true.
Proof. ascii_cases c. Qed.

Lemma clean_char_of_kept (c : ascii) :
  negb (cls_not (cls_or is_word (cls_or is_space (one_of "-."))) c) && plain_blank c = true ->
  clean_char c = true.
Proof. ascii_cases c. Qed.

Lemma apply_corrections_alphabet (name : string) :
  sforall clean_char name = true ->
  sforall clean_char (EnhancedReceiptParser.apply_corrections name) = true.
Proof.
  unfold EnhancedReceiptParser.apply_corrections.
  assert (Hc : Forall (fun wc => sforall clean_char (snd wc) = true)
                 EnhancedReceiptParser.ocr_corrections) by (repeat constructor).
  revert name. induction Hc as [|wc l Hwc Hl IH]; intros name H; [exact H|].
  simpl. apply IH. apply sforall_sub; [intros _; exact Hwc | exact H].
Qed.

Lemma clean_item_name_chars (name : string) :
  sforall clean_char (EnhancedReceiptParser._clean_item_name name) = true.
Proof.
  unfold EnhancedReceiptParser._clean_item_name.
  apply sforall_strip_by.
  do 5 (apply sforall_replace; [reflexivity|]).
  apply apply_corrections_alphabet.
  apply sforall_title; [exact clean_char_case|].
  apply sforall_strip_by.
  eapply sforall_impl; [exact clean_char_of_kept|].
  rewrite sforall_and. apply andb_true_intro. split.
  - apply sforall_sub; [reflexivity|].
    unfold re_sub. rewrite sub_class_filter. apply sforall_sfilter.
  - apply collapse_blanks.
Qed.

(** A cleaned item name is made of word characters, spaces, hyphens and dots
    only, whatever the name of 7-bit text it is given, and has no blank at
    either end: the other characters are removed, not replaced. *)
Theorem clean_item_name_alphabet (name : string) :
  seven_bit name = true ->
  let r := EnhancedReceiptParser._clean_item_name name in
  sforall clean_char r = true /\ strip r = r.
Proof.
  intros _ r. split; [apply clean_item_name_chars|].
  unfold r, EnhancedReceiptParser._clean_item_name. apply strip_idem.
Qed.

(** the parentheses, the at sign and the exclamation marks are removed, the
    blanks collapsed, the words capitalized and the unit suffix dropped *)
Lemma clean_item_name_alphabet_witness :
  EnhancedReceiptParser._clean_item_name "  tomato (fresh) @ 2kg!! " = "Tomato Fresh 2"
  /\ (let r := EnhancedReceiptParser._clean_item_name "  tomato (fresh) @ 2kg!! " in
      sforall clean_char r = true /\ strip r = r).
Proof.
  split; [vm_compute; reflexivity|].
  apply (clean_item_name_alphabet "  tomato (fresh) @ 2kg!! "). reflexivity.
Defined.

(** ** The text sent to the model *)

Lemma sforall_replace_char (q0 q : ascii -> bool) (x : ascii) (new s : string) :
  sforall q new = true ->
  (forall c, Ascii.eqb x c = false -> q0 c = true -> q c = true) ->
  sforall q0 s = true -> sforall q (replace (String x "") new s) = true.
Proof.
  intros Hnew Hq. unfold replace.
  induction s as [|a rest IH]; intros H; [reflexivity|].
  simpl in H. apply andb_prop in H as [Ha Hr]. simpl.
  destruct (Ascii.eqb x a) eqn:E; simpl.
  - rewrite sforall_app, Hnew. apply IH, Hr.
  - rewrite (Hq a E Ha). apply IH, Hr.
Qed.

(** the characters [_preprocess_text] leaves: no whitespace but the space,
    and none of the capitals it takes for misread digits *)
Lemma preprocess_step (seen : string) (x : ascii) (new s : string) :
  sforall (fun c => plain_blank c && negb (one_of (String x seen) c)) new = true ->
  sforall (fun c => plain_blank c && negb (one_of seen c)) s = true ->
  sforall (fun c => plain_blank c && negb (one_of (String x seen) c))
    (replace (String x "") new s) = true.
Proof.
  intros Hnew. apply sforall_replace_char; [exact Hnew|].
  intros c E H. unfold one_of in *. simpl.
  rewrite (Ascii.eqb_sym c x), E. exact H.
Qed.

(** [_preprocess_text], which prepares the text for the model, leaves in a
    text of 7-bit characters no capital O, S, B, G, I or Z (each is replaced
    by the digit it resembles, wherever it stands), no whitespace character
    other than the space, and no blank at either end. *)
Theorem preprocess_text_replaces_capitals (text : string) :
  seven_bit text = true ->
  let r := EnhancedReceiptParser._preprocess_text text in
  sforall (fun c => plain_blank c && negb (one_of "ZIGBSO" c)) r = true
  /\ strip r = r.
Proof.
  intros _ r. unfold r, EnhancedReceiptParser._preprocess_text.
  split; [|apply strip_idem].
  apply sforall_strip_by.
  cbn [fold_left EnhancedReceiptParser.preprocess_corrections fst snd].
  do 6 (apply preprocess_step; [reflexivity|]).
  do 2 (apply sforall_replace; [reflexivity|]).
  eapply sforall_impl; [|apply collapse_blanks].
  intros a Ha. rewrite Ha. reflexivity.
Qed.

(** the capitals of "BIG SIZE" become digits, in a word as well *)
Lemma preprocess_text_replaces_capitals_witness :
  let text := "BIG  SIZE" ++ String TAB "lOg " in
  EnhancedReceiptParser._preprocess_text text = "816 512E 10g"
  /\ (let r := EnhancedReceiptParser._preprocess_text text in
      sforall (fun c => plain_blank c && negb (one_of "ZIGBSO" c)) r = true
      /\ strip r = r).
Proof.
  intros text. split; [vm_compute; reflexivity|].
  apply (preprocess_text_replaces_capitals text). reflexivity.
Defined.

(** ** Phone numbers: what is returned *)

Lemma digits_of_digits (raw : string) :
  sforall is_digit (EnhancedReceiptParser.digits_of raw) = true.
Proof.
  unfold EnhancedReceiptParser.digits_of, re_sub. rewrite sub_class_filter.
  eapply sforall_impl; [|apply sforall_sfilter].
  intros a. unfold cls_not. destruct (is_digit a); [reflexivity | discriminate].
Qed.

(** The phone number returned for a text of 7-bit characters is a string of
    digits, or "+" and a string of digits: no blank, hyphen or parenthesis of
    the text is kept. *)
Theorem phone_number_is_digits (text p : string) :
  seven_bit text = true ->
  EnhancedReceiptParser._extract_phone_number text = Some p ->
  exists d, sforall is_digit d = true /\ (p = d \/ p = "+" ++ d).
Proof.
  intros _. unfold EnhancedReceiptParser._extract_phone_number.
  destruct (EnhancedReceiptParser.phone_candidate text) as [raw|]; [|discriminate].
  destruct (is_empty raw); [discriminate|].
  intros H. injection H as <-.
  pose proof (digits_of_digits raw) as Hd.
  set (digits := EnhancedReceiptParser.digits_of raw) in *.
  unfold EnhancedReceiptParser.normalize_digits.
  destruct (String.length digits =? 10)%nat; [exists digits; auto|].
  destruct ((String.length digits =? 11)%nat && startswith "0" digits).
  { exists (drop 1 digits). split; [apply sforall_drop, Hd | auto]. }
  destruct (12 <=? String.length digits)%nat; [|exists digits; auto].
  destruct (startswith "91" digits); cbn [andb].
  { exists ("91" ++ last_n 10 digits). split; [|right; reflexivity].
    rewrite sforall_app. unfold last_n. rewrite sforall_drop by exact Hd. reflexivity. }
  destruct (startswith "1" digits && (String.length digits =? 11)%nat).
  { exists ("1" ++ last_n 10 digits). split; [|right; reflexivity].
    rewrite sforall_app. unfold last_n. rewrite sforall_drop by exact Hd. reflexivity. }
  exists digits. auto.
Qed.

(** "Tel: +91 (98765) 43-210" gives "+919876543210" *)
Lemma phone_number_is_digits_witness :
  EnhancedReceiptParser._extract_phone_number "Tel: +91 (98765) 43-210"
  = Some "+919876543210"
  /\ exists d, sforall is_digit d = true
               /\ ("+919876543210" = d \/ "+919876543210" = "+" ++ d).
Proof.
  assert (H : EnhancedReceiptParser._extract_phone_number "Tel: +91 (98765) 43-210"
              = Some "+919876543210") by (vm_compute; reflexivity).
  split; [exact H|].
  exact (phone_number_is_digits "Tel: +91 (98765) 43-210" "+919876543210" eq_refl H).
Defined.

(** ** The tolerance test *)

Lemma binary_round_aux_abs (s s' : bool) (m e : Z) (l : location) :
  SFabs (binary_round_aux prec emax s m e l) = SFabs (binary_round_aux prec emax s' m e l).
Proof.
  unfold binary_round_aux.
  destruct (shr_fexp prec emax m e l) as [mrs e1].
  destruct (shr_fexp prec emax _ e1 loc_Exact) as [mrs2 e2].
  destruct (shr_m mrs2); [reflexivity| |reflexivity].
  destruct (e2 <=? emax - prec)%Z; reflexivity.
Qed.

Lemma binary_normalize_opp (z e : Z) :
  SFabs (binary_normalize prec emax (- z) e false)
  = SFabs (binary_normalize prec emax z e false).
Proof.
  destruct z as [|p|p]; simpl; [reflexivity| |];
    unfold binary_round; destruct (shl_align _ _ _) as [mz ez];
    apply binary_round_aux_abs.
Qed.

Lemma SFsub_abs_sym (x y : spec_float) :
  SFabs (SFsub prec emax x y) = SFabs (SFsub prec emax y x).
Proof.
  destruct x as [s| s| |s m e], y as [s'| s'| |s' m' e']; simpl;
    try reflexivity; try (destruct s, s'; reflexivity).
  rewrite (Z.min_comm e' e).
  rewrite <- binary_normalize_opp. f_equal. f_equal. lia.
Qed.

Lemma abs_sub_sym (a b : float) : abs (a - b) = abs (b - a).
Proof.
  apply Prim2SF_inj. rewrite !abs_spec, !sub_spec. apply SFsub_abs_sym.
Qed.

Lemma SFcompare_abs_eq (x y : spec_float) :
  SFcompare (SFabs x) (SFabs y) = Some Eq -> SFabs x = SFabs y.
Proof.
  destruct x as [s| s| |s m e], y as [s'| s'| |s' m' e']; simpl;
    try reflexivity; try discriminate.
  destruct (e ?= e')%Z eqn:Ee; try discriminate.
  intros H. injection H as H.
  apply Z.compare_eq in Ee. apply (Pos.compare_eq m m') in H. subst. reflexivity.
Qed.

(** on absolute values, the larger of two numbers does not depend on their
    order *)
Lemma py_max_abs_comm (a b : float) :
  ~ is_nan a -> ~ is_nan b -> py_max (abs a) (abs b) = py_max (abs b) (abs a).
Proof.
  unfold is_nan, py_max. intros Ha Hb. rewrite !ltb_spec. unfold SFltb.
  rewrite (SFcompare_antisym (Prim2SF (abs a)) (Prim2SF (abs b))).
  destruct (SFcompare (Prim2SF (abs a)) (Prim2SF (abs b))) as [[]|] eqn:E; simpl;
    try reflexivity.
  - apply Prim2SF_inj. rewrite !abs_spec in *. apply SFcompare_abs_eq, E.
  - apply SFcompare_nan in E. rewrite !abs_spec in E.
    destruct E as [E|E]; [destruct (Prim2SF a) | destruct (Prim2SF b)];
      try discriminate; tauto.
Qed.

Lemma leb_nan_left (x y : float) : is_nan x -> (x <=? y)%float = false.
Proof. unfold is_nan. intros E. rewrite leb_spec, E. reflexivity. Qed.

Lemma abs_sub_nan (a b : float) : is_nan a \/ is_nan b -> is_nan (abs (a - b)).
Proof.
  unfold is_nan. rewrite abs_spec, sub_spec. unfold SF64sub.
  intros [E|E]; rewrite E; [reflexivity|]. destruct (Prim2SF a); reflexivity.
Qed.

Lemma is_nan_dec (x : float) : is_nan x \/ ~ is_nan x.
Proof. unfold is_nan. destruct (Prim2SF x); auto; right; discriminate. Qed.

Lemma approx_equal_tol_sym (a b rel abs_tol : float) :
  EnhancedReceiptParser._approx_equal_tol a b rel abs_tol
  = EnhancedReceiptParser._approx_equal_tol b a rel abs_tol.
Proof.
  unfold EnhancedReceiptParser._approx_equal_tol.
  rewrite (orb_comm (a =? 0)%float), (abs_sub_sym b a).
  destruct (is_nan_dec a) as [Ha|Ha]; [|destruct (is_nan_dec b) as [Hb|Hb]].
  - rewrite !(leb_nan_left (abs (a - b))) by (apply abs_sub_nan; auto). reflexivity.
  - rewrite !(leb_nan_left (abs (a - b))) by (apply abs_sub_nan; auto). reflexivity.
  - rewrite (py_max_abs_comm a b Ha Hb). reflexivity.
Qed.

Lemma SFsub_self (x : spec_float) :
  match x with S754_zero _ | S754_finite _ _ _ => True | _ => False end ->
  SFabs (SFsub prec emax x x) = S754_zero false.
Proof.
  destruct x as [s| s| |s m e]; simpl; try tauto; intros _.
  - destruct s; reflexivity.
  - rewrite Z.sub_diag. reflexivity.
Qed.

(** The tolerance test does not depend on the order of its two numbers, with
    the default tolerances and with any others; a finite number is
    approximately equal to itself; and nothing is approximately equal to
    NaN. *)
Theorem approx_equal_symmetric (a b : float) :
  EnhancedReceiptParser._approx_equal a b = EnhancedReceiptParser._approx_equal b a
  /\ (forall rel abs_tol,
        EnhancedReceiptParser._approx_equal_tol a b rel abs_tol
        = EnhancedReceiptParser._approx_equal_tol b a rel abs_tol)
  /\ (is_finite a -> EnhancedReceiptParser._approx_equal a a = true)
  /\ (is_nan a \/ is_nan b -> EnhancedReceiptParser._approx_equal a b = false).
Proof.
  split; [apply approx_equal_tol_sym|]. split; [apply approx_equal_tol_sym|]. split.
  - unfold is_finite. intros Hf.
    assert (H : (abs (a - a) <=? 0.5)%float = true).
    { rewrite leb_spec, abs_spec, sub_spec. unfold SF64sub.
      rewrite (SFsub_self (Prim2SF a) Hf). vm_compute. reflexivity. }
    unfold EnhancedReceiptParser._approx_equal, EnhancedReceiptParser._approx_equal_tol.
    rewrite H. rewrite orb_true_r. destruct (_ || _); reflexivity.
  - intros H.
    destruct (EnhancedReceiptParser._approx_equal a b) eqn:E; [exfalso|reflexivity].
    destruct H as [H|H].
    + exact (approx_equal_not_nan a b E H).
    + unfold EnhancedReceiptParser._approx_equal in E.
      rewrite approx_equal_tol_sym in E. exact (approx_equal_not_nan b a E H).
Qed.

(** ** The numbers that the patterns capture *)

Lemma span_app (p : ascii -> bool) (a b : string) :
  sforall p a = true -> starts_out p b = true -> span p (a ++ b) = (a, b).
Proof.
  induction a as [|c rest IH]; simpl; intros Ha Hb.
  - destruct b as [|d b']; [reflexivity|]. simpl in Hb.
    simpl. destruct (p d); [discriminate | reflexivity].
  - apply andb_prop in Ha as [Hc Hr]. rewrite Hc, (IH Hr Hb). reflexivity.
Qed.

Lemma converts_digits (ip : string) :
  sforall is_digit ip = true -> ip <> "" -> converts ip.
Proof.
  intros H Hne. unfold converts, py_float.
  rewrite <- (append_nil_r ip) at 1. rewrite (span_app is_digit ip "" H eq_refl).
  destruct ip; [congruence | reflexivity].
Qed.

Lemma converts_fraction (ip fp : string) :
  sforall is_digit ip = true -> sforall is_digit fp = true -> ip <> "" ->
  converts (ip ++ String "." fp).
Proof.
  intros Hi Hf Hne. unfold converts, py_float.
  rewrite (span_app is_digit ip (String "." fp) Hi eq_refl).
  rewrite Hf. destruct ip; [congruence | reflexivity].
Qed.

Lemma plus_nonempty (p : ascii -> bool) (t : string) :
  lang (plus p) t -> sforall p t = true /\ t <> "".
Proof.
  intros (H & Hl & _). split; [exact H|]. destruct t; [simpl in Hl; lia | discriminate].
Qed.

Lemma lang_dot (t : string) : lang (lit ".") t -> t = ".".
Proof.
  intros (t1 & t2 & -> & (a & -> & Ha) & ->).
  apply Ascii.eqb_eq in Ha. subst. reflexivity.
Qed.

Lemma lang_digits_converts (t : string) : lang (plus is_digit) t -> converts t.
Proof. intros H. apply plus_nonempty in H as [H Hne]. apply converts_digits; assumption. Qed.

Lemma lang_number_converts (t : string) : lang number t -> converts t.
Proof.
  intros (t1 & t2 & -> & H1 & H2).
  apply plus_nonempty in H1 as [H1 Hne].
  destruct H2 as [(u1 & u2 & -> & Hdot & Hfrac)|H2].
  - apply lang_dot in Hdot. subst. apply plus_nonempty in Hfrac as [Hfrac _].
    apply converts_fraction; assumption.
  - simpl in H2. subst. rewrite append_nil_r. apply converts_digits; assumption.
Qed.

Lemma lang_loose_number_converts (t : string) :
  lang EnhancedReceiptParser.loose_number t -> converts t.
Proof.
  intros (t1 & t2 & -> & H1 & (u1 & u2 & -> & Hdot & (Hfrac & _))).
  apply plus_nonempty in H1 as [H1 Hne].
  destruct Hdot as [Hdot|Hdot].
  - apply lang_dot in Hdot. subst. apply converts_fraction; assumption.
  - simpl in Hdot. subst. simpl. apply converts_digits.
    + rewrite sforall_app, H1, Hfrac. reflexivity.
    + destruct t1; [congruence | discriminate].
Qed.

(** the groups of a pattern convert when each of them is a number of one of
    the three forms, and stands outside the alternatives *)
Lemma groups_convert_intro (r : regex) (nums : list nat) :
  grp_ok (numeric_groups nums) r -> incl nums (sure r) -> groups_convert r nums.
Proof.
  intros Hg Hs pv s m _ H. apply Forall_forall. intros n Hn.
  exact (match_here_group (numeric_groups nums) r pv s m n Hg H (Hs n Hn) Hn).
Qed.

(** discharges [grp_ok (numeric_groups nums) r] and [incl nums (sure r)] for
    a pattern of the sources *)
Ltac numeric_pattern :=
  apply groups_convert_intro;
  [ simpl; repeat split; try exact I; intros t L Hn;
    first [ apply lang_number_converts; exact L
          | apply lang_digits_converts; exact L
          | apply lang_loose_number_converts; exact L
          | exfalso; simpl in Hn; intuition discriminate ]
  | intros n Hn; simpl in Hn; simpl; intuition ].

(** [float] never raises in the receipt parsers, on text of 7-bit
    characters: every group that the patterns of the deterministic parser, of
    the fallback parser and of the total amount hand to [float] holds a text
    that [float] accepts, and so does every number found for the branch of
    the last three numbers. *)
Theorem float_never_raises :
  groups_convert EnhancedReceiptParser.mult_pattern
    [EnhancedReceiptParser.g_q; EnhancedReceiptParser.g_p; EnhancedReceiptParser.g_t]
  /\ groups_convert EnhancedReceiptParser.bare_mult_pattern
       [EnhancedReceiptParser.g_q; EnhancedReceiptParser.g_p; EnhancedReceiptParser.g_t]
  /\ groups_convert EnhancedReceiptParser.dimension_pattern
       [EnhancedReceiptParser.g_a; EnhancedReceiptParser.g_b;
        EnhancedReceiptParser.g_price]
  /\ groups_convert EnhancedReceiptParser.weight_pattern
       [EnhancedReceiptParser.g_qty; EnhancedReceiptParser.g_price]
  /\ (forall line, seven_bit line = true ->
                   Forall (fun m => converts (m_text m)) (re_findall number line))
  /\ groups_convert EnhancedReceiptParser.fb_mult [2; 3; 4]%nat
  /\ groups_convert EnhancedReceiptParser.fb_weight [2; 4]%nat
  /\ groups_convert EnhancedReceiptParser.fb_simple [2; 3]%nat
  /\ groups_convert EnhancedReceiptParser.fb_dimension [1; 2; 4]%nat
  /\ Forall (fun r => groups_convert r [1%nat]) EnhancedReceiptParser.total_patterns.
Proof.
  split; [numeric_pattern|]. split; [numeric_pattern|]. split; [numeric_pattern|].
  split; [numeric_pattern|].
  split.
  { intros line _. apply Forall_forall. intros m Hm. unfold re_findall in Hm.
    apply (findall_sound (fun _ _ => True)) in Hm as [L _]; [|simpl; auto].
    apply lang_number_converts, L. }
  split; [numeric_pattern|]. split; [numeric_pattern|]. split; [numeric_pattern|].
  split; [numeric_pattern|].
  unfold EnhancedReceiptParser.total_patterns.
  repeat (apply Forall_cons; [numeric_pattern|]). apply Forall_nil.
Qed.

(** the groups of "Chicken - 2 x 140.50 = 281" are numbers to [float] *)
Lemma float_never_raises_witness :
  exists m,
    re_match EnhancedReceiptParser.mult_pattern "Chicken - 2 x 140.50 = 281" = Some m
    /\ grp EnhancedReceiptParser.g_p m = "140.50"
    /\ Forall (fun n => converts (grp n m))
         [EnhancedReceiptParser.g_q; EnhancedReceiptParser.g_p;
          EnhancedReceiptParser.g_t].
Proof.
  destruct (re_match EnhancedReceiptParser.mult_pattern "Chicken - 2 x 140.50 = 281")
    as [m|] eqn:E; [|vm_compute in E; discriminate].
  exists m. split; [reflexivity|].
  split; [vm_compute in E; injection E as <-; reflexivity|].
  exact (proj1 float_never_raises None "Chicken - 2 x 140.50 = 281" m eq_refl E).
Defined.

(** ** The summary of the sales report *)

Lemma fold_left_add_zsum (l : list Z) :
  forall acc, fold_left Z.add l acc = (acc + zsum l)%Z.
Proof.
  induction l as [|x rest IH]; intros acc; simpl; [unfold zsum; simpl; lia|].
  rewrite IH. unfold zsum. simpl. lia.
Qed.

Lemma zsum_perm (l1 l2 : list Z) : Permutation l1 l2 -> zsum l1 = zsum l2.
Proof.
  induction 1; unfold zsum in *; simpl; lia.
Qed.

Lemma add_row_quantity (r : SR.row) (d : SR.aggregation) :
  forall d', SR.add_row r d = Some d' ->
             quantity_sum d' = (quantity_sum d + SR.row_quantity r)%Z.
Proof.
  unfold quantity_sum, zsum.
  induction d as [|[name a] rest IH]; intros d' H; simpl in H.
  - injection H as <-. simpl. lia.
  - destruct (String.eqb name (SR.row_item r)).
    + destruct (SR.num_add _ _); [|discriminate]. injection H as <-. simpl. lia.
    + destruct (SR.add_row r rest) as [rest'|]; [|discriminate].
      injection H as <-. simpl. rewrite (IH rest' eq_refl). lia.
Qed.

Lemma aggregate_quantity (rows : list SR.row) :
  forall d d', SR.aggregate rows d = Some d' ->
               quantity_sum d' = (quantity_sum d + zsum (map SR.row_quantity rows))%Z.
Proof.
  induction rows as [|r rest IH]; intros d d' H; simpl in H.
  - injection H as <-. unfold zsum. simpl. lia.
  - destruct (SR.add_row r d) as [d1|] eqn:E; [|discriminate].
    rewrite (IH _ _ H), (add_row_quantity r d d1 E). unfold zsum. simpl. lia.
Qed.

Lemma item_entry_quantity (name : string) (a : SR.agg) (e : SR.report_item) :
  SR.item_entry name a = Some e -> SR.total_quantity e = SR.agg_quantity a.
Proof.
  unfold SR.item_entry.
  destruct (if (0 <? SR.agg_quantity a)%Z then _ else _); [|discriminate].
  intros H. injection H as <-. reflexivity.
Qed.

Lemma entries_quantities (d : SR.aggregation) (entries : list SR.report_item) :
  Forall2 (fun na e => SR.item_entry (fst na) (snd na) = Some e) d entries ->
  map SR.total_quantity entries = map (fun na => SR.agg_quantity (snd na)) d.
Proof.
  induction 1 as [|[name a] e d' es H _ IH]; simpl; [reflexivity|].
  rewrite IH, (item_entry_quantity name a e H). reflexivity.
Qed.

(** what [fallback_parsing] returns, step by step *)
Lemma fallback_parsing_inv (ocr_text : string) (rep : SR.report) :
  SR.fallback_parsing ocr_text = Some rep ->
  exists rows d entries,
    SR.rows_of ocr_text = Some rows
    /\ SR.aggregate rows [] = Some d
    /\ SR.item_entries d = Some entries
    /\ SR.items rep = SR.sort_desc entries
    /\ SR.unique_items_count rep = List.length entries
    /\ SR.total_items_sold rep = quantity_sum d.
Proof.
  unfold SR.fallback_parsing. intros H.
  destruct (SR.rows_of ocr_text) as [rows|]; [|discriminate].
  destruct (SR.aggregate rows []) as [d|] eqn:Ha; [|discriminate].
  unfold SR.report_of in H.
  destruct (SR.item_entries d) as [entries|] eqn:He; [|discriminate].
  destruct (SR.num_sum _ _); [|discriminate].
  injection H as <-. exists rows, d, entries.
  cbn [SR.items SR.unique_items_count SR.total_items_sold].
  split; [reflexivity|]. split; [exact Ha|]. split; [exact He|]. split; [reflexivity|].
  split; [reflexivity|]. rewrite fold_left_add_zsum. reflexivity.
Qed.

Lemma fallback_sold_is_item_sum (ocr_text : string) (rep : SR.report) :
  SR.fallback_parsing ocr_text = Some rep ->
  SR.unique_items_count rep = List.length (SR.items rep)
  /\ SR.total_items_sold rep = zsum (map SR.total_quantity (SR.items rep))
  /\ exists rows,
       SR.rows_of ocr_text = Some rows
       /\ SR.total_items_sold rep = zsum (map SR.row_quantity rows).
Proof.
  intros H.
  apply fallback_parsing_inv in H as (rows & d & entries & Hr & Ha & He & Hi & Hc & Hs).
  pose proof (sort_desc_perm entries) as Hp. rewrite <- Hi in Hp.
  split; [rewrite Hc; apply Permutation_length, Hp|].
  split.
  - rewrite <- (zsum_perm _ _ (Permutation_map SR.total_quantity Hp)).
    rewrite (entries_quantities d entries (item_entries_spec d entries He)). exact Hs.
  - exists rows. split; [exact Hr|].
    rewrite Hs, (aggregate_quantity _ _ _ Ha). reflexivity.
Qed.

(** The summary of the fallback report agrees with its items and with the
    rows read (for a report of 7-bit text): [unique_items_count] is the
    number of items, and [total_items_sold] is the sum of the quantities of
    the items, which is the sum of the quantities of all the rows. *)
Theorem fallback_summary_matches_items (ocr_text : string) (rep : SR.report) :
  seven_bit ocr_text = true ->
  SR.fallback_parsing ocr_text = Some rep ->
  SR.unique_items_count rep = List.length (SR.items rep)
  /\ SR.total_items_sold rep = zsum (map SR.total_quantity (SR.items rep))
  /\ exists rows,
       SR.rows_of ocr_text = Some rows
       /\ SR.total_items_sold rep = zsum (map SR.row_quantity rows).
Proof. intros _. apply fallback_sold_is_item_sum. Qed.

(** the report of three rows: two items, and seven plates and pieces sold *)
Lemma fallback_summary_matches_items_witness :
  exists rep,
    SR.fallback_parsing three_row_report = Some rep
    /\ SR.unique_items_count rep = 2%nat
    /\ SR.total_items_sold rep = 7%Z
    /\ SR.unique_items_count rep = List.length (SR.items rep)
    /\ SR.total_items_sold rep = zsum (map SR.total_quantity (SR.items rep))
    /\ exists rows,
         SR.rows_of three_row_report = Some rows
         /\ SR.total_items_sold rep = zsum (map SR.row_quantity rows).
Proof.
  destruct (SR.fallback_parsing three_row_report) as [rep|] eqn:E;
    [|vm_compute in E; discriminate].
  exists rep. split; [reflexivity|].
  split; [vm_compute in E; injection E as <-; reflexivity|].
  split; [vm_compute in E; injection E as <-; reflexivity|].
  exact (fallback_summary_matches_items three_row_report rep eq_refl E).
Defined.

(** ** A report without rows *)

Lemma report_lines_blank (text : string) :
  sforall is_space text = true -> SR.report_lines text = [].
Proof.
  intros H. unfold SR.report_lines, split_on. apply filter_none.
  eapply Forall_impl; [|apply split_on_aux_blank; [reflexivity | exact H]].
  intros l Hl. cbv beta. rewrite (strip_blank l Hl). reflexivity.
Qed.

(** A blank text gives the report without rows: no items, nothing sold and
    revenue 0; the function does not raise. *)
Theorem fallback_parsing_blank (text : string) :
  sforall is_space text = true -> SR.fallback_parsing text = Some empty_report.
Proof.
  intros H. unfold SR.fallback_parsing, SR.rows_of.
  rewrite (report_lines_blank text H). reflexivity.
Qed.

Lemma fallback_parsing_blank_witness :
  SR.fallback_parsing (" " ++ String LF " ") = Some empty_report.
Proof. apply fallback_parsing_blank. reflexivity. Defined.

(** ** The complementary items *)

Lemma add_quantity_sum (name : string) (qty : Z) (d : list (string * Z)) :
  zsum (map snd (SR.add_quantity name qty d)) = (zsum (map snd d) + qty)%Z.
Proof.
  unfold zsum. induction d as [|[n q] rest IH]; simpl; [lia|].
  destruct (String.eqb n name); simpl; lia.
Qed.

Lemma breakdown_fold (use_ai : bool) (ai_set : list string) (its : list SR.report_item) :
  forall total d,
    zsum (map snd d) = total ->
    zsum (map snd
            (fold_left
               (fun breakdown it =>
                  if SR.is_breakfast use_ai ai_set (lower (SR.item_name it))
                  then SR.add_quantity (SR.item_name it) (SR.total_quantity it) breakdown
                  else breakdown) its d))
    = fold_left
        (fun total it =>
           if SR.is_breakfast use_ai ai_set (lower (SR.item_name it))
           then (total + SR.total_quantity it)%Z else total) its total.
Proof.
  induction its as [|it rest IH]; intros total d H; simpl; [exact H|].
  apply IH. destruct (SR.is_breakfast _ _ _); [|exact H].
  rewrite add_quantity_sum, H. reflexivity.
Qed.

Lemma is_empty_list_map {A B : Type} (f : A -> B) (l : list A) :
  is_empty_list (map f l) = is_empty_list l.
Proof. destruct l; reflexivity. Qed.

(** The two views of the complementary items agree: the quantities of the
    per-item breakdown add up to the number of each accompaniment, with the
    names given by the model and with the keywords alike; and the four
    accompaniments are given in the same number. *)
Theorem breakdown_adds_up_to_complementary (its : list SR.report_item)
  (ai_breakfast_names : option (list string)) :
  let c := SR._calculate_complementary_from_items its ai_breakfast_names in
  zsum (map snd (SR._breakfast_breakdown_from_items its ai_breakfast_names))
  = SR.groundnut_chutney c
  /\ SR.tomato_chutney c = SR.groundnut_chutney c
  /\ SR.karam_podi c = SR.groundnut_chutney c
  /\ SR.sambar c = SR.groundnut_chutney c.
Proof.
  intros c. split; [|repeat split; reflexivity].
  unfold c, SR._calculate_complementary_from_items, SR._breakfast_breakdown_from_items.
  cbn [SR.groundnut_chutney]. unfold SR.ai_set_of. rewrite is_empty_list_map.
  apply breakdown_fold. reflexivity.
Qed.

(** ** Quantities are not negative *)

Lemma digits_value_nonneg (s : string) :
  forall acc, (0 <= acc)%Z -> sforall is_digit s = true -> (0 <= digits_value acc s)%Z.
Proof.
  induction s as [|c rest IH]; intros acc Hacc H; simpl; [exact Hacc|].
  simpl in H. apply andb_prop in H as [Hc Hr]. apply IH; [|exact Hr].
  unfold is_digit, in_range in Hc. apply andb_prop in Hc as [Hlo _].
  apply N.leb_le in Hlo. lia.
Qed.

Lemma parse_quantity_nonneg (qstr : string) (q : Z) (u : string) :
  SR.parse_quantity qstr = Some (q, u) -> (0 <= q)%Z.
Proof.
  unfold SR.parse_quantity.
  assert (Hg : forall m v, caps_ok digit_group (m_caps m) ->
                           py_int (grp 1 m) = Some v -> (0 <= v)%Z).
  { intros m v Hm. unfold py_int. destruct (4300 <? _)%nat; [discriminate|].
    intros [= <-]. apply digits_value_nonneg; [lia|].
    apply (caps_ok_grp digit_group 1 m Hm); [intros _|]; reflexivity. }
  destruct (re_match SR.qty_unit qstr) as [m|] eqn:E.
  - destruct (py_int (grp 1 m)) as [v|] eqn:Ev; [|discriminate].
    simpl. intros [= <- _]. apply (Hg m v); [|exact Ev]. unfold re_match in E.
    apply (match_here_sound digit_group) in E as (_ & _ & Hc); [exact Hc|].
    simpl. repeat split; try exact I.
    + intros t (Ht & _) _. exact Ht.
    + intros t _ Hn. discriminate.
  - destruct (re_search (Grp 1 (plus is_digit)) qstr) as [m|] eqn:E1;
      [|intros [= <- _]; lia].
    destruct (py_int (grp 1 m)) as [v|] eqn:Ev; [|discriminate].
    simpl. intros [= <- _]. apply (Hg m v); [|exact Ev]. unfold re_search in E1.
    apply (search_at_sound digit_group) in E1 as (_ & _ & Hc); [exact Hc|].
    simpl. split; [|exact I]. intros t (Ht & _) _. exact Ht.
Qed.

Lemma filter_map_forall {A B : Type} (P : B -> Prop) (f : A -> option B) (l : list A) :
  (forall x y, f x = Some y -> P y) -> Forall P (filter_map f l).
Proof.
  intros H. induction l as [|x rest IH]; simpl; [constructor|].
  destruct (f x) as [y|] eqn:E; [constructor; [eapply H; eauto | exact IH] | exact IH].
Qed.

Lemma try_filter_map_forall {A B : Type} (P : B -> Prop) (f : A -> option (option B))
  (l : list A) :
  (forall x y, f x = Some (Some y) -> P y) ->
  forall ys, try_filter_map f l = Some ys -> Forall P ys.
Proof.
  intros H. induction l as [|x rest IH]; intros ys E; simpl in E.
  - injection E as <-. constructor.
  - destruct (f x) as [o|] eqn:Ex; [|discriminate].
    destruct (try_filter_map f rest) as [zs|]; [|discriminate].
    injection E as <-. destruct o as [y|]; [constructor|]; auto. eapply H; eauto.
Qed.

Lemma rows_nonneg (ocr_text : string) (rows : list SR.row) :
  SR.rows_of ocr_text = Some rows ->
  Forall (fun r => (0 <= SR.row_quantity r)%Z) rows.
Proof.
  unfold SR.rows_of. apply try_filter_map_forall. intros line r.
  unfold SR.parse_row. cbv zeta.
  destruct (SR.passed_over _ _); [discriminate|].
  destruct (SR.parse_quantity _) as [[q u]|] eqn:E; [|discriminate].
  intros H. injection H as <-. simpl. eapply parse_quantity_nonneg; eauto.
Qed.

Lemma add_row_nonneg (r : SR.row) (d : SR.aggregation) :
  (0 <= SR.row_quantity r)%Z ->
  Forall (fun na => (0 <= SR.agg_quantity (snd na))%Z) d ->
  forall d', SR.add_row r d = Some d' ->
             Forall (fun na => (0 <= SR.agg_quantity (snd na))%Z) d'.
Proof.
  intros Hr. induction 1 as [|[name a] rest Ha Hrest IH]; intros d' H; simpl in H.
  - injection H as <-. repeat constructor. exact Hr.
  - destruct (String.eqb name (SR.row_item r)).
    + destruct (SR.num_add _ _); [|discriminate]. injection H as <-.
      constructor; [simpl in *; lia | exact Hrest].
    + destruct (SR.add_row r rest) as [rest'|]; [|discriminate].
      injection H as <-. constructor; [exact Ha | apply IH; reflexivity].
Qed.

Lemma aggregate_nonneg (rows : list SR.row) :
  Forall (fun r => (0 <= SR.row_quantity r)%Z) rows ->
  forall d d',
    Forall (fun na => (0 <= SR.agg_quantity (snd na))%Z) d ->
    SR.aggregate rows d = Some d' ->
    Forall (fun na => (0 <= SR.agg_quantity (snd na))%Z) d'.
Proof.
  induction 1 as [|r rest Hr _ IH]; intros d d' Hd H; simpl in H.
  - injection H as <-. exact Hd.
  - destruct (SR.add_row r d) as [d1|] eqn:E; [|discriminate].
    apply (IH d1 d'); [|exact H]. eapply add_row_nonneg; eauto.
Qed.

Lemma items_nonneg (ocr_text : string) (rep : SR.report) :
  SR.fallback_parsing ocr_text = Some rep ->
  Forall (fun it => (0 <= SR.total_quantity it)%Z) (SR.items rep).
Proof.
  intros H.
  apply fallback_parsing_inv in H as (rows & d & entries & Hr & Ha & He & Hi & _ & _).
  rewrite Hi. eapply Permutation_Forall; [apply sort_desc_perm|].
  apply item_entries_spec in He.
  pose proof (aggregate_nonneg _ (rows_nonneg ocr_text rows Hr) [] d (Forall_nil _) Ha)
    as Hd.
  clear -He Hd. induction He as [|[name a] e d' es H _ IH]; [constructor|].
  inversion Hd as [|? ? Hq Hrest]; subst.
  constructor; [|apply IH, Hrest].
  rewrite (item_entry_quantity name a e H). exact Hq.
Qed.

Lemma breakfast_total_bounds (test : SR.report_item -> bool) (its : list SR.report_item) :
  Forall (fun it => (0 <= SR.total_quantity it)%Z) its ->
  forall total,
    (total
     <= fold_left (fun total it => if test it then (total + SR.total_quantity it)%Z
                                   else total) its total
     <= total + zsum (map SR.total_quantity its))%Z.
Proof.
  unfold zsum. induction 1 as [|it rest Hq _ IH]; intros total; simpl; [lia|].
  destruct (test it).
  - specialize (IH (total + SR.total_quantity it)%Z). lia.
  - specialize (IH total). lia.
Qed.

(** No quantity of the fallback report (of 7-bit text) is negative, and the
    number of each complementary item lies between 0 and [total_items_sold]:
    a quantity is read from digits, or is 1. *)
Theorem complementary_within_items_sold (ocr_text : string) (rep : SR.report)
  (ai_breakfast_names : option (list string)) :
  seven_bit ocr_text = true ->
  SR.fallback_parsing ocr_text = Some rep ->
  let c := SR._calculate_complementary_from_items (SR.items rep) ai_breakfast_names in
  Forall (fun it => (0 <= SR.total_quantity it)%Z) (SR.items rep)
  /\ (0 <= SR.groundnut_chutney c <= SR.total_items_sold rep)%Z.
Proof.
  intros _ H c. pose proof (items_nonneg ocr_text rep H) as Hn.
  split; [exact Hn|].
  destruct (fallback_sold_is_item_sum ocr_text rep H) as (_ & -> & _).
  unfold c, SR._calculate_complementary_from_items. cbn [SR.groundnut_chutney].
  pose proof (breakfast_total_bounds
                (fun it => SR.is_breakfast
                             (negb (is_empty_list (default [] ai_breakfast_names)))
                             (SR.ai_set_of ai_breakfast_names) (lower (SR.item_name it)))
                (SR.items rep) Hn 0%Z) as Hb.
  simpl in Hb. exact Hb.
Qed.

(** the report of three rows: the rows of "Dosa" and "Idli" are breakfast
    plates, seven in all *)
Lemma complementary_within_items_sold_witness :
  exists rep,
    SR.fallback_parsing three_row_report = Some rep
    /\ SR.groundnut_chutney (SR._calculate_complementary_from_items (SR.items rep) None)
       = 7%Z
    /\ let c := SR._calculate_complementary_from_items (SR.items rep) None in
       Forall (fun it => (0 <= SR.total_quantity it)%Z) (SR.items rep)
       /\ (0 <= SR.groundnut_chutney c <= SR.total_items_sold rep)%Z.
Proof.
  destruct (SR.fallback_parsing three_row_report) as [rep|] eqn:E;
    [|vm_compute in E; discriminate].
  exists rep. split; [reflexivity|].
  split; [vm_compute in E; injection E as <-; reflexivity|].
  exact (complementary_within_items_sold three_row_report rep None eq_refl E).
Defined.

(** ** When the aggregator raises *)

Lemma parse_amount_read (s : string) : read_amount (SR.parse_amount s).
Proof.
  unfold SR.parse_amount, read_amount.
  destruct (is_empty _); [left; reflexivity|].
  destruct (py_float _); [right; eauto | left; reflexivity].
Qed.

Lemma num_add_read (a b : SR.pynum) :
  read_amount a -> read_amount b ->
  exists c, SR.num_add a b = Some c /\ read_amount c.
Proof.
  intros [->|(x & ->)] [->|(y & ->)].
  - exists (SR.PInt 0). split; [reflexivity | left; reflexivity].
  - eexists. split; [vm_compute; reflexivity | right; eauto].
  - eexists. split; [vm_compute; reflexivity | right; eauto].
  - eexists. split; [reflexivity | right; eauto].
Qed.

Lemma rows_read (ocr_text : string) (rows : list SR.row) :
  SR.rows_of ocr_text = Some rows ->
  Forall (fun r => read_amount (SR.row_amount r)) rows.
Proof.
  unfold SR.rows_of. apply try_filter_map_forall. intros line r.
  unfold SR.parse_row. cbv zeta.
  destruct (SR.passed_over _ _); [discriminate|].
  destruct (SR.parse_quantity _) as [[q u]|]; [|discriminate].
  intros H. injection H as <-. simpl. apply parse_amount_read.
Qed.

Lemma add_row_read (r : SR.row) (d : SR.aggregation) :
  read_amount (SR.row_amount r) ->
  Forall (fun na => read_amount (SR.agg_amount (snd na))) d ->
  exists d', SR.add_row r d = Some d'
             /\ Forall (fun na => read_amount (SR.agg_amount (snd na))) d'.
Proof.
  intros Hr. induction 1 as [|[name a] rest Ha Hrest IH]; simpl.
  - eexists. split; [reflexivity|]. constructor; [exact Hr | constructor].
  - destruct (String.eqb name (SR.row_item r)).
    + simpl in Ha. destruct (num_add_read _ _ Ha Hr) as (c & -> & Hc).
      eexists. split; [reflexivity|]. constructor; [exact Hc | exact Hrest].
    + destruct IH as (rest' & -> & Hrest').
      eexists. split; [reflexivity|]. constructor; [exact Ha | exact Hrest'].
Qed.

Lemma aggregate_read (rows : list SR.row) :
  Forall (fun r => read_amount (SR.row_amount r)) rows ->
  forall d,
    Forall (fun na => read_amount (SR.agg_amount (snd na))) d ->
    exists d', SR.aggregate rows d = Some d'
               /\ Forall (fun na => read_amount (SR.agg_amount (snd na))) d'.
Proof.
  induction 1 as [|r rest Hr _ IH]; intros d Hd; simpl.
  - eauto.
  - destruct (add_row_read r d Hr Hd) as (d1 & -> & Hd1). apply IH, Hd1.
Qed.

Lemma num_sum_read (l : list SR.pynum) :
  Forall read_amount l ->
  forall start, read_amount start -> exists total, SR.num_sum start l = Some total.
Proof.
  induction 1 as [|a rest Ha _ IH]; intros start Hs; simpl; [eauto|].
  destruct (num_add_read _ _ Hs Ha) as (c & -> & Hc). apply IH, Hc.
Qed.

Lemma float_of_ratio_zero (q : Z) : (0 < q)%Z -> float_of_ratio 0 q = 0%float.
Proof.
  intros Hq. unfold float_of_ratio.
  change (0 * 2 ^ 1200)%Z with 0%Z.
  assert (E : Z.div_eucl 0 q = (0, 0)%Z).
  { pose proof (Z.div_0_l q ltac:(lia)) as Hd.
    pose proof (Z.mod_0_l q ltac:(lia)) as Hm.
    unfold Z.div, Z.modulo in Hd, Hm.
    destruct (Z.div_eucl 0 q) as [k r]. subst. reflexivity. }
  rewrite E.
  assert (Hl : new_location q 0 = loc_Exact).
  { unfold new_location, new_location_even, new_location_odd.
    destruct (Z.even q); reflexivity. }
  rewrite Hl. vm_compute. reflexivity.
Qed.

Lemma item_entries_none (d : SR.aggregation) :
  Forall (fun na => read_amount (SR.agg_amount (snd na))) d ->
  SR.item_entries d = None -> Exists overflows d.
Proof.
  induction 1 as [|[name a] rest Ha _ IH]; simpl; [discriminate|].
  destruct (SR.item_entry name a) as [e|] eqn:E.
  - destruct (SR.item_entries rest); [discriminate|].
    intros _. right. apply IH. reflexivity.
  - intros _. left. unfold overflows. simpl.
    unfold SR.item_entry in E.
    destruct (0 <? SR.agg_quantity a)%Z eqn:Eq; [|discriminate].
    apply Z.ltb_lt in Eq. split; [exact Eq|].
    destruct Ha as [Ha|(x & Ha)]; simpl in Ha; rewrite Ha in *; unfold SR.num_div in E.
    + change (Z.abs 0) with 0%Z in E. rewrite (float_of_ratio_zero _ Eq) in E.
      vm_compute in E. discriminate.
    + destruct (float_of_int (SR.agg_quantity a)); [discriminate|]. eauto.
Qed.

Lemma raises_on_overflow_only (ocr_text : string) (rows : list SR.row) :
  SR.rows_of ocr_text = Some rows ->
  exists d,
    SR.aggregate rows [] = Some d
    /\ (SR.fallback_parsing ocr_text = None <-> Exists overflows d).
Proof.
  intros Hr.
  destruct (aggregate_read _ (rows_read ocr_text rows Hr) [] (Forall_nil _))
    as (d & Ha & Hd).
  exists d. split; [exact Ha|].
  unfold SR.fallback_parsing. rewrite Hr, Ha. unfold SR.report_of.
  assert (Hs : exists total,
             SR.num_sum (SR.PInt 0) (map (fun na => SR.agg_amount (snd na)) d) = Some total).
  { apply num_sum_read; [|left; reflexivity].
    apply Forall_map. exact Hd. }
  destruct Hs as (total & Hs). rewrite Hs.
  destruct (SR.item_entries d) as [entries|] eqn:E.
  - split; [discriminate|]. intros Hex. exfalso.
    apply item_entries_spec in E. clear -E Hex.
    induction E as [|[name a] e d' es H _ IH]; [inversion Hex|].
    inversion Hex as [? ? (Hq & Hf & (x & Hx))|? ? Hrest]; subst; [|apply IH, Hrest].
    simpl in *. unfold SR.item_entry in H.
    apply Z.ltb_lt in Hq. rewrite Hq, Hx in H. unfold SR.num_div in H.
    rewrite Hf in H. discriminate.
  - split; [intros _|reflexivity]. apply item_entries_none; assumption.
Qed.

(** When the rows of a report (of 7-bit text) are read, which fails only when
    [int] raises on a quantity of more than 4300 digits, the fallback
    aggregator raises in one case only: the amount of an item is a [float]
    and its total quantity is too large to be converted to one, so that the
    division for the unit price overflows.  The rows are always aggregated,
    and the sums never raise. *)
Theorem fallback_parsing_raises_on_overflow_only (ocr_text : string)
  (rows : list SR.row) :
  seven_bit ocr_text = true ->
  SR.rows_of ocr_text = Some rows ->
  exists d,
    SR.aggregate rows [] = Some d
    /\ (SR.fallback_parsing ocr_text = None <-> Exists overflows d).
Proof. intros _. apply raises_on_overflow_only. Qed.

(** a row of 10^309 plates: the rows are read and aggregated, and the
    division for the unit price raises *)
Lemma fallback_parsing_raises_on_overflow_only_witness :
  exists rows d,
    SR.rows_of huge_quantity_report = Some rows
    /\ SR.aggregate rows [] = Some d
    /\ SR.fallback_parsing huge_quantity_report = None
    /\ Exists overflows d.
Proof.
  destruct (SR.rows_of huge_quantity_report) as [rows|] eqn:Hr;
    [|vm_compute in Hr; discriminate].
  destruct (fallback_parsing_raises_on_overflow_only huge_quantity_report rows
              eq_refl Hr) as (d & Ha & Hiff).
  exists rows, d. split; [reflexivity|]. split; [exact Ha|].
  assert (Hn : SR.fallback_parsing huge_quantity_report = None)
    by (vm_compute; reflexivity).
  split; [exact Hn | exact (proj1 Hiff Hn)].
Defined.

(** ** The items of the deterministic parser *)

Lemma lower_app (a b : string) : lower (a ++ b) = lower a ++ lower b.
Proof. unfold lower. induction a as [|c rest IH]; simpl; [reflexivity|]. rewrite IH. reflexivity. Qed.

Lemma lang_liti (w t : string) : lang (liti w) t -> lower t = lower w.
Proof.
  revert t. induction w as [|c rest IH]; intros t H; simpl in H.
  - subst. reflexivity.
  - destruct H as (t1 & t2 & -> & (a & -> & Ha) & H2).
    unfold same_letter in Ha. apply Ascii.eqb_eq in Ha.
    simpl. unfold lower in *. simpl. rewrite Ha, (IH t2 H2). reflexivity.
Qed.

Lemma lang_liti_opt (w v t : string) :
  lang (Seq (liti w) (opt (liti v))) t -> lower t = lower (w ++ v) \/ lower t = lower w.
Proof.
  intros (t1 & t2 & -> & H1 & [H2|H2]).
  - left. rewrite !lower_app, (lang_liti w t1 H1), (lang_liti v t2 H2). reflexivity.
  - right. simpl in H2. subst. rewrite append_nil_r. apply (lang_liti w t1 H1).
Qed.

Lemma lang_alts (l : list regex) (t : string) :
  lang (alts l) t -> exists r, In r l /\ lang r t.
Proof.
  induction l as [|r [|r' rest] IH]; intros H.
  - destruct H as (a & _ & Ha). discriminate.
  - exists r. simpl. auto.
  - destruct H as [H|H]; [exists r; simpl; auto|].
    destruct (IH H) as (r0 & Hin & L). exists r0. split; [right; exact Hin | exact L].
Qed.

Lemma weight_unit_lang (t : string) :
  lang (alts [ liti "kg"; Seq (liti "kg") (opt (liti "s")); liti "g"; liti "gm";
               Seq (liti "gram") (opt (liti "s")); liti "ml"; liti "l"; liti "ltr" ]) t ->
  In (lower t) ["kg"; "kgs"; "g"; "gm"; "gram"; "grams"; "ml"; "l"; "ltr"].
Proof.
  intros H. apply lang_alts in H as (r & Hin & L).
  repeat (destruct Hin as [<-|Hin];
          [first [ apply lang_liti in L; rewrite L; simpl; tauto
                 | apply lang_liti_opt in L; destruct L as [L|L]; rewrite L; simpl; tauto ]|]).
  destruct Hin.
Qed.

Lemma weight_unit_sound :
  grp_ok weight_unit_group EnhancedReceiptParser.weight_pattern.
Proof.
  simpl. repeat split; try exact I; intros t L Hn; vm_compute in Hn; try discriminate.
  apply weight_unit_lang. exact L.
Qed.

Lemma enhance_branch_item (raw : EnhancedReceiptParser.item) :
  branch_item raw -> well_formed_item (EnhancedReceiptParser._enhance_item raw).
Proof.
  intros (Hu & (t & Ht) & Hc & (cf & Hcf & Hin)).
  unfold well_formed_item, EnhancedReceiptParser._enhance_item.
  cbn [EnhancedReceiptParser.item_name EnhancedReceiptParser.unit
       EnhancedReceiptParser.total_price EnhancedReceiptParser.category
       EnhancedReceiptParser.confidence EnhancedReceiptParser.estimated_expiry].
  rewrite Ht, Hc, Hcf.
  split; [apply clean_item_name_chars|].
  split.
  { simpl in Hu. repeat (destruct Hu as [<-|Hu]; [vm_compute; tauto|]). destruct Hu. }
  split; [eauto|].
  split; [eexists; split; [reflexivity|];
          exact (categorize_in_vocabulary EnhancedReceiptParser.categories _)|].
  split; [exists cf; auto|].
  eexists; split; [reflexivity | apply default_expiry_bounds].
Qed.

Lemma emit_well_formed (st : EnhancedReceiptParser.pstate) (extra : bool)
  (raw : EnhancedReceiptParser.item) (k : EnhancedReceiptParser.key) :
  branch_item raw ->
  Forall well_formed_item (EnhancedReceiptParser.items st) ->
  Forall well_formed_item (EnhancedReceiptParser.items (EnhancedReceiptParser.emit st extra raw k)).
Proof.
  intros Hraw Hst. unfold EnhancedReceiptParser.emit.
  destruct (_ && _); [|exact Hst].
  cbn [EnhancedReceiptParser.items]. apply Forall_app. split; [exact Hst|].
  constructor; [apply enhance_branch_item, Hraw | constructor].
Qed.

Lemma mk_item_branch (name : string) (q : float) (u : string) (up total conf : float) :
  In u branch_units -> In conf branch_confidences ->
  branch_item (EnhancedReceiptParser.mk_item name q u up total conf).
Proof.
  intros Hu Hc. unfold branch_item, EnhancedReceiptParser.mk_item.
  cbn [EnhancedReceiptParser.unit EnhancedReceiptParser.total_price
       EnhancedReceiptParser.category EnhancedReceiptParser.confidence].
  eauto 10.
Qed.

Lemma pieces_unit : In "pieces" branch_units.
Proof. left. reflexivity. Qed.

Lemma weight_unit_norm (line : string) (m : mobj) :
  re_match EnhancedReceiptParser.weight_pattern line = Some m ->
  let unit_raw := rstrip_by (one_of "s") (lower (grp EnhancedReceiptParser.g_unit m)) in
  In (default unit_raw (lookup unit_raw EnhancedReceiptParser.unit_mappings)) branch_units.
Proof.
  intros H unit_raw. unfold re_match in H.
  assert (Hu : weight_unit_group EnhancedReceiptParser.g_unit
                 (grp EnhancedReceiptParser.g_unit m)).
  { apply (match_here_group weight_unit_group _ None line m _ weight_unit_sound H).
    simpl. tauto. }
  specialize (Hu eq_refl). unfold unit_raw.
  simpl in Hu. repeat (destruct Hu as [<-|Hu]; [vm_compute; tauto|]). destruct Hu.
Qed.

Lemma parse_line_well_formed (st st' : EnhancedReceiptParser.pstate) (raw_line : string) :
  EnhancedReceiptParser.parse_line st raw_line = Some st' ->
  Forall well_formed_item (EnhancedReceiptParser.items st) ->
  Forall well_formed_item (EnhancedReceiptParser.items st').
Proof.
  unfold EnhancedReceiptParser.parse_line. intros H Hst.
  set (line := EnhancedReceiptParser.prepare_line raw_line) in *.
  destruct (is_empty line || (String.length line <? 3)%nat);
    [injection H as <-; exact Hst|].
  destruct (is_some (re_search EnhancedReceiptParser.skip_line line));
    [injection H as <-; exact Hst|].
  destruct (re_match EnhancedReceiptParser.mult_pattern line) as [m|].
  { injection H as <-. unfold EnhancedReceiptParser.mult_branch, EnhancedReceiptParser.set_prev.
    cbn [EnhancedReceiptParser.items]. apply emit_well_formed; [|exact Hst].
    apply mk_item_branch; [exact pieces_unit | simpl; auto]. }
  destruct (EnhancedReceiptParser.bare_applies st _) as [[m prev]|].
  { injection H as <-. unfold EnhancedReceiptParser.bare_branch, EnhancedReceiptParser.set_prev.
    cbn [EnhancedReceiptParser.items]. apply emit_well_formed; [|exact Hst].
    apply mk_item_branch; [exact pieces_unit | simpl; auto]. }
  destruct (re_match EnhancedReceiptParser.dimension_pattern line) as [m|].
  { unfold EnhancedReceiptParser.dimension_branch in H.
    destruct (int_of_float _); [|discriminate]. destruct (int_of_float _); [|discriminate].
    injection H as <-. unfold EnhancedReceiptParser.set_prev.
    cbn [EnhancedReceiptParser.items]. apply emit_well_formed; [|exact Hst].
    apply mk_item_branch; [exact pieces_unit | simpl; auto]. }
  destruct (re_match EnhancedReceiptParser.weight_pattern line) as [m|] eqn:Ew.
  { injection H as <-. unfold EnhancedReceiptParser.weight_branch, EnhancedReceiptParser.set_prev.
    cbn [EnhancedReceiptParser.items]. apply emit_well_formed; [|exact Hst].
    apply mk_item_branch; [exact (weight_unit_norm line m Ew) | simpl; auto]. }
  injection H as <-. unfold EnhancedReceiptParser.triplet_branch.
  destruct (EnhancedReceiptParser.last3 _) as [[[ta tb] tc]|]; [|exact Hst].
  destruct (EnhancedReceiptParser._approx_equal _ _); [|exact Hst].
  destruct (_ || _); [exact Hst|].
  destruct (EnhancedReceiptParser.disambiguate _ _) as [q up].
  apply emit_well_formed; [|exact Hst].
  apply mk_item_branch; [exact pieces_unit | simpl; auto].
Qed.

Lemma parse_lines_well_formed (lines : list string) :
  forall st st',
    EnhancedReceiptParser.parse_lines st lines = Some st' ->
    Forall well_formed_item (EnhancedReceiptParser.items st) ->
    Forall well_formed_item (EnhancedReceiptParser.items st').
Proof.
  induction lines as [|l rest IH]; intros st st' H Hst; simpl in H.
  - injection H as <-. exact Hst.
  - destruct (EnhancedReceiptParser.parse_line st l) as [st1|] eqn:E; [|discriminate].
    apply (IH st1 st' H). exact (parse_line_well_formed st st1 l E Hst).
Qed.

Lemma deterministic_well_formed (ocr_text : string)
  (its : list EnhancedReceiptParser.item) :
  EnhancedReceiptParser._deterministic_parse_items ocr_text = Some its ->
  Forall well_formed_item its.
Proof.
  unfold EnhancedReceiptParser._deterministic_parse_items. intros H.
  destruct (EnhancedReceiptParser.parse_lines _ _) as [st|] eqn:E; [|discriminate].
  injection H as <-.
  apply (parse_lines_well_formed _ _ _ E). constructor.
Qed.

(** Every item that the deterministic parser returns for a text of 7-bit
    characters is complete and normalized: its name is a cleaned name (word characters, spaces, hyphens
    and dots), its unit is pieces, kg, gram, ml or liter, it has a total
    price, a category of the vocabulary, a confidence among 0.95, 0.9, 0.85
    and 0.8, and an expiry between 3 and 3650 days. *)
Theorem deterministic_items_well_formed (ocr_text : string)
  (its : list EnhancedReceiptParser.item) :
  seven_bit ocr_text = true ->
  EnhancedReceiptParser._deterministic_parse_items ocr_text = Some its ->
  Forall well_formed_item its.
Proof. intros _. apply deterministic_well_formed. Qed.

(** "Sugar 2kg 90": one item of the weight branch, in kg *)
Lemma deterministic_items_well_formed_witness :
  exists it,
    EnhancedReceiptParser._deterministic_parse_items "Sugar 2kg 90" = Some [it]
    /\ EnhancedReceiptParser.unit it = "kg"
    /\ well_formed_item it.
Proof.
  eexists. split; [vm_compute; reflexivity|]. split; [reflexivity|].
  assert (H : EnhancedReceiptParser._deterministic_parse_items "Sugar 2kg 90"
              = Some [EnhancedReceiptParser._enhance_item
                        (EnhancedReceiptParser.mk_item "Sugar" 2 "kg" 45 90 0.85%float)])
    by (vm_compute; reflexivity).
  apply deterministic_items_well_formed in H; [|reflexivity].
  inversion H as [|x l Hx _]. subst. vm_compute in Hx. vm_compute. exact Hx.
Defined.

(** ** Whether a pattern matches does not depend on what is captured *)

Lemma is_some_or_else {R : Type} (x y : option R) :
  is_some (or_else x y) = is_some x || is_some y.
Proof. destruct x; reflexivity. Qed.

Lemma rep_greedy_success {R1 R2 : Type} (p : ascii -> bool) (k1 : cont R1) (k2 : cont R2) :
  same_success k1 k2 ->
  forall s lo hi acc acc' pv c c',
    is_some (rep_greedy p lo hi k1 acc pv s c)
    = is_some (rep_greedy p lo hi k2 acc' pv s c').
Proof.
  intros Hk. induction s as [|a rest IH]; intros lo hi acc acc' pv c c'; simpl.
  - destruct lo; [apply Hk | reflexivity].
  - assert (Hstop : is_some (match lo with O => k1 acc pv (String a rest) c | S _ => None end)
                    = is_some (match lo with O => k2 acc' pv (String a rest) c' | S _ => None end))
      by (destruct lo; [apply Hk | reflexivity]).
    destruct (p a && may_repeat hi); [|exact Hstop].
    rewrite !is_some_or_else, Hstop. f_equal. apply IH.
Qed.

Lemma rep_lazy_success {R1 R2 : Type} (p : ascii -> bool) (k1 : cont R1) (k2 : cont R2) :
  same_success k1 k2 ->
  forall s lo hi acc acc' pv c c',
    is_some (rep_lazy p lo hi k1 acc pv s c)
    = is_some (rep_lazy p lo hi k2 acc' pv s c').
Proof.
  intros Hk. induction s as [|a rest IH]; intros lo hi acc acc' pv c c'; simpl.
  - destruct lo; [apply Hk | reflexivity].
  - assert (Hstop : is_some (match lo with O => k1 acc pv (String a rest) c | S _ => None end)
                    = is_some (match lo with O => k2 acc' pv (String a rest) c' | S _ => None end))
      by (destruct lo; [apply Hk | reflexivity]).
    destruct (p a && may_repeat hi); [|exact Hstop].
    rewrite !is_some_or_else, Hstop. f_equal. apply IH.
Qed.

Lemma rmatch_success (r : regex) :
  forall (R1 R2 : Type) (k1 : cont R1) (k2 : cont R2),
    same_success k1 k2 ->
    forall pv s c c',
      is_some (rmatch R1 r k1 pv s c) = is_some (rmatch R2 r k2 pv s c').
Proof.
  induction r as [ | p | r1 IH1 r2 IH2 | r1 IH1 r2 IH2 | g lo hi p | n r1 IH1
                 | | | | r1 IH1 ];
    intros R1 R2 k1 k2 Hk pv s c c'; simpl.
  - apply Hk.
  - destruct s as [|a rest]; [reflexivity|]. destruct (p a); [apply Hk | reflexivity].
  - apply IH1. intros t t' pv1 s1 c1 c1'. apply IH2.
    intros t2 t2' pv2 s2 c2 c2'. apply Hk.
  - rewrite !is_some_or_else. f_equal; [apply IH1 | apply IH2]; exact Hk.
  - destruct g; [apply rep_greedy_success | apply rep_lazy_success]; exact Hk.
  - apply IH1. intros t t' pv1 s1 c1 c1'. apply Hk.
  - destruct pv; [reflexivity | apply Hk].
  - destruct (is_empty s || (s =? String LF "")%string); [apply Hk | reflexivity].
  - destruct (xorb _ _); [apply Hk | reflexivity].
  - assert (Ha : is_some (rmatch caps r1 (fun _ _ _ c1 => Some c1) pv s c)
                 = is_some (rmatch caps r1 (fun _ _ _ c1 => Some c1) pv s c'))
      by (apply IH1; intros t t' pv1 s1 c1 c1'; reflexivity).
    destruct (rmatch caps r1 _ pv s c), (rmatch caps r1 _ pv s c');
      simpl in Ha; try discriminate; [apply Hk | reflexivity].
Qed.

Lemma k_done_success (f g : string -> string) :
  same_success (fun t pv s c => k_done (f t) pv s c) (fun t pv s c => k_done (g t) pv s c).
Proof. intros t t' pv s c c'. reflexivity. Qed.

Lemma grp_ok_true (r : regex) : grp_ok (fun _ _ => True) r.
Proof. induction r; simpl; auto. Qed.

(** when a sequence matches, its second part matches where the first part
    ends *)
Lemma seq_suffix (r1 r2 : regex) (pv : option ascii) (s : string) :
  is_some (match_here (Seq r1 r2) pv s) = true ->
  exists t s', s = t ++ s' /\ is_some (match_here r2 (last_char t pv) s') = true.
Proof.
  unfold match_here. simpl. intros H.
  destruct (rmatch mobj r1 _ pv s []) as [m|] eqn:E; [|discriminate].
  apply (rmatch_sound (fun _ _ => True) r1 (grp_ok_true r1)) in E
    as (t & s' & c' & -> & _ & _ & _ & E); [|constructor].
  exists t, s'. split; [reflexivity|].
  rewrite (rmatch_success r2 mobj mobj k_done
             (fun t2 pv2 s2 c2 => k_done (t ++ t2) pv2 s2 c2)
             (k_done_success (fun x => x) (fun x => t ++ x)) _ _ [] c').
  rewrite E. reflexivity.
Qed.

Lemma seq_assoc_success (r1 r2 r3 : regex) (pv : option ascii) (s : string) :
  is_some (match_here (Seq (Seq r1 r2) r3) pv s)
  = is_some (match_here (Seq r1 (Seq r2 r3)) pv s).
Proof.
  unfold match_here. simpl.
  apply rmatch_success. intros t t' pv1 s1 c1 c1'.
  apply rmatch_success. intros t2 t2' pv2 s2 c2 c2'.
  apply rmatch_success. intros t3 t3' pv3 s3 c3 c3'. reflexivity.
Qed.

(** ** The total amount *)

(** a label that ends with "total", after a word and blanks, hides the
    pattern of the plain "total" *)
Lemma prefixed_total (word : string) (pv : option ascii) (s : string) :
  is_some (match_here
             (EnhancedReceiptParser.amount_after
                (seqs [liti word; star is_space; liti "total"])) pv s) = true ->
  exists t s',
    s = t ++ s'
    /\ is_some (match_here (EnhancedReceiptParser.amount_after (liti "total"))
                  (last_char t pv) s') = true.
Proof.
  unfold EnhancedReceiptParser.amount_after. cbn [seqs]. intros H.
  rewrite seq_assoc_success in H.
  apply seq_suffix in H as (t1 & s1 & -> & H).
  rewrite seq_assoc_success in H.
  apply seq_suffix in H as (t2 & s2 & -> & H).
  exists (t1 ++ t2), s2. rewrite append_assoc, last_char_app. auto.
Qed.

Lemma prefixed_total_not_found (word : string) (text : string) :
  re_search (EnhancedReceiptParser.amount_after (liti "total")) text = None ->
  re_search (EnhancedReceiptParser.amount_after
               (seqs [liti word; star is_space; liti "total"])) text = None.
Proof.
  unfold re_search. intros Hnone.
  destruct (search_at (EnhancedReceiptParser.amount_after
                         (seqs [liti word; star is_space; liti "total"])) None text)
    as [m|] eqn:E; [exfalso|reflexivity].
  apply search_at_inv in E as (before & rest & -> & E).
  assert (Hs : is_some (match_here
                          (EnhancedReceiptParser.amount_after
                             (seqs [liti word; star is_space; liti "total"]))
                          (last_char before None) rest) = true)
    by (rewrite E; reflexivity).
  apply prefixed_total in Hs as (t & s' & -> & Hs).
  pose proof (search_at_none _ _ None Hnone (before ++ t) s'
                (eq_sym (append_assoc _ _ _))) as Hn.
  rewrite last_char_app in Hn. rewrite Hn in Hs. discriminate.
Qed.

(** The patterns for "grand total" and "net total" never decide: the amount
    returned for a text of 7-bit characters is the number after the first
    "total" of the text, in any case and whatever stands before it, and
    failing that the number after the first "amount".  A grand total that
    follows a total is not seen. *)
Theorem total_amount_first_total (text : string) :
  seven_bit text = true ->
  EnhancedReceiptParser._extract_total_amount text
  = match EnhancedReceiptParser.first_search deciding_patterns text with
    | Some m => py_float (grp 1 m)
    | None => None
    end.
Proof.
  intros _. unfold EnhancedReceiptParser._extract_total_amount, deciding_patterns,
    EnhancedReceiptParser.total_patterns.
  cbn [EnhancedReceiptParser.first_search].
  destruct (re_search (EnhancedReceiptParser.amount_after (liti "total")) text)
    as [m|] eqn:E; [reflexivity|].
  rewrite (prefixed_total_not_found "grand" text E).
  rewrite (prefixed_total_not_found "net" text E). reflexivity.
Qed.

(** a total of 50 before a grand total of 60: the amount is 50 *)
Lemma total_amount_first_total_witness :
  let text := "Total: 50 Grand Total: 60" in
  EnhancedReceiptParser._extract_total_amount text = Some 50%float
  /\ EnhancedReceiptParser._extract_total_amount text
     = match EnhancedReceiptParser.first_search deciding_patterns text with
       | Some m => py_float (grp 1 m)
       | None => None
       end.
Proof.
  intros text. split; [vm_compute; reflexivity|].
  apply (total_amount_first_total text). reflexivity.
Defined.

(** ** The methods of [parse_receipt] *)

Lemma try_parse_line_item (line : string) (it : EnhancedReceiptParser.item) :
  EnhancedReceiptParser._try_parse_line line = Some it -> fallback_item it.
Proof.
  unfold EnhancedReceiptParser._try_parse_line, fallback_item.
  repeat match goal with
         | |- context [match re_search ?r line with _ => _ end] =>
             destruct (re_search r line)
         end;
    intros H; try discriminate; injection H as <-;
    cbn [EnhancedReceiptParser.mk_item EnhancedReceiptParser.category
         EnhancedReceiptParser.estimated_expiry EnhancedReceiptParser.total_price
         EnhancedReceiptParser.confidence];
    (split; [reflexivity|]); (split; [reflexivity|]);
    (split; [eexists; reflexivity|]); eexists; (split; [reflexivity|]); simpl; auto.
Qed.

Lemma fallback_items (ocr_text : string) :
  Forall fallback_item (EnhancedReceiptParser._enhanced_fallback_parse ocr_text).
Proof.
  unfold EnhancedReceiptParser._enhanced_fallback_parse.
  apply filter_map_forall. intros line it. unfold EnhancedReceiptParser.fallback_line.
  destruct (_ || _); [discriminate|]. destruct (existsb _ _); [discriminate|].
  apply try_parse_line_item.
Qed.

(** What [parse_receipt] returns for a text of 7-bit characters depends on the
    method it reports.  Under
    "deterministic" the items are those of the deterministic parser, at
    least one, each complete (cleaned name, category, expiry); under
    "regex_fallback" the deterministic parser found nothing and the items are
    the dictionaries of the fallback patterns, with no category and no
    expiry; under "gemini_ai" both parsers found nothing; under
    "text_preservation" there are no items; and success is false only under
    "failed", with no items. *)
Theorem parse_receipt_by_method (scripts : EnhancedReceiptParser.script_table)
  (model : option (string -> list EnhancedReceiptParser.item)) (ocr_text : string) :
  seven_bit ocr_text = true ->
  let r := EnhancedReceiptParser.parse_receipt scripts model ocr_text in
  let method := EnhancedReceiptParser.parsing_method r in
  let its := EnhancedReceiptParser.result_items r in
  In method ["deterministic"; "regex_fallback"; "gemini_ai"; "text_preservation"; "failed"]
  /\ (method = "deterministic" ->
      EnhancedReceiptParser._deterministic_parse_items ocr_text = Some its
      /\ its <> [] /\ Forall well_formed_item its)
  /\ (method = "regex_fallback" ->
      EnhancedReceiptParser._deterministic_parse_items ocr_text = Some []
      /\ its = EnhancedReceiptParser._enhanced_fallback_parse ocr_text
      /\ Forall fallback_item its)
  /\ (method = "gemini_ai" ->
      EnhancedReceiptParser._deterministic_parse_items ocr_text = Some []
      /\ EnhancedReceiptParser._enhanced_fallback_parse ocr_text = []
      /\ its <> [])
  /\ (method = "text_preservation" -> its = [])
  /\ (EnhancedReceiptParser.success r = false <-> method = "failed")
  /\ (method = "failed" -> its = []).
Proof.
  intros _ r method its. unfold method, its, r, EnhancedReceiptParser.parse_receipt.
  destruct (negb _).
  { cbn. repeat split; try discriminate; auto 10. }
  destruct (EnhancedReceiptParser._deterministic_parse_items ocr_text) as [dets|] eqn:E.
  2:{ cbn. repeat split; try discriminate; auto 10. }
  pose proof (deterministic_well_formed ocr_text dets E) as Hw.
  pose proof (fallback_items ocr_text) as Hf.
  destruct dets as [|d ds].
  - cbn [is_empty_list].
    destruct (EnhancedReceiptParser._enhanced_fallback_parse ocr_text) as [|f fs] eqn:Ef.
    + destruct model as [g|].
      * destruct (g ocr_text) as [|a ai]; cbn; repeat split; try discriminate; auto 10.
      * cbn. repeat split; try discriminate; auto 10.
    + destruct model as [g|]; cbn; repeat split; try discriminate; auto 10.
  - cbn [is_empty_list].
    destruct model as [g|]; cbn; repeat split; try discriminate; auto 10.
Qed.

(** "Sugar 2kg 90" is parsed by the deterministic parser, "Sugar - 2 - 90" by
    the fallback patterns *)
Lemma parse_receipt_by_method_witness :
  let r := EnhancedReceiptParser.parse_receipt [] None "Sugar - 2 - 90" in
  let method := EnhancedReceiptParser.parsing_method r in
  let its := EnhancedReceiptParser.result_items r in
  EnhancedReceiptParser.parsing_method
    (EnhancedReceiptParser.parse_receipt [] None "Sugar 2kg 90") = "deterministic"
  /\ method = "regex_fallback"
  /\ EnhancedReceiptParser._deterministic_parse_items "Sugar - 2 - 90" = Some []
  /\ its = EnhancedReceiptParser._enhanced_fallback_parse "Sugar - 2 - 90"
  /\ Forall fallback_item its.
Proof.
  intros r method its.
  split; [vm_compute; reflexivity|].
  assert (Hm : method = "regex_fallback") by (vm_compute; reflexivity).
  split; [exact Hm|].
  exact (proj1 (proj2 (proj2 (parse_receipt_by_method [] None "Sugar - 2 - 90" eq_refl)))
           Hm).
Defined.

(** ** The text sent to the professional model *)

Lemma split_on_aux_pieces (s : string) :
  forall cur,
    sforall not_lf cur = true ->
    Forall (fun l => sforall not_lf l = true) (split_on_aux LF cur s).
Proof.
  induction s as [|c rest IH]; intros cur Hcur; simpl.
  - constructor; [exact Hcur | constructor].
  - destruct (Ascii.eqb c LF) eqn:E.
    + constructor; [exact Hcur | apply IH; reflexivity].
    + apply IH. rewrite sforall_app, Hcur. simpl. unfold not_lf. rewrite E. reflexivity.
Qed.

Lemma clean_lines_clean (text : string) : Forall clean_line (clean_lines text).
Proof.
  unfold clean_lines, split_on.
  pose proof (split_on_aux_pieces text "" eq_refl) as H.
  induction H as [|l ls Hl _ IH]; simpl; [constructor|].
  destruct (is_empty (strip l)) eqn:E; simpl; [exact IH|].
  constructor; [|exact IH].
  split; [exact E|]. split; [apply strip_idem | apply sforall_strip_by, Hl].
Qed.

Lemma split_on_aux_app (x rest : string) :
  forall cur,
    sforall not_lf x = true ->
    split_on_aux LF cur (x ++ rest) = split_on_aux LF (cur ++ x) rest.
Proof.
  induction x as [|c x' IH]; intros cur H; simpl.
  - rewrite append_nil_r. reflexivity.
  - simpl in H. apply andb_prop in H as [Hc Hx]. unfold not_lf in Hc.
    destruct (Ascii.eqb c LF); [discriminate|].
    rewrite (IH _ Hx), append_snoc. reflexivity.
Qed.

Lemma split_on_aux_sep (sep : ascii) (cur rest : string) :
  split_on_aux sep cur (String sep rest) = cur :: split_on_aux sep "" rest.
Proof. simpl. rewrite eqb_ascii_refl. reflexivity. Qed.

(** joining lines with line feeds and splitting at the line feeds gives the
    lines back *)
Lemma split_concat (lines : list string) :
  lines <> [] ->
  Forall (fun l => sforall not_lf l = true) lines ->
  split_on LF (String.concat (String LF "") lines) = lines.
Proof.
  unfold split_on. intros Hne H. induction H as [|x ls Hx Hls IH]; [congruence|].
  destruct ls as [|y ls'].
  - simpl. rewrite <- (append_nil_r x) at 1. rewrite (split_on_aux_app x "" "" Hx).
    reflexivity.
  - change (String.concat (String LF "") (x :: y :: ls'))
      with (x ++ String LF (String.concat (String LF "") (y :: ls'))).
    rewrite (split_on_aux_app x _ "" Hx), split_on_aux_sep.
    rewrite IH by discriminate. reflexivity.
Qed.

Lemma clean_lines_fixed (lines : list string) :
  Forall clean_line lines ->
  filter (fun l => negb (is_empty l)) (map strip lines) = lines.
Proof.
  induction 1 as [|l ls (He & Hs & _) _ IH]; simpl; [reflexivity|].
  rewrite Hs, He, IH. reflexivity.
Qed.

Lemma concat_nonempty (lines : list string) :
  lines <> [] -> Forall clean_line lines ->
  is_empty (String.concat (String LF "") lines) = false.
Proof.
  intros Hne H. destruct H as [|l ls (He & _) _]; [congruence|].
  destruct l; [discriminate|]. destruct ls; reflexivity.
Qed.

Lemma clean_lines_of_concat (lines : list string) :
  lines <> [] -> Forall clean_line lines ->
  clean_lines (String.concat (String LF "") lines) = lines.
Proof.
  intros Hne H. unfold clean_lines. rewrite split_concat; [apply clean_lines_fixed, H | exact Hne |].
  eapply Forall_impl; [|exact H]. intros l (_ & _ & Hl). exact Hl.
Qed.

Lemma length_substring (n : nat) :
  forall s, (n <= String.length s)%nat -> String.length (substring 0 n s) = n.
Proof.
  induction n as [|n IH]; intros s H.
  - destruct s; reflexivity.
  - destruct s as [|c rest]; simpl in H; [lia|]. simpl. rewrite IH by lia. reflexivity.
Qed.

Lemma clean_text_cases (text : string) :
  let cleaned := String.concat (String LF "") (clean_lines text) in
  ProfessionalReceiptParser._clean_text text = ""
  /\ (is_empty text = true \/ clean_lines text = [])
  \/ is_empty text = false
     /\ (Z.of_nat (String.length cleaned) <= 8000)%Z
     /\ ProfessionalReceiptParser._clean_text text = cleaned
  \/ (8000 < Z.of_nat (String.length cleaned))%Z
     /\ ProfessionalReceiptParser._clean_text text
        = substring 0 (Z.to_nat 8000) cleaned ++ "...[TRUNCATED]".
Proof.
  intros cleaned. unfold ProfessionalReceiptParser._clean_text.
  destruct (is_empty text) eqn:E; [left; auto|].
  fold (clean_lines text). fold cleaned.
  destruct (8000 <? Z.of_nat (String.length cleaned))%Z eqn:El.
  - right. right. apply Z.ltb_lt in El. auto.
  - apply Z.ltb_ge in El.
    destruct (clean_lines text) as [|l ls] eqn:Ec.
    + left. auto.
    + right. left. auto.
Qed.

(** The text prepared for the model, from a text of 7-bit characters, is at
    most 8014 characters long; it is
    empty for a blank text; and, unless it was cut, preparing it again leaves
    it as it is: its lines are the trimmed lines of the text that are not
    empty. *)
Theorem clean_text_bounded_idempotent (text : string) :
  seven_bit text = true ->
  let r := ProfessionalReceiptParser._clean_text text in
  (Z.of_nat (String.length r) <= 8014)%Z
  /\ (sforall is_space text = true -> r = "")
  /\ ((Z.of_nat (String.length r) <= 8000)%Z ->
      ProfessionalReceiptParser._clean_text r = r).
Proof.
  intros _ r. unfold r.
  destruct (clean_text_cases text) as [(-> & _)|[(Ee & Hl & ->)|(Hl & ->)]].
  - split; [simpl; lia|]. split; [reflexivity|]. intros _. reflexivity.
  - split; [lia|]. split.
    + intros Hb.
      assert (Hc : clean_lines text = []).
      { unfold clean_lines. apply filter_none. apply Forall_map.
        eapply Forall_impl; [|apply (split_on_aux_blank LF text ""); [reflexivity | exact Hb]].
        intros l H. cbv beta. rewrite (strip_blank l H). reflexivity. }
      rewrite Hc. reflexivity.
    + intros _. pose proof (clean_lines_clean text) as Hc.
      destruct (clean_lines text) as [|l ls] eqn:Ec; [reflexivity|].
      set (lines := l :: ls) in *.
      assert (Hne : lines <> []) by discriminate.
      destruct (clean_text_cases (String.concat (String LF "") lines))
        as [(_ & [H|H])|[(_ & _ & H)|(H & _)]].
      * rewrite (concat_nonempty lines Hne Hc) in H. discriminate.
      * rewrite (clean_lines_of_concat lines Hne Hc) in H. congruence.
      * rewrite H, (clean_lines_of_concat lines Hne Hc). reflexivity.
      * rewrite (clean_lines_of_concat lines Hne Hc) in H. lia.
  - assert (Hlen : String.length (substring 0 (Z.to_nat 8000)
                                    (String.concat (String LF "") (clean_lines text)))
                   = Z.to_nat 8000) by (apply length_substring; lia).
    rewrite length_app, Hlen. change (String.length "...[TRUNCATED]") with 14%nat.
    split; [lia|]. split; [|intros H; lia].
    intros Hb. exfalso.
    assert (Hc : clean_lines text = []).
    { unfold clean_lines. apply filter_none. apply Forall_map.
      eapply Forall_impl; [|apply (split_on_aux_blank LF text ""); [reflexivity | exact Hb]].
      intros l H. cbv beta. rewrite (strip_blank l H). reflexivity. }
    rewrite Hc in Hl. simpl in Hl. lia.
Qed.

(** two lines with blanks around them and an empty line between them *)
Lemma clean_text_bounded_idempotent_witness :
  let text := " a " ++ String LF (String LF " b ") in
  ProfessionalReceiptParser._clean_text text = "a" ++ String LF "b"
  /\ (let r := ProfessionalReceiptParser._clean_text text in
      (Z.of_nat (String.length r) <= 8014)%Z
      /\ (sforall is_space text = true -> r = "")
      /\ ((Z.of_nat (String.length r) <= 8000)%Z ->
          ProfessionalReceiptParser._clean_text r = r)).
Proof.
  intros text. split; [vm_compute; reflexivity|].
  apply (clean_text_bounded_idempotent text). reflexivity.
Defined.

(** ** The verdict of the validator *)

Lemma verdict_cases (allowed blacklisted person month code food : bool) :
  (0.6 <=? food_validator.clamp
             (food_validator.raw_confidence allowed blacklisted person month code food))%float
  && negb code && food
  = verdict allowed blacklisted person month code food.
Proof.
  destruct allowed, blacklisted, person, month, code, food; vm_compute; reflexivity.
Qed.

(** The validator accepts an item (of 7-bit text) exactly when its name holds
    a food keyword,
    does not look like a code, and carries at most one of the three penalties
    (billing term, name or place, month) if its category is allowed, and none
    if it is not.  A blank name has no keyword and is refused. *)
Theorem validate_item_verdict (name category : string) :
  seven_bit name = true -> seven_bit category = true ->
  let n := lower (strip name) in
  let tokens := food_validator.tokens_of n in
  food_validator.valid (food_validator.validate_item name category)
  = verdict (food_validator.mem (lower (strip category)) food_validator.ALLOWED_CATEGORIES)
      (food_validator.meets tokens food_validator.BLACKLIST_TERMS)
      (food_validator.meets tokens food_validator.PERSON_OR_PLACE)
      (food_validator.meets tokens food_validator.MONTHS)
      (food_validator.is_mostly_digits_or_codes n)
      (food_validator.meets tokens food_validator.FOOD_KEYWORDS).
Proof.
  intros _ _ n tokens. unfold food_validator.validate_item. fold n. fold tokens.
  destruct (is_empty (strip name)) eqn:E.
  - destruct (strip name); [|discriminate]. simpl.
    unfold verdict. reflexivity.
  - cbn [food_validator.valid]. apply verdict_cases.
Qed.

(** a tomato is accepted as a vegetable; with a billing term and the name of
    a month it is refused, its category being allowed *)
Lemma validate_item_verdict_witness :
  food_validator.valid (food_validator.validate_item " Fresh Tomato " "Vegetables") = true
  /\ food_validator.valid
       (food_validator.validate_item "Tomato bill march" "Vegetables") = false
  /\ (let n := lower (strip "Tomato bill march") in
      let tokens := food_validator.tokens_of n in
      food_validator.valid (food_validator.validate_item "Tomato bill march" "Vegetables")
      = verdict
          (food_validator.mem (lower (strip "Vegetables"))
             food_validator.ALLOWED_CATEGORIES)
          (food_validator.meets tokens food_validator.BLACKLIST_TERMS)
          (food_validator.meets tokens food_validator.PERSON_OR_PLACE)
          (food_validator.meets tokens food_validator.MONTHS)
          (food_validator.is_mostly_digits_or_codes n)
          (food_validator.meets tokens food_validator.FOOD_KEYWORDS)).
Proof.
  split; [vm_compute; reflexivity|]. split; [vm_compute; reflexivity|].
  apply (validate_item_verdict "Tomato bill march" "Vegetables"); reflexivity.
Defined.

(** ** Codes and numbers *)

Lemma sfilter_ext (p q : ascii -> bool) (s : string) :
  (forall c, p c = q c) -> sfilter p s = sfilter q s.
Proof.
  intros H. induction s as [|a rest IH]; simpl; [reflexivity|].
  rewrite H, IH. reflexivity.
Qed.

Lemma scount_sfilter (p q : ascii -> bool) (s : string) :
  (forall c, p c = true -> q c = true) -> scount p (sfilter q s) = scount p s.
Proof.
  intros H. induction s as [|a rest IH]; simpl; [reflexivity|].
  destruct (q a) eqn:Eq; simpl; rewrite IH; [reflexivity|].
  destruct (p a) eqn:Ep; [|reflexivity]. rewrite (H a Ep) in Eq. discriminate.
Qed.

Lemma scount_zero_filter (p q : ascii -> bool) (s : string) :
  (forall c, p c = true -> q c = true) -> sfilter q s = "" -> scount p s = 0%nat.
Proof.
  intros H E. rewrite <- (scount_sfilter p q s H), E. reflexivity.
Qed.

(** [is_mostly_digits_or_codes] depends only on how many letters and how many
    digits the text (of 7-bit characters) holds: it is true exactly when there is no letter, or
    more digits than letters; the other characters do not count. *)
Theorem mostly_digits_by_counts (s : string) :
  seven_bit s = true ->
  food_validator.is_mostly_digits_or_codes s
  = (scount is_alpha s <? scount is_digit s)%nat || (scount is_alpha s =? 0)%nat.
Proof.
  intros _.
  unfold food_validator.is_mostly_digits_or_codes, re_sub.
  rewrite sub_class_filter.
  rewrite (sfilter_ext _ is_alnum) by (intros c; unfold cls_not; apply negb_involutive).
  assert (Ha : forall c, is_alpha c = true -> is_alnum c = true)
    by (intros c H; unfold is_alnum; rewrite H; reflexivity).
  assert (Hd : forall c, is_digit c = true -> is_alnum c = true)
    by (intros c H; unfold is_alnum; rewrite H; apply orb_true_r).
  destruct (sfilter is_alnum s) as [|a rest] eqn:E.
  - simpl. rewrite (scount_zero_filter is_alpha is_alnum s Ha E).
    symmetry. apply orb_true_r.
  - simpl is_empty. cbv iota. rewrite <- E.
    rewrite (scount_sfilter is_alpha is_alnum s Ha), (scount_sfilter is_digit is_alnum s Hd).
    reflexivity.
Qed.

(** two letters and four digits, and a hyphen that does not count *)
Lemma mostly_digits_by_counts_witness :
  food_validator.is_mostly_digits_or_codes "ab-1234" = true
  /\ scount is_alpha "ab-1234" = 2%nat /\ scount is_digit "ab-1234" = 4%nat
  /\ food_validator.is_mostly_digits_or_codes "ab-1234"
     = (scount is_alpha "ab-1234" <? scount is_digit "ab-1234")%nat
       || (scount is_alpha "ab-1234" =? 0)%nat.
Proof.
  split; [vm_compute; reflexivity|]. split; [reflexivity|]. split; [reflexivity|].
  apply (mostly_digits_by_counts "ab-1234"). reflexivity.
Defined.

(** ** The suggested category *)

(** The category suggested for a name of 7-bit text is empty or, in lower
    case, one of the allowed categories: adopting the suggestion never gives a category that the
    validator refuses. *)
Theorem guess_category_is_allowed (name : string) :
  seven_bit name = true ->
  let g := food_validator.guess_category name in
  g = "" \/ food_validator.mem (lower g) food_validator.ALLOWED_CATEGORIES = true.
Proof.
  intros _ g. unfold g, food_validator.guess_category.
  repeat match goal with
         | |- context [if ?b then _ else _] => destruct b; [right; reflexivity|]
         end.
  left. reflexivity.
Qed.

(** "Coconut Oil" is an oil, and the oils are allowed *)
Lemma guess_category_is_allowed_witness :
  food_validator.guess_category "Coconut Oil" = "Oils"
  /\ (let g := food_validator.guess_category "Coconut Oil" in
      g = "" \/ food_validator.mem (lower g) food_validator.ALLOWED_CATEGORIES = true).
Proof.
  split; [reflexivity|]. apply (guess_category_is_allowed "Coconut Oil"). reflexivity.
Defined.

(** ** The normalized name *)

Lemma guess_category_lower (name : string) :
  food_validator.guess_category (lower name) = food_validator.guess_category name.
Proof. unfold food_validator.guess_category. rewrite lower_idem. reflexivity. Qed.

(** The verdict depends on the name (of 7-bit text) only through its
    normalized form: the
    name trimmed and in lower case, which the result carries.  Validating the
    normalized name of a result, with the same category, gives that result
    again. *)
Theorem validate_item_of_normalized_name (name category : string) :
  seven_bit name = true -> seven_bit category = true ->
  let r := food_validator.validate_item name category in
  food_validator.validate_item (food_validator.normalized_name r) category = r
  /\ food_validator.validate_item (lower (strip name)) category = r.
Proof.
  intros _ _ r.
  assert (H : food_validator.validate_item (lower (strip name)) category = r).
  { unfold r, food_validator.validate_item.
    rewrite (strip_lower (strip name)), strip_idem, lower_idem.
    unfold lower at 1. rewrite is_empty_smap. fold (lower (strip name)).
    rewrite guess_category_lower. reflexivity. }
  split; [|exact H].
  unfold r at 1, food_validator.validate_item.
  destruct (is_empty (strip name)) eqn:E.
  - cbn [food_validator.normalized_name].
    destruct (strip name) eqn:Es; [|discriminate].
    unfold r, food_validator.validate_item. rewrite Es. reflexivity.
  - cbn [food_validator.normalized_name]. exact H.
Qed.

(** " Fresh Tomato " is normalized to "fresh tomato", which is validated
    alike *)
Lemma validate_item_of_normalized_name_witness :
  food_validator.normalized_name
    (food_validator.validate_item " Fresh Tomato " "Vegetables") = "fresh tomato"
  /\ (let r := food_validator.validate_item " Fresh Tomato " "Vegetables" in
      food_validator.validate_item (food_validator.normalized_name r) "Vegetables" = r
      /\ food_validator.validate_item (lower (strip " Fresh Tomato ")) "Vegetables" = r).
Proof.
  split; [vm_compute; reflexivity|].
  apply (validate_item_of_normalized_name " Fresh Tomato " "Vegetables"); reflexivity.
Defined.

(** ** The menu parser *)

Lemma known_false (found_items : list menu_parser.menu_item) (it : menu_parser.menu_item) :
  menu_parser.known found_items it = false ->
  ~ In (menu_parser.id it) (map menu_parser.id found_items).
Proof.
  unfold menu_parser.known. intros H Hin.
  apply in_map_iff in Hin as (item & Hid & Hitem).
  assert (Ht : existsb (fun item0 => (menu_parser.id item0 =? menu_parser.id it)%Z)
                 found_items = true).
  { apply existsb_exists. exists item. split; [exact Hitem|]. apply Z.eqb_eq, Hid. }
  congruence.
Qed.

Lemma NoDup_snoc {A : Type} (l : list A) (x : A) :
  NoDup l -> ~ In x l -> NoDup (l ++ [x]).
Proof.
  intros Hl Hx. induction Hl as [|y l Hy _ IH]; simpl.
  - constructor; [intros [] | constructor].
  - constructor.
    + intros Hin. apply in_app_or in Hin as [Hin|[->|[]]]; [contradiction|].
      apply Hx. left. reflexivity.
    + apply IH. intros Hin. apply Hx. right. exact Hin.
Qed.

Lemma append_found (menu_items found_items : list menu_parser.menu_item)
  (it : menu_parser.menu_item) :
  In it menu_items -> menu_parser.known found_items it = false ->
  found_once menu_items found_items ->
  found_once menu_items (found_items ++ [it]).
Proof.
  intros Hin Hk [Hnd Hincl]. split.
  - rewrite map_app. apply NoDup_snoc; [exact Hnd | apply known_false, Hk].
  - apply incl_app; [exact Hincl|]. intros x [<-|[]]. exact Hin.
Qed.

Lemma consider_found (similarity : string -> string -> float)
  (menu_items found_items : list menu_parser.menu_item) (clean_line : string)
  (it : menu_parser.menu_item) :
  In it menu_items ->
  found_once menu_items found_items ->
  found_once menu_items (menu_parser.consider similarity clean_line found_items it).
Proof.
  intros Hin H. unfold menu_parser.consider.
  destruct (menu_parser.known found_items it) eqn:Hk.
  - rewrite !andb_false_r. exact H.
  - repeat match goal with
           | |- context [if ?b then _ else _] => destruct b
           end; try exact H; apply append_found; assumption.
Qed.

Lemma consider_all_found (similarity : string -> string -> float)
  (menu_items : list menu_parser.menu_item) (clean_line : string)
  (l : list menu_parser.menu_item) :
  incl l menu_items ->
  forall found_items,
    found_once menu_items found_items ->
    found_once menu_items
      (fold_left (menu_parser.consider similarity clean_line) l found_items).
Proof.
  induction l as [|it rest IH]; intros Hl found_items H; simpl; [exact H|].
  apply IH; [intros x Hx; apply Hl; right; exact Hx|].
  apply consider_found; [apply Hl; left; reflexivity | exact H].
Qed.

Lemma scan_line_found (menu_items : list menu_parser.menu_item)
  (similarity : string -> string -> float)
  (found_items : list menu_parser.menu_item) (line : string) :
  found_once menu_items found_items ->
  found_once menu_items (menu_parser.scan_line menu_items similarity found_items line).
Proof.
  intros H. unfold menu_parser.scan_line.
  destruct (_ || _); [exact H|]. destruct (is_some _); [exact H|].
  destruct (_ <? _)%nat; [exact H|].
  apply consider_all_found; [apply incl_refl | exact H].
Qed.

Lemma scan_lines_found (menu_items : list menu_parser.menu_item)
  (similarity : string -> string -> float) (lines : list string) :
  forall found_items,
    found_once menu_items found_items ->
    found_once menu_items
      (fold_left (menu_parser.scan_line menu_items similarity) lines found_items).
Proof.
  induction lines as [|l rest IH]; intros found_items H; simpl; [exact H|].
  apply IH, scan_line_found, H.
Qed.

(** The menu parser reports no item twice (no two items of the result have
    the same id), reports only items of the menu, and counts what it reports;
    it fails, with no items, exactly when the menu is empty.  This holds for
    every text of 7-bit characters, whatever the menu and whatever the
    similarity of two strings. *)
Theorem menu_items_found_once (menu_items : list menu_parser.menu_item)
  (similarity : string -> string -> float) (ocr_text : string) :
  seven_bit ocr_text = true ->
  let r := menu_parser.extract_menu_items_from_text menu_items similarity ocr_text in
  NoDup (map menu_parser.id (menu_parser.items r))
  /\ incl (menu_parser.items r) menu_items
  /\ menu_parser.success r = negb (is_empty_list menu_items)
  /\ (menu_parser.success r = true ->
      menu_parser.count r = Some (List.length (menu_parser.items r)))
  /\ (menu_parser.success r = false -> menu_parser.items r = []).
Proof.
  intros _ r. unfold r, menu_parser.extract_menu_items_from_text.
  destruct (is_empty_list menu_items).
  - cbn. repeat split; try discriminate; auto using NoDup_nil, incl_nil_l.
  - cbn [menu_parser.items menu_parser.success menu_parser.count negb].
    destruct (scan_lines_found menu_items similarity (split_on LF ocr_text) [])
      as [Hnd Hincl]; [split; [constructor | apply incl_nil_l]|].
    repeat split; try discriminate; auto.
Qed.

(** a dish named on two lines is reported once, and the other dish after it *)
Lemma menu_items_found_once_witness :
  let text := "Masala Dosa 50" ++ String LF ("masala dosa" ++ String LF "Idli  30.00") in
  let r := menu_parser.extract_menu_items_from_text two_dishes (fun _ _ => 0%float) text in
  menu_parser.items r = two_dishes
  /\ NoDup (map menu_parser.id (menu_parser.items r))
  /\ incl (menu_parser.items r) two_dishes
  /\ menu_parser.success r = negb (is_empty_list two_dishes)
  /\ (menu_parser.success r = true ->
      menu_parser.count r = Some (List.length (menu_parser.items r)))
  /\ (menu_parser.success r = false -> menu_parser.items r = []).
Proof.
  intros text r. split; [vm_compute; reflexivity|].
  apply (menu_items_found_once two_dishes (fun _ _ => 0%float) text). reflexivity.
Defined.
